(** * A shallow embedding of the HSM runtime (101/hsm.c, 101/hsm.h)

    The runtime is a C library on top of GLib.  Its heap objects (machines,
    events, timeout sources) live in an explicit store, every function of
    hsm.c is a computation over that store, and the places where control
    leaves hsm.c (a state handler supplied by the application,
    [g_main_context_invoke], [g_main_loop_run], [g_thread_join]) are
    parameters of the model.  Each computation also yields the list of observable steps it
    performed, in order: handler invocations, writes of [current_state],
    mutex operations, posts to a context and timer ids handed out. *)

From Stdlib Require Import ZArith Lia Sorted.
From stdpp Require Import gmap strings list fin_maps.

Local Open Scope Z_scope.

(** ** Data model *)

(** A [gpointer] carried around without being dereferenced; [0] is NULL. *)
Definition gpointer : Type := Z.
Definition NULL : gpointer := 0.

(** Addresses of the objects the runtime allocates. *)
Definition HsmPtr : Type := positive.
Definition EvPtr : Type := positive.
Definition SrcPtr : Type := positive.
Definition Ctx : Type := positive.
Definition ThreadId : Type := positive.

(** A [HsmStateHandler] function pointer (a NULL one is [None] where the
    code can hold one). *)
Definition HandlerPtr : Type := positive.

(** [gint] is a 32 bit signed integer; [gint_wrap] is the value an
    arithmetic result has after it is stored in one.  For a result out of
    range this is the value two's complement arithmetic gives: C leaves the
    overflow of a signed increment undefined, and this is what it comes to
    on the usual targets. *)
Definition G_MININT : Z := - 2 ^ 31.
Definition G_MAXINT : Z := 2 ^ 31 - 1.
Definition gint_wrap (z : Z) : Z := (z + 2 ^ 31) mod 2 ^ 32 - 2 ^ 31.
Definition is_gint (z : Z) : Prop := G_MININT <= z <= G_MAXINT.

(** hsm.h, [HsmEventType], in declaration order. *)
Inductive HsmEventType : Type :=
| HSM_EVT_START
| HSM_EVT_STEP
| HSM_EVT_RESULT_OK
| HSM_EVT_RESULT_ERROR
| HSM_EVT_TIMEOUT
| HSM_EVT_TIMEOUT_HANDLED
| HSM_EVT_CANCEL
| HSM_EVT_ENTRY
| HSM_EVT_EXIT.

(** The integer value C gives each enumerator. *)
Definition HsmEventType_to_Z (t : HsmEventType) : Z :=
  match t with
  | HSM_EVT_START => 0
  | HSM_EVT_STEP => 1
  | HSM_EVT_RESULT_OK => 2
  | HSM_EVT_RESULT_ERROR => 3
  | HSM_EVT_TIMEOUT => 4
  | HSM_EVT_TIMEOUT_HANDLED => 5
  | HSM_EVT_CANCEL => 6
  | HSM_EVT_ENTRY => 7
  | HSM_EVT_EXIT => 8
  end.

(** The enumerator an integer converts to ([return ev ? ev->type : 0]). *)
Definition HsmEventType_of_Z (z : Z) : option HsmEventType :=
  match z with
  | 0 => Some HSM_EVT_START
  | 1 => Some HSM_EVT_STEP
  | 2 => Some HSM_EVT_RESULT_OK
  | 3 => Some HSM_EVT_RESULT_ERROR
  | 4 => Some HSM_EVT_TIMEOUT
  | 5 => Some HSM_EVT_TIMEOUT_HANDLED
  | 6 => Some HSM_EVT_CANCEL
  | 7 => Some HSM_EVT_ENTRY
  | 8 => Some HSM_EVT_EXIT
  | _ => None
  end.

(** [struct HsmEvent]; the two strings are owned copies, NULL when absent. *)
Record HsmEvent : Type := mkEvent {
  ev_type : HsmEventType;
  ev_name : option string;
  ev_source : option string;
  ev_seq : Z;
  ev_data : gpointer
}.

(** [struct HsmState]; the name is the key under which the entry is stored. *)
Record HsmState : Type := mkState {
  st_handler : option HandlerPtr;
  st_user_data : gpointer
}.

(** [struct Hsm].  [loop_running] is what [g_main_loop_is_running (h->loop)]
    answers; the mutex [lock] has no field, its operations are observed. *)
Record Hsm : Type := mkHsm {
  name : option string;
  current_state : option string;
  context : Ctx;
  loop_running : bool;
  thread : option ThreadId;
  running : bool;
  parent : option HsmPtr;
  states : gmap string HsmState;
  timers : gmap Z SrcPtr;
  next_timer_id : Z
}.

(** [ChangeReq], [HsmPost] and [TimerCtx]: the argument blocks of the three
    callbacks hsm.c hands to GLib. *)
Record ChangeReq : Type := mkChangeReq { cr_h : HsmPtr; cr_ns : string }.
Record HsmPost : Type := mkPost { p_h : HsmPtr; p_ev : EvPtr }.
Record TimerCtx : Type := mkTimerCtx { t_h : HsmPtr; t_timer_id : Z }.

(** A function of hsm.c together with its argument, as passed to
    [g_main_context_invoke]. *)
Inductive Callback : Type :=
| CbProcessPost (p : HsmPost)
| CbChangeState (r : ChangeReq).

(** A timeout [GSource] attached to a context: [g_timeout_source_new (ms)]
    with [hsm_timer_source_cb] and its [TimerCtx] as callback. *)
Record GSource : Type := mkSource {
  src_ctx : Ctx;
  src_ms : Z;
  src_data : TimerCtx
}.

(** The store.  [sources] holds the attached, not yet destroyed timeout
    sources; [pending] the idle sources [g_main_context_invoke] attached, in
    order of attachment; [tds] is the calling thread's stack of
    thread-default contexts (NULL stands for the global default context);
    [owned] the contexts the calling thread has acquired (once per
    acquisition) and [busy] those another thread has; [umem] is the application memory handlers keep
    behind their [user_data].  [due] is the timing of the environment, as
    the loops the calling thread runs meet it at their successive
    iterations: [Some s], the interval of timeout source [s] has elapsed by
    then; [None], or a list that is exhausted, no interval has. *)
Record World : Type := mkWorld {
  hsms : gmap HsmPtr Hsm;
  next_hsm : positive;
  events : gmap EvPtr HsmEvent;
  next_ev : positive;
  sources : gmap SrcPtr GSource;
  next_src : positive;
  next_ctx : positive;
  next_thread : positive;
  pending : list (Ctx * Callback);
  tds : list (option Ctx);
  owned : list Ctx;
  busy : list Ctx;
  umem : gmap Z Z;
  due : list (option SrcPtr)
}.

(** The global default context, [g_main_context_default ()]. *)
Definition g_main_context_default : Ctx := 1%positive.

(** ** Observable steps *)

Inductive Obs : Type :=
| ODispatch (h : HsmPtr) (state : string) (fn : HandlerPtr) (ev : HsmEvent) (ud : gpointer)
| OCommit (h : HsmPtr) (new_state : string)
| OLock (h : HsmPtr)
| OReadState (h : HsmPtr)
| OUnlock (h : HsmPtr)
| OInvoke (c : Ctx) (cb : Callback)
| OTimer (h : HsmPtr) (timer_id : Z)
| OSpawn (h : HsmPtr) (t : ThreadId).

Definition Trace : Type := list Obs.

(** ** The computation monad

    A computation reads and updates the store and reports its observable
    steps; [None] is a run without a result: a dangling pointer is
    dereferenced or a callee does not return. *)
Definition M (A : Type) : Type := World -> option (A * World * Trace).

Definition ret {A} (a : A) : M A := fun w => Some (a, w, []).

Definition bind {A B} (m : M A) (k : A -> M B) : M B :=
  fun w =>
    match m w with
    | None => None
    | Some (a, w1, t1) =>
        match k a w1 with
        | None => None
        | Some (b, w2, t2) => Some (b, w2, t1 ++ t2)
        end
    end.

Notation "x <- c1 ;; c2" := (bind c1 (fun x => c2))
  (at level 100, c1 at next level, right associativity).

Definition undefined {A} : M A := fun _ => None.
Definition emit (o : Obs) : M unit := fun w => Some (tt, w, [o]).
Definition get_world : M World := fun w => Some (w, w, []).
Definition modify (f : World -> World) : M unit := fun w => Some (tt, f w, []).

(** Field updates of the store. *)
Definition set_hsms (f : gmap HsmPtr Hsm -> gmap HsmPtr Hsm) (w : World) : World :=
  mkWorld (f (hsms w)) (next_hsm w) (events w) (next_ev w) (sources w) (next_src w)
          (next_ctx w) (next_thread w) (pending w) (tds w) (owned w) (busy w) (umem w) (due w).
Definition set_events (f : gmap EvPtr HsmEvent -> gmap EvPtr HsmEvent) (w : World) : World :=
  mkWorld (hsms w) (next_hsm w) (f (events w)) (next_ev w) (sources w) (next_src w)
          (next_ctx w) (next_thread w) (pending w) (tds w) (owned w) (busy w) (umem w) (due w).
Definition set_sources (f : gmap SrcPtr GSource -> gmap SrcPtr GSource) (w : World) : World :=
  mkWorld (hsms w) (next_hsm w) (events w) (next_ev w) (f (sources w)) (next_src w)
          (next_ctx w) (next_thread w) (pending w) (tds w) (owned w) (busy w) (umem w) (due w).
Definition set_pending (f : list (Ctx * Callback) -> list (Ctx * Callback)) (w : World) : World :=
  mkWorld (hsms w) (next_hsm w) (events w) (next_ev w) (sources w) (next_src w)
          (next_ctx w) (next_thread w) (f (pending w)) (tds w) (owned w) (busy w) (umem w) (due w).
Definition set_tds (f : list (option Ctx) -> list (option Ctx)) (w : World) : World :=
  mkWorld (hsms w) (next_hsm w) (events w) (next_ev w) (sources w) (next_src w)
          (next_ctx w) (next_thread w) (pending w) (f (tds w)) (owned w) (busy w) (umem w) (due w).
Definition set_owned (f : list Ctx -> list Ctx) (w : World) : World :=
  mkWorld (hsms w) (next_hsm w) (events w) (next_ev w) (sources w) (next_src w)
          (next_ctx w) (next_thread w) (pending w) (tds w) (f (owned w)) (busy w) (umem w) (due w).
Definition set_umem (f : gmap Z Z -> gmap Z Z) (w : World) : World :=
  mkWorld (hsms w) (next_hsm w) (events w) (next_ev w) (sources w) (next_src w)
          (next_ctx w) (next_thread w) (pending w) (tds w) (owned w) (busy w) (f (umem w)) (due w).
Definition set_due (f : list (option SrcPtr) -> list (option SrcPtr)) (w : World) : World :=
  mkWorld (hsms w) (next_hsm w) (events w) (next_ev w) (sources w) (next_src w)
          (next_ctx w) (next_thread w) (pending w) (tds w) (owned w) (busy w) (umem w) (f (due w)).
Definition bump_ev (w : World) : World :=
  mkWorld (hsms w) (next_hsm w) (events w) (Pos.succ (next_ev w)) (sources w) (next_src w)
          (next_ctx w) (next_thread w) (pending w) (tds w) (owned w) (busy w) (umem w) (due w).
Definition bump_src (w : World) : World :=
  mkWorld (hsms w) (next_hsm w) (events w) (next_ev w) (sources w) (Pos.succ (next_src w))
          (next_ctx w) (next_thread w) (pending w) (tds w) (owned w) (busy w) (umem w) (due w).
Definition bump_hsm (w : World) : World :=
  mkWorld (hsms w) (Pos.succ (next_hsm w)) (events w) (next_ev w) (sources w) (next_src w)
          (next_ctx w) (next_thread w) (pending w) (tds w) (owned w) (busy w) (umem w) (due w).
Definition bump_ctx (w : World) : World :=
  mkWorld (hsms w) (next_hsm w) (events w) (next_ev w) (sources w) (next_src w)
          (Pos.succ (next_ctx w)) (next_thread w) (pending w) (tds w) (owned w) (busy w) (umem w) (due w).
Definition bump_thread (w : World) : World :=
  mkWorld (hsms w) (next_hsm w) (events w) (next_ev w) (sources w) (next_src w)
          (next_ctx w) (Pos.succ (next_thread w)) (pending w) (tds w) (owned w) (busy w) (umem w) (due w).

(** Field updates of a machine. *)
Definition with_current_state (s : option string) (m : Hsm) : Hsm :=
  mkHsm (name m) s (context m) (loop_running m) (thread m) (running m) (parent m)
        (states m) (timers m) (next_timer_id m).
Definition with_loop_running (b : bool) (m : Hsm) : Hsm :=
  mkHsm (name m) (current_state m) (context m) b (thread m) (running m) (parent m)
        (states m) (timers m) (next_timer_id m).
Definition with_thread (t : option ThreadId) (m : Hsm) : Hsm :=
  mkHsm (name m) (current_state m) (context m) (loop_running m) t (running m) (parent m)
        (states m) (timers m) (next_timer_id m).
Definition with_running (b : bool) (m : Hsm) : Hsm :=
  mkHsm (name m) (current_state m) (context m) (loop_running m) (thread m) b (parent m)
        (states m) (timers m) (next_timer_id m).
Definition with_parent (p : option HsmPtr) (m : Hsm) : Hsm :=
  mkHsm (name m) (current_state m) (context m) (loop_running m) (thread m) (running m) p
        (states m) (timers m) (next_timer_id m).
Definition with_states (s : gmap string HsmState) (m : Hsm) : Hsm :=
  mkHsm (name m) (current_state m) (context m) (loop_running m) (thread m) (running m)
        (parent m) s (timers m) (next_timer_id m).
Definition with_timers (t : gmap Z SrcPtr) (m : Hsm) : Hsm :=
  mkHsm (name m) (current_state m) (context m) (loop_running m) (thread m) (running m)
        (parent m) (states m) t (next_timer_id m).
Definition with_next_timer_id (n : Z) (m : Hsm) : Hsm :=
  mkHsm (name m) (current_state m) (context m) (loop_running m) (thread m) (running m)
        (parent m) (states m) (timers m) n.

(** Dereferencing a machine pointer: [h->...]. *)
Definition load_hsm (h : HsmPtr) : M Hsm :=
  fun w => match hsms w !! h with
           | Some m => Some (m, w, [])
           | None => None
           end.

(** Writing through a machine pointer: [h->field = ...]. *)
Definition update_hsm (h : HsmPtr) (f : Hsm -> Hsm) : M unit :=
  fun w => match hsms w !! h with
           | Some m => Some (tt, set_hsms (insert h (f m)) w, [])
           | None => None
           end.

(** Dereferencing an event pointer. *)
Definition load_event (ev : EvPtr) : M HsmEvent :=
  fun w => match events w !! ev with
           | Some e => Some (e, w, [])
           | None => None
           end.

(** ** Event object API (hsm.c, lines 124-160) *)

(** [hsm_event_new]: [g_new0] then the five stores; [g_strdup] of a string
    is the string, of NULL is NULL. *)
Definition hsm_event_new (type : HsmEventType) (nm : option string) (data : gpointer)
    (source : option string) (seq : Z) : M EvPtr :=
  fun w =>
    let e := next_ev w in
    Some (e, bump_ev (set_events (insert e (mkEvent type nm source seq data)) w), []).

(** [hsm_event_free]: nothing on NULL; otherwise the block is released
    (releasing a block that is not allocated has no defined result). *)
Definition hsm_event_free (ev : option EvPtr) : M unit :=
  match ev with
  | None => ret tt
  | Some e =>
      fun w => match events w !! e with
               | Some _ => Some (tt, set_events (delete e) w, [])
               | None => None
               end
  end.

(** The accessors: [return ev ? ev->field : sentinel]. *)
Definition hsm_event_get_type (ev : option EvPtr) : M (option HsmEventType) :=
  match ev with
  | Some e => x <- load_event e ;; ret (Some (ev_type x))
  | None => ret (HsmEventType_of_Z 0)
  end.

Definition hsm_event_get_name (ev : option EvPtr) : M (option string) :=
  match ev with
  | Some e => x <- load_event e ;; ret (ev_name x)
  | None => ret None
  end.

Definition hsm_event_get_source (ev : option EvPtr) : M (option string) :=
  match ev with
  | Some e => x <- load_event e ;; ret (ev_source x)
  | None => ret None
  end.

Definition hsm_event_get_seq (ev : option EvPtr) : M Z :=
  match ev with
  | Some e => x <- load_event e ;; ret (ev_seq x)
  | None => ret 0
  end.

Definition hsm_event_get_data (ev : option EvPtr) : M gpointer :=
  match ev with
  | Some e => x <- load_event e ;; ret (ev_data x)
  | None => ret NULL
  end.

(** ** What hsm.c calls outside itself

    [call_handler fn h state ev ud] is the call through a handler pointer,
    [fn (h, state, ev, ud)]: application code, which may itself use the
    public API.  [g_main_context_invoke c cb], [g_main_loop_run h] (on the
    loop of machine [h]) and [g_thread_join t] are GLib's. *)
Record Env : Type := mkEnv {
  call_handler : HandlerPtr -> HsmPtr -> string -> EvPtr -> gpointer -> M bool;
  g_main_context_invoke : Ctx -> Callback -> M unit;
  g_main_loop_run : HsmPtr -> M unit;
  g_thread_join : ThreadId -> M unit
}.

(** GLib's [G_SOURCE_REMOVE]. *)
Definition G_SOURCE_REMOVE : bool := false.

(** [g_strcmp0]: [strcmp] that orders NULL before every string; only the
    sign of the result is kept. *)
Definition g_strcmp0 (a b : option string) : Z :=
  match a, b with
  | None, None => 0
  | None, Some _ => -1
  | Some _, None => 1
  | Some x, Some y =>
      match String.compare x y with
      | Eq => 0
      | Lt => -1
      | Gt => 1
      end
  end.

(** [g_main_context_get_thread_default]: the top of the calling thread's
    stack, NULL when the stack is empty. *)
Definition g_main_context_get_thread_default (w : World) : option Ctx :=
  match tds w with
  | [] => None
  | c :: _ => c
  end.

(** [g_main_context_acquire] and [g_main_context_release], by the calling
    thread: a context another thread has cannot be acquired. *)
Definition g_main_context_acquire (c : Ctx) (w : World) : option World :=
  if bool_decide (c ∈ busy w) then None else Some (set_owned (cons c) w).

Fixpoint remove_first (c : Ctx) (l : list Ctx) : list Ctx :=
  match l with
  | [] => []
  | x :: l' => if decide (x = c) then l' else x :: remove_first c l'
  end.

Definition g_main_context_release (c : Ctx) : M unit :=
  modify (set_owned (remove_first c)).

(** [g_main_context_push_thread_default]: the context is acquired (the
    call gives up, with a warning, when it cannot be) and pushed; the global
    default context is pushed as NULL. *)
Definition g_main_context_push_thread_default (c : Ctx) : M unit :=
  fun w =>
    match g_main_context_acquire c w with
    | Some w1 =>
        Some (tt,
              set_tds (cons (if decide (c = g_main_context_default) then None else Some c)) w1,
              [])
    | None => Some (tt, w, [])
    end.

(** [g_main_context_pop_thread_default]: when the top of the stack is the
    context (NULL for the global default one), it is dropped and the
    context released; on an empty stack, or one with another top, the call
    gives up, with a warning, and changes nothing. *)
Definition g_main_context_pop_thread_default (c : Ctx) : M unit :=
  w <- get_world ;;
  match tds w with
  | top :: _ =>
      if decide (top = (if decide (c = g_main_context_default) then None else Some c))
      then _ <- modify (set_tds (drop 1)) ;; g_main_context_release c
      else ret tt
  | [] => ret tt
  end.

(** [g_timeout_source_new], [g_source_set_callback], [g_source_attach]: a
    new source is live on the context. *)
Definition g_timeout_source_attach (c : Ctx) (ms : Z) (t : TimerCtx) : M SrcPtr :=
  fun w =>
    let s := next_src w in
    Some (s, bump_src (set_sources (insert s (mkSource c ms t)) w), []).

(** [g_source_destroy]: the source leaves its context and will not be
    dispatched. *)
Definition g_source_destroy (s : SrcPtr) : M unit :=
  modify (set_sources (delete s)).

(** [g_thread_new]. *)
Definition g_thread_new (h : HsmPtr) : M ThreadId :=
  fun w => let t := next_thread w in Some (t, bump_thread w, [OSpawn h t]).

Section Runtime.

Variable E : Env.

(** The call [st->handler (h, state, ev, user_data)], observed with the
    event as it is when the handler is entered. *)
Definition invoke_handler (fn : HandlerPtr) (h : HsmPtr) (state : string) (ev : EvPtr)
    (ud : gpointer) : M bool :=
  e <- load_event ev ;;
  _ <- emit (ODispatch h state fn e ud) ;;
  call_handler E fn h state ev ud.

(** The call [g_main_context_invoke (c, cb, data)], observed. *)
Definition invoke (c : Ctx) (cb : Callback) : M unit :=
  _ <- emit (OInvoke c cb) ;;
  g_main_context_invoke E c cb.

(** *** Life cycle and hierarchy (hsm.c, lines 166-258) *)

Definition hsm_new (nm : option string) (use_own_context : bool) : M HsmPtr :=
  fun w =>
    let c := if use_own_context then next_ctx w else g_main_context_default in
    let w1 := if use_own_context then bump_ctx w else w in
    let h := next_hsm w1 in
    Some (h, bump_hsm (set_hsms (insert h (mkHsm nm None c false None false None ∅ ∅ 1)) w1), []).

Definition hsm_set_parent (h : option HsmPtr) (p : option HsmPtr) : M unit :=
  match h with
  | Some h => update_hsm h (with_parent p)
  | None => ret tt
  end.

Definition hsm_get_parent (h : option HsmPtr) : M (option HsmPtr) :=
  match h with
  | Some h => m <- load_hsm h ;; ret (parent m)
  | None => ret None
  end.

Definition hsm_get_name (h : option HsmPtr) : M (option string) :=
  match h with
  | Some h => m <- load_hsm h ;; ret (name m)
  | None => ret None
  end.

(** *** State registry and transitions (hsm.c, lines 264-337) *)

(** [g_hash_table_insert] adds the entry or replaces the one of that name. *)
Definition hsm_register_state (h : option HsmPtr) (state_name : option string)
    (handler : option HandlerPtr) (user_data : gpointer) : M unit :=
  match h, state_name with
  | Some h, Some s =>
      update_hsm h (fun m => with_states (<[s := mkState handler user_data]> (states m)) m)
  | _, _ => ret tt
  end.

Definition hsm_change_state_internal (h : HsmPtr) (new_state : string) : M unit :=
  m <- load_hsm h ;;
  if g_strcmp0 (current_state m) (Some new_state) =? 0 then ret tt
  else
    _ <- match current_state m with
         | Some cs =>
             match states m !! cs with
             | Some old =>
                 match st_handler old with
                 | Some fn =>
                     ev <- hsm_event_new HSM_EVT_EXIT None NULL (name m) 0 ;;
                     _ <- invoke_handler fn h cs ev (st_user_data old) ;;
                     hsm_event_free (Some ev)
                 | None => ret tt
                 end
             | None => ret tt
             end
         | None => ret tt
         end ;;
    _ <- update_hsm h (with_current_state (Some new_state)) ;;
    _ <- emit (OCommit h new_state) ;;
    m1 <- load_hsm h ;;
    match states m1 !! new_state with
    | Some newst =>
        match st_handler newst with
        | Some fn =>
            ev <- hsm_event_new HSM_EVT_ENTRY None NULL (name m1) 0 ;;
            _ <- invoke_handler fn h new_state ev (st_user_data newst) ;;
            hsm_event_free (Some ev)
        | None => ret tt
        end
    | None => ret tt
    end.

Definition hsm_change_state (h : option HsmPtr) (new_state : option string) : M unit :=
  match h, new_state with
  | Some h, Some ns =>
      m <- load_hsm h ;;
      w <- get_world ;;
      if decide (g_main_context_get_thread_default w = Some (context m))
      then hsm_change_state_internal h ns
      else invoke (context m) (CbChangeState (mkChangeReq h ns))
  | _, _ => ret tt
  end.

Definition hsm_post_change_state (h : option HsmPtr) (new_state : option string) : M unit :=
  hsm_change_state h new_state.

Definition hsm_change_state_invoke_cb (r : ChangeReq) : M bool :=
  _ <- hsm_change_state_internal (cr_h r) (cr_ns r) ;;
  ret G_SOURCE_REMOVE.

(** *** Event loop (hsm.c, lines 356-391) *)

Definition hsm_start (h : option HsmPtr) (run_in_thread : bool) : M unit :=
  match h with
  | Some h =>
      if run_in_thread then
        m <- load_hsm h ;;
        match thread m with
        | None => t <- g_thread_new h ;; update_hsm h (with_thread (Some t))
        | Some _ => ret tt
        end
      else ret tt
  | None => ret tt
  end.

(** What the thread [hsm_start] spawns executes. *)
Definition hsm_thread_func (h : HsmPtr) : M unit :=
  m <- load_hsm h ;;
  _ <- g_main_context_push_thread_default (context m) ;;
  _ <- update_hsm h (with_running true) ;;
  _ <- g_main_loop_run E h ;;
  _ <- update_hsm h (with_running false) ;;
  m1 <- load_hsm h ;;
  g_main_context_pop_thread_default (context m1).

Definition hsm_run (h : option HsmPtr) : M unit :=
  match h with
  | Some h =>
      m <- load_hsm h ;;
      _ <- g_main_context_push_thread_default (context m) ;;
      _ <- update_hsm h (with_running true) ;;
      _ <- g_main_loop_run E h ;;
      _ <- update_hsm h (with_running false) ;;
      m1 <- load_hsm h ;;
      g_main_context_pop_thread_default (context m1)
  | None => ret tt
  end.

(** [g_main_loop_quit] clears what [g_main_loop_is_running] reads. *)
Definition hsm_stop (h : option HsmPtr) : M unit :=
  match h with
  | Some h =>
      m <- load_hsm h ;;
      if loop_running m then update_hsm h (with_loop_running false) else ret tt
  | None => ret tt
  end.

(** [g_main_context_unref] by the last holder of a reference finalizes
    the context, and destroys the sources still attached to it.  The
    global default context is never finalized; a thread that has a context
    on its stack of default contexts, or is running it, holds a reference
    to it. *)
Definition context_finalized (c : Ctx) (w : World) : Prop :=
  c ≠ g_main_context_default /\ (Some c ∉ tds w) /\ (c ∉ busy w).

(** [hsm_destroy] (hsm.c, lines 205-240): the loop is stopped, the thread
    joined, the loop and the context lose the references the machine holds,
    and the machine is released.  The timer table is released, the sources
    it names are not destroyed: they go with the context when the
    machine's reference was the last one, and stay attached otherwise. *)
Definition hsm_destroy (h : option HsmPtr) : M unit :=
  match h with
  | Some h =>
      _ <- hsm_stop (Some h) ;;
      m <- load_hsm h ;;
      _ <- match thread m with
           | Some t => _ <- g_thread_join E t ;; update_hsm h (with_thread None)
           | None => ret tt
           end ;;
      m1 <- load_hsm h ;;
      w <- get_world ;;
      _ <- (if decide (context_finalized (context m1) w)
            then _ <- modify (set_sources (filter (fun x => src_ctx x.2 ≠ context m1))) ;;
                 modify (set_pending (filter (fun x => x.1 ≠ context m1)))
            else ret tt) ;;
      modify (set_hsms (delete h))
  | None => ret tt
  end.

(** *** Event delivery (hsm.c, lines 408-451) *)

Definition hsm_process_post (p : HsmPost) : M bool :=
  let h := p_h p in
  let ev := p_ev p in
  m <- load_hsm h ;;
  handled <- match current_state m with
             | Some cs =>
                 match states m !! cs with
                 | Some st =>
                     match st_handler st with
                     | Some fn => invoke_handler fn h cs ev (st_user_data st)
                     | None => ret false
                     end
                 | None => ret false
                 end
             | None => ret false
             end ;;
  m1 <- load_hsm h ;;
  _ <- match handled, parent m1 with
       | false, Some par =>
           e <- load_event ev ;;
           copy <- hsm_event_new (ev_type e) (ev_name e) (ev_data e) (ev_source e) (ev_seq e) ;;
           pm <- load_hsm par ;;
           _ <- invoke (context pm) (CbProcessPost (mkPost par copy)) ;;
           hsm_event_free (Some ev)
       | _, _ => hsm_event_free (Some ev)
       end ;;
  ret G_SOURCE_REMOVE.

Definition hsm_post_event (h : option HsmPtr) (ev : option EvPtr) : M unit :=
  match h, ev with
  | Some h, Some ev =>
      m <- load_hsm h ;;
      invoke (context m) (CbProcessPost (mkPost h ev))
  | _, _ => ret tt
  end.

(** *** Timers (hsm.c, lines 468-517) *)

Definition hsm_timer_source_cb (t : TimerCtx) : M bool :=
  m <- load_hsm (t_h t) ;;
  ev <- hsm_event_new HSM_EVT_TIMEOUT (Some "TIMER_EXPIRED"%string) NULL (name m) (t_timer_id t) ;;
  _ <- hsm_post_event (Some (t_h t)) (Some ev) ;;
  _ <- update_hsm (t_h t) (fun m => with_timers (delete (t_timer_id t) (timers m)) m) ;;
  ret G_SOURCE_REMOVE.

Definition hsm_schedule_timer (h : option HsmPtr) (ms : Z) : M Z :=
  match h with
  | None => ret (-1)
  | Some h =>
      m <- load_hsm h ;;
      let tid := gint_wrap (next_timer_id m + 1) in
      _ <- update_hsm h (with_next_timer_id tid) ;;
      src <- g_timeout_source_attach (context m) ms (mkTimerCtx h tid) ;;
      _ <- update_hsm h (fun m => with_timers (<[tid := src]> (timers m)) m) ;;
      _ <- emit (OTimer h tid) ;;
      ret tid
  end.

Definition hsm_cancel_timer (h : option HsmPtr) (timer_id : Z) : M bool :=
  match h with
  | None => ret false
  | Some h =>
      m <- load_hsm h ;;
      match timers m !! timer_id with
      | None => ret false
      | Some src =>
          _ <- g_source_destroy src ;;
          _ <- update_hsm h (fun m => with_timers (delete timer_id (timers m)) m) ;;
          ret true
      end
  end.

(** *** State query (hsm.c, lines 523-533) *)

Definition hsm_get_state_copy (h : option HsmPtr) : M string :=
  match h with
  | None => ret ""%string
  | Some h =>
      _ <- emit (OLock h) ;;
      m <- load_hsm h ;;
      _ <- emit (OReadState h) ;;
      _ <- emit (OUnlock h) ;;
      ret (match current_state m with Some s => s | None => ""%string end)
  end.

(** The two callbacks a context can be asked to run. *)
Definition run_callback (cb : Callback) : M bool :=
  match cb with
  | CbProcessPost p => hsm_process_post p
  | CbChangeState r => hsm_change_state_invoke_cb r
  end.

End Runtime.

(** ** An executable environment

    Handlers as programs over the public API, and GLib's documented
    behaviour of [g_main_context_invoke] and [g_main_loop_run] for one
    thread of execution.  The nesting of calls (a handler that changes
    state, which calls a handler, ...) is bounded by a fuel. *)

(** The body of a handler: what it calls, in order, and what it returns.
    [PLoad] and [PStore] access the application's own memory.  A handler
    does not destroy machines. *)
Inductive Prog : Type :=
| PReturn (handled : bool)
| PChangeState (h : option HsmPtr) (new_state : option string) (k : Prog)
| PPostEvent (h : option HsmPtr) (type : HsmEventType) (nm : option string) (data : gpointer)
    (source : option string) (seq : Z) (k : Prog)
| PScheduleTimer (h : option HsmPtr) (ms : Z) (k : Z -> Prog)
| PCancelTimer (h : option HsmPtr) (timer_id : Z) (k : bool -> Prog)
| PGetStateCopy (h : option HsmPtr) (k : string -> Prog)
| PGetParent (h : option HsmPtr) (k : option HsmPtr -> Prog)
| PRegisterState (h : option HsmPtr) (state_name : option string) (handler : option HandlerPtr)
    (user_data : gpointer) (k : Prog)
| PSetParent (h : option HsmPtr) (p : option HsmPtr) (k : Prog)
| PStop (h : option HsmPtr) (k : Prog)
| PLoad (addr : Z) (k : Z -> Prog)
| PStore (addr : Z) (v : Z) (k : Prog).

(** The handler each function pointer stands for, given its four arguments
    as it reads them when it is entered (the event by its fields, which the
    handler reads through the accessors; the state name by its characters).
    The pointers themselves stay behind: the [state] argument is
    [h->current_state], which a transition of [h] releases (hsm.c, line
    293), so that a program which uses the name after it has requested such
    a transition stands for a handler that took a copy of it on entry, and
    a handler that reads through the stale pointer instead is none of
    these programs. *)
Definition Code : Type := HandlerPtr -> HsmPtr -> string -> HsmEvent -> gpointer -> Prog.

Fixpoint run_prog (E : Env) (p : Prog) : M bool :=
  match p with
  | PReturn b => ret b
  | PChangeState h ns k => _ <- hsm_change_state E h ns ;; run_prog E k
  | PPostEvent h ty nm data source seq k =>
      ev <- hsm_event_new ty nm data source seq ;;
      _ <- hsm_post_event E h (Some ev) ;;
      run_prog E k
  | PScheduleTimer h ms k => id <- hsm_schedule_timer h ms ;; run_prog E (k id)
  | PCancelTimer h id k => b <- hsm_cancel_timer h id ;; run_prog E (k b)
  | PGetStateCopy h k => s <- hsm_get_state_copy h ;; run_prog E (k s)
  | PGetParent h k => p <- hsm_get_parent h ;; run_prog E (k p)
  | PRegisterState h s fn ud k => _ <- hsm_register_state h s fn ud ;; run_prog E k
  | PSetParent h p k => _ <- hsm_set_parent h p ;; run_prog E k
  | PStop h k => _ <- hsm_stop h ;; run_prog E k
  | PLoad a k => w <- get_world ;; run_prog E (k (default 0 (umem w !! a)))
  | PStore a v k => _ <- modify (set_umem (insert a v)) ;; run_prog E k
  end.

(** GLib, [g_main_context_invoke]: the function runs at once when the
    calling thread owns the context, or when the context is the thread's
    default one and can be acquired; otherwise an idle source is attached
    to the context.  [direct] runs the function. *)
Definition glib_main_context_invoke (direct : Callback -> M bool) (c : Ctx) (cb : Callback)
    : M unit :=
  w <- get_world ;;
  if bool_decide (c ∈ owned w) then _ <- direct cb ;; ret tt
  else
    let td := default g_main_context_default (g_main_context_get_thread_default w) in
    if bool_decide (td = c) && negb (bool_decide (c ∈ busy w)) then
      _ <- modify (set_owned (cons c)) ;;
      _ <- direct cb ;;
      g_main_context_release c
    else modify (set_pending (fun q => q ++ [(c, cb)])).

(** The first idle source attached to context [c], and the queue without it. *)
Fixpoint take_pending (c : Ctx) (q : list (Ctx * Callback))
    : option (Callback * list (Ctx * Callback)) :=
  match q with
  | [] => None
  | (c', cb) :: q' =>
      if decide (c' = c) then Some (cb, q')
      else match take_pending c q' with
           | Some (x, r) => Some (x, (c', cb) :: r)
           | None => None
           end
  end.

(** GLib dispatching the timeout source [s] when its interval has elapsed:
    the callback runs and, as it returns [G_SOURCE_REMOVE], the source is
    destroyed. *)
Definition g_timeout_dispatch (E : Env) (s : SrcPtr) : M unit :=
  w <- get_world ;;
  match sources w !! s with
  | Some src =>
      again <- hsm_timer_source_cb E (src_data src) ;;
      if again then ret tt else g_source_destroy s
  | None => undefined
  end.

(** One iteration of a running loop that finds no interval elapsed: the
    first idle source of the loop's context is dispatched.  With nothing to
    dispatch the iteration only waits and changes nothing; a loop that
    nothing ever wakes goes on waiting, and has no result for any number
    of iterations. *)
Definition glib_dispatch_idle (direct : Callback -> M bool) (c : Ctx) : M unit :=
  w <- get_world ;;
  match take_pending c (pending w) with
  | Some (cb, rest) =>
      _ <- modify (set_pending (fun _ => rest)) ;;
      _ <- direct cb ;;
      ret tt
  | None => ret tt
  end.

(** The iterations of a running loop, until the loop is quit.  At each
    iteration the timing of the environment says whether the interval of a
    timeout source has elapsed by then: if so, and the source is still
    attached to the loop's context, [fire] dispatches it (a source that was
    destroyed in between, or belongs to another context, is passed over);
    if not, the first idle source of the context is dispatched. *)
Fixpoint glib_loop_iterate (direct : Callback -> M bool) (fire : SrcPtr -> M unit) (n : nat)
    (h : HsmPtr) : M unit :=
  match n with
  | O => undefined
  | S n' =>
      m <- load_hsm h ;;
      if loop_running m then
        w <- get_world ;;
        match due w with
        | Some s :: later =>
            _ <- modify (set_due (fun _ => later)) ;;
            _ <- match sources w !! s with
                 | Some src => if decide (src_ctx src = context m) then fire s else ret tt
                 | None => ret tt
                 end ;;
            glib_loop_iterate direct fire n' h
        | None :: later =>
            _ <- modify (set_due (fun _ => later)) ;;
            _ <- glib_dispatch_idle direct (context m) ;;
            glib_loop_iterate direct fire n' h
        | [] =>
            _ <- glib_dispatch_idle direct (context m) ;;
            glib_loop_iterate direct fire n' h
        end
      else ret tt
  end.

(** GLib, [g_main_loop_run] on the loop of machine [h]. *)
Definition glib_main_loop_run (direct : Callback -> M bool) (fire : SrcPtr -> M unit) (n : nat)
    (h : HsmPtr) : M unit :=
  m <- load_hsm h ;;
  _ <- modify (set_owned (cons (context m))) ;;
  _ <- update_hsm h (with_loop_running true) ;;
  _ <- glib_loop_iterate direct fire n h ;;
  g_main_context_release (context m).

(** The environment in which handlers are the programs of [code] and calls
    nest at most [fuel] deep.  The threads [hsm_start] spawns are not run
    here, so joining one has no result. *)
Fixpoint runtime (code : Code) (fuel : nat) : Env :=
  match fuel with
  | O => mkEnv (fun _ _ _ _ _ => undefined)
               (glib_main_context_invoke (fun _ => undefined))
               (fun _ => undefined)
               (fun _ => undefined)
  | S n =>
      let E := runtime code n in
      mkEnv (fun fn h state ev ud => e <- load_event ev ;; run_prog E (code fn h state e ud))
            (glib_main_context_invoke (run_callback E))
            (glib_main_loop_run (run_callback E) (g_timeout_dispatch E) n)
            (fun _ => undefined)
  end.

(** An environment whose handlers return [handled] without calling back
    and in which every post is queued, as it is when the calling thread
    cannot run the target context. *)
Definition queue_env (handled : bool) : Env :=
  mkEnv (fun _ _ _ _ _ => ret handled)
        (fun c cb => modify (set_pending (fun q => q ++ [(c, cb)])))
        (fun _ => undefined)
        (fun _ => undefined).

(** The store before anything is allocated. *)
Definition empty_world : World :=
  mkWorld ∅ 1%positive ∅ 1%positive ∅ 1%positive 2%positive 1%positive [] [] [] [] ∅ [].

(** ** Vocabulary of the properties *)

(** A state name resolves to a handler when the registry has an entry of
    that name whose handler pointer is not NULL
    (the tests [old && old->handler], [st && st->handler]). *)
Definition resolve (m : Hsm) (s : string) : option (HandlerPtr * gpointer) :=
  match states m !! s with
  | Some st =>
      match st_handler st with
      | Some fn => Some (fn, st_user_data st)
      | None => None
      end
  | None => None
  end.

(** The event a transition synthesizes: no name, no data, the machine's
    name as source, sequence number 0. *)
Definition synth (k : HsmEventType) (m : Hsm) : HsmEvent :=
  mkEvent k None (name m) 0 NULL.

(** The store after [hsm_event_new] has allocated [e]. *)
Definition alloc_event (e : HsmEvent) (w : World) : World :=
  bump_ev (set_events (insert (next_ev w) e) w).

(** The store after [hsm_event_free] has released [ev]. *)
Definition free_event (ev : EvPtr) (w : World) : World :=
  set_events (delete ev) w.

(** The store after a write through [h]. *)
Definition store_hsm (h : HsmPtr) (m : Hsm) (w : World) : World :=
  set_hsms (insert h m) w.

(** The handler sequence of a trace: machine, state and kind of event of
    each invocation. *)
Definition dispatches (t : Trace) : list (HsmPtr * string * HsmEventType) :=
  omap (fun o => match o with
                 | ODispatch h s _ e _ => Some (h, s, ev_type e)
                 | _ => None
                 end) t.

(** The timer ids machine [h] handed out, in order. *)
Definition timer_ids (h : HsmPtr) (t : Trace) : list Z :=
  omap (fun o => match o with
                 | OTimer h' id => if decide (h' = h) then Some id else None
                 | _ => None
                 end) t.

(** Whether every write of a machine's [current_state] in a trace happens
    while that machine's mutex is held by the writer ([held] lists the
    mutexes held so far). *)
Fixpoint commits_locked (held : list HsmPtr) (t : Trace) : bool :=
  match t with
  | [] => true
  | OLock h :: t' => commits_locked (h :: held) t'
  | OUnlock h :: t' => commits_locked (filter (fun x => x ≠ h) held) t'
  | OCommit h _ :: t' => bool_decide (h ∈ held) && commits_locked held t'
  | _ :: t' => commits_locked held t'
  end.

(** The same for the reads of [current_state] by the snapshot. *)
Fixpoint reads_locked (held : list HsmPtr) (t : Trace) : bool :=
  match t with
  | [] => true
  | OLock h :: t' => reads_locked (h :: held) t'
  | OUnlock h :: t' => reads_locked (filter (fun x => x ≠ h) held) t'
  | OReadState h :: t' => bool_decide (h ∈ held) && reads_locked held t'
  | _ :: t' => reads_locked held t'
  end.

(** ** The protocols, step by step

    The transition protocol and the dispatch protocol as relations between
    the store before, the store after and the observable steps, one
    constructor per case of the description. *)

(** Synthesizing an event of kind [k] for state [s] of machine [h] (whose
    record is [m]): nothing happens when [s] does not resolve to a handler;
    otherwise the event is allocated, the handler is called with it, its
    result is dropped and the event is released. *)
Inductive synth_step (E : Env) (k : HsmEventType) (h : HsmPtr) (s : string) (m : Hsm)
    : World -> World -> Trace -> Prop :=
| synth_skip w :
    resolve m s = None ->
    synth_step E k h s m w w []
| synth_call w fn ud b w2 th :
    resolve m s = Some (fn, ud) ->
    call_handler E fn h s (next_ev w) ud (alloc_event (synth k m) w) = Some (b, w2, th) ->
    is_Some (events w2 !! next_ev w) ->
    synth_step E k h s m w (free_event (next_ev w) w2)
               (ODispatch h s fn (synth k m) ud :: th).

(** Step 1 of a transition: EXIT for the current state, if there is one. *)
Definition exit_step (E : Env) (h : HsmPtr) (m : Hsm) (w w1 : World) (tx : Trace) : Prop :=
  match current_state m with
  | Some s => synth_step E HSM_EVT_EXIT h s m w w1 tx
  | None => w1 = w /\ tx = []
  end.

(** A transition of [h] to [T]: EXIT, then the write of [current_state],
    then ENTRY for [T] as the registry is after the EXIT step. *)
Inductive transition (E : Env) (h : HsmPtr) (T : string) : World -> World -> Trace -> Prop :=
| transition_steps w m w1 tx m1 w3 te :
    hsms w !! h = Some m ->
    exit_step E h m w w1 tx ->
    hsms w1 !! h = Some m1 ->
    synth_step E HSM_EVT_ENTRY h T (with_current_state (Some T) m1)
               (store_hsm h (with_current_state (Some T) m1) w1) w3 te ->
    transition E h T w w3 (tx ++ OCommit h T :: te).

(** Steps 1 and 2 of a dispatch of event [ev] to machine [h] (whose record
    is [m]): the handler of the current state is called and its result is
    [handled]; without such a handler [handled] is false. *)
Inductive handler_step (E : Env) (h : HsmPtr) (ev : EvPtr) (m : Hsm)
    : World -> bool -> World -> Trace -> Prop :=
| handler_none w :
    match current_state m with Some s => resolve m s | None => None end = None ->
    handler_step E h ev m w false w []
| handler_called w s fn ud e b w1 th :
    current_state m = Some s ->
    resolve m s = Some (fn, ud) ->
    events w !! ev = Some e ->
    call_handler E fn h s ev ud w = Some (b, w1, th) ->
    handler_step E h ev m w b w1 (ODispatch h s fn e ud :: th).

(** A dispatch: an unhandled event of a machine with a parent is copied,
    the copy is posted to the parent's context and the original is
    released; any other event is released. *)
Inductive delivery (E : Env) (h : HsmPtr) (ev : EvPtr) : World -> World -> Trace -> Prop :=
| delivery_bubble w m w1 th m1 par pm e1 w2 ti :
    hsms w !! h = Some m ->
    handler_step E h ev m w false w1 th ->
    hsms w1 !! h = Some m1 ->
    parent m1 = Some par ->
    events w1 !! ev = Some e1 ->
    hsms w1 !! par = Some pm ->
    g_main_context_invoke E (context pm) (CbProcessPost (mkPost par (next_ev w1)))
                          (alloc_event e1 w1) = Some (tt, w2, ti) ->
    is_Some (events w2 !! ev) ->
    delivery E h ev w (free_event ev w2)
             (th ++ OInvoke (context pm) (CbProcessPost (mkPost par (next_ev w1))) :: ti)
| delivery_end w m handled w1 th m1 :
    hsms w !! h = Some m ->
    handler_step E h ev m w handled w1 th ->
    hsms w1 !! h = Some m1 ->
    handled = true \/ parent m1 = None ->
    is_Some (events w1 !! ev) ->
    delivery E h ev w (free_event ev w1) th.

(** ** Lifetimes

    What happens to the machines of a store over time, seen from the
    thread that runs them: the application calls the API, GLib dispatches
    a timeout source whose interval has elapsed, GLib dispatches the first
    idle source of a context. *)
Inductive Activity : Type :=
| AClient (p : Prog)
| AFire (s : SrcPtr)
| AIdle (c : Ctx).

Definition run_activity (E : Env) (a : Activity) : M unit :=
  match a with
  | AClient p => _ <- run_prog E p ;; ret tt
  | AFire s => g_timeout_dispatch E s
  | AIdle c =>
      w <- get_world ;;
      match take_pending c (pending w) with
      | Some (cb, rest) =>
          _ <- modify (set_pending (fun _ => rest)) ;;
          _ <- run_callback E cb ;;
          ret tt
      | None => undefined
      end
  end.

Fixpoint run_activities (E : Env) (l : list Activity) : M unit :=
  match l with
  | [] => ret tt
  | a :: l' => _ <- run_activity E a ;; run_activities E l'
  end.

(** [n] successive calls [hsm_schedule_timer (h, ms)] and the ids they
    return, in order. *)
Fixpoint schedule_many (h : HsmPtr) (ms : Z) (n : nat) : M (list Z) :=
  match n with
  | O => ret []
  | S n' =>
      id <- hsm_schedule_timer (Some h) ms ;;
      ids <- schedule_many h ms n' ;;
      ret (id :: ids)
  end.

(** [ids] are the successive values of a [gint] counter incremented from
    [c], and [c'] is the counter after the last increment. *)
Fixpoint counted_from (c : Z) (ids : list Z) (c' : Z) : Prop :=
  match ids with
  | [] => c' = c
  | id :: rest => id = gint_wrap (c + 1) /\ counted_from id rest c'
  end.

(** A computation counts the timers of machine [h]: the machine stays
    allocated, and the ids it hands out are the successive increments of
    its [next_timer_id], which ends at the last of them. *)
Definition counts {A} (h : HsmPtr) (c : M A) : Prop :=
  forall w m a w' t,
    hsms w !! h = Some m ->
    c w = Some (a, w', t) ->
    exists m', hsms w' !! h = Some m' /\
               counted_from (next_timer_id m) (timer_ids h t) (next_timer_id m').

Definition env_counts (h : HsmPtr) (E : Env) : Prop :=
  (forall fn h' s ev ud, counts h (call_handler E fn h' s ev ud)) /\
  (forall c cb, counts h (g_main_context_invoke E c cb)).

(** The event a timer of machine [m] delivers: kind TIMEOUT, name
    "TIMER_EXPIRED", the machine's name as source, the timer id as sequence
    number, no data. *)
Definition timeout_event (m : Hsm) (id : Z) : HsmEvent :=
  mkEvent HSM_EVT_TIMEOUT (Some "TIMER_EXPIRED"%string) (name m) id NULL.

(** The callback of a timer, step by step: the TIMEOUT event is allocated
    and posted to the machine's own context, then the entry of the timer id
    is removed from the machine's timer table. *)
Inductive timer_fires (E : Env) (t : TimerCtx) : World -> World -> Trace -> Prop :=
| timer_fires_post w m w2 ti m2 :
    hsms w !! t_h t = Some m ->
    g_main_context_invoke E (context m) (CbProcessPost (mkPost (t_h t) (next_ev w)))
                          (alloc_event (timeout_event m (t_timer_id t)) w) = Some (tt, w2, ti) ->
    hsms w2 !! t_h t = Some m2 ->
    timer_fires E t w
                (store_hsm (t_h t) (with_timers (delete (t_timer_id t) (timers m2)) m2) w2)
                (OInvoke (context m) (CbProcessPost (mkPost (t_h t) (next_ev w))) :: ti).

(** ** Concrete machines *)

(** A machine "dev" on its own context (context 2), with states "S", "T"
    and "U" handled by handler 1 (user data at address 100) and a state
    "Z" registered with a NULL handler; it is in state "S" and has handed
    out no timer id yet. *)
Definition dev_states : gmap string HsmState :=
  <["S"%string := mkState (Some 1%positive) 100]>
    (<["T"%string := mkState (Some 1%positive) 100]>
       (<["U"%string := mkState (Some 1%positive) 100]>
          (<["Z"%string := mkState None 0]> ∅))).

Definition dev_hsm : Hsm :=
  mkHsm (Some "dev"%string) (Some "S"%string) 2%positive false None false None dev_states ∅ 1.

(** The store with that machine alone, seen from the thread that runs the
    machine's context (the thread has pushed the context as its default
    one, and so owns it). *)
Definition dev_world : World :=
  mkWorld {[1%positive := dev_hsm]} 2%positive ∅ 1%positive ∅ 1%positive 3%positive 1%positive
          [] [Some 2%positive] [2%positive] [] ∅ [].

(** A child "dev" of a machine "root" (machine 2, on the global default
    context, in state "r" handled by handler 2); an event
    RESULT_OK "done" from "child" is allocated at address 1. *)
Definition root_hsm : Hsm :=
  mkHsm (Some "root"%string) (Some "r"%string) g_main_context_default false None false None
        (<["r"%string := mkState (Some 2%positive) 0]> ∅) ∅ 1.

Definition done_event : HsmEvent :=
  mkEvent HSM_EVT_RESULT_OK (Some "done"%string) (Some "child"%string) 0 7.

Definition family_world : World :=
  mkWorld (<[1%positive := with_parent (Some 2%positive) dev_hsm]> {[2%positive := root_hsm]})
          3%positive {[1%positive := done_event]} 2%positive ∅ 1%positive 3%positive 1%positive
          [] [Some 2%positive] [2%positive] [] ∅ [].

(** Handlers that do nothing and report the event as handled. *)
Definition quiet_code : Code := fun _ _ _ _ _ => PReturn true.

(** A handler that, the first time it sees EXIT, redirects the machine to
    state "U": it keeps a flag in its user data so as to do so only
    once. *)
Definition redirecting_code : Code :=
  fun _ h _ e ud =>
    match ev_type e with
    | HSM_EVT_EXIT =>
        PLoad ud (fun flag =>
          if flag =? 0
          then PStore ud 1 (PChangeState (Some h) (Some "U"%string) (PReturn true))
          else PReturn true)
    | _ => PReturn true
    end.

(** A lifetime of [dev_world]: the application schedules a timer, cancels
    it and schedules another one; the second timer fires; the application
    schedules a third one. *)
Definition dev_lifetime : list Activity :=
  [AClient (PScheduleTimer (Some 1%positive) 100 (fun id =>
     PCancelTimer (Some 1%positive) id (fun _ =>
       PScheduleTimer (Some 1%positive) 50 (fun _ => PReturn true))));
   AFire 2%positive;
   AClient (PScheduleTimer (Some 1%positive) 10 (fun _ => PReturn true))].

(** The second and third component of a run, when it has a result. *)
Definition outcome {A} (r : option (A * World * Trace)) : World * Trace :=
  match r with
  | Some (_, w, t) => (w, t)
  | None => (empty_world, [])
  end.

(** The machine [hsm_new (NULL, TRUE)] creates in the empty store, and the
    store it leaves. *)
Definition fresh_hsm : Hsm := mkHsm None None 2%positive false None false None ∅ ∅ 1.

Definition fresh_world : World :=
  bump_hsm (set_hsms (insert 1%positive fresh_hsm) (bump_ctx empty_world)).

(** [dev_world] after the machine has scheduled one timer of 100 ms: the
    timer has id 2 and its source is source 1. *)
Definition timer_hsm : Hsm :=
  with_timers (<[2 := 1%positive]> ∅) (with_next_timer_id 2 dev_hsm).

Definition timer_world : World :=
  (outcome (hsm_schedule_timer (Some 1%positive) 100 dev_world)).1.

(** The store and the observable steps at the end of [dev_lifetime], with
    handlers that only return. *)
Definition dev_lifetime_end : World * Trace :=
  outcome (run_activities (runtime quiet_code 3) dev_lifetime dev_world).

(** The basic life cycle (scenario S1 of the specification): a machine
    with its own context and states "A" and "B"; the handler moves from "A"
    to "B" on STEP and stops the loop when "B" is entered.  The application
    requests state "A", posts STEP "go" and runs the loop. *)
Definition lifecycle_code : Code :=
  fun _ h state e _ =>
    match ev_type e with
    | HSM_EVT_STEP => PChangeState (Some h) (Some "B"%string) (PReturn true)
    | HSM_EVT_ENTRY =>
        if (state =? "B")%string then PStop (Some h) (PReturn true) else PReturn true
    | _ => PReturn true
    end.

Definition lifecycle : M unit :=
  let E := runtime lifecycle_code 4 in
  h <- hsm_new (Some "m"%string) true ;;
  _ <- hsm_register_state (Some h) (Some "A"%string) (Some 1%positive) NULL ;;
  _ <- hsm_register_state (Some h) (Some "B"%string) (Some 1%positive) NULL ;;
  _ <- hsm_change_state E (Some h) (Some "A"%string) ;;
  ev <- hsm_event_new HSM_EVT_STEP (Some "go"%string) NULL None 0 ;;
  _ <- hsm_post_event E (Some h) (Some ev) ;;
  hsm_run E (Some h).

(** A handler that, on TIMEOUT, cancels the timer whose id the event
    carries and notes the answer of [hsm_cancel_timer] at address 200. *)
Definition self_cancel_code : Code :=
  fun _ h _ e _ =>
    match ev_type e with
    | HSM_EVT_TIMEOUT =>
        PCancelTimer (Some h) (ev_seq e) (fun b => PStore 200 (if b then 1 else 0) (PReturn true))
    | _ => PReturn true
    end.

(** ** Vocabulary of the further properties *)

(** A computation leaves the timers alone: the attached sources and the
    timer table of every machine are after it what they were before. *)
Definition keeps_timers {A} (c : M A) : Prop :=
  forall w a w' t,
    c w = Some (a, w', t) ->
    sources w' = sources w /\
    forall h m, hsms w !! h = Some m ->
                exists m', hsms w' !! h = Some m' /\ timers m' = timers m.

(** A store is well formed when every entry of a timer table names an
    attached source of the machine's context whose callback data are this
    machine and this id, and when the machines and sources it holds were
    allocated before its allocation marks. *)
Definition store_wf (w : World) : Prop :=
  (forall h m id s,
     hsms w !! h = Some m -> timers m !! id = Some s ->
     exists ms, sources w !! s = Some (mkSource (context m) ms (mkTimerCtx h id))) /\
  (forall s, is_Some (sources w !! s) -> (s < next_src w)%positive) /\
  (forall h, is_Some (hsms w !! h) -> (h < next_hsm w)%positive).

(** What a store keeps as it evolves: its machines, each with its name,
    its context and the state names registered so far; its allocation
    marks only move forward, and a source allocated before is unchanged or
    gone. *)
Definition evolves (w w' : World) : Prop :=
  (forall h m,
     hsms w !! h = Some m ->
     exists m', hsms w' !! h = Some m' /\ name m' = name m /\ context m' = context m /\
                dom (states m) ⊆ dom (states m')) /\
  (next_src w <= next_src w')%positive /\
  (next_hsm w <= next_hsm w')%positive /\
  (forall s, (s < next_src w)%positive ->
             sources w' !! s = sources w !! s \/ sources w' !! s = None).

(** A computation is sound when the store it leaves has evolved from the
    store it started in, and is well formed if that one was. *)
Definition sound {A} (c : M A) : Prop :=
  forall w a w' t,
    c w = Some (a, w', t) -> evolves w w' /\ (store_wf w -> store_wf w').

(** An environment is sound when its handlers are, and what its
    [g_main_context_invoke] runs. *)
Definition env_sound (E : Env) : Prop :=
  (forall fn h s ev ud, sound (call_handler E fn h s ev ud)) /\
  (forall c cb, sound (g_main_context_invoke E c cb)).

(** What a lifetime keeps of the machines: each is still there, with its
    name, its context and at least the state names it had. *)
Definition machines_kept (w w' : World) : Prop :=
  forall h m,
    hsms w !! h = Some m ->
    exists m', hsms w' !! h = Some m' /\ name m' = name m /\ context m' = context m /\
               dom (states m) ⊆ dom (states m').

(** The environment [E] with GLib's loop for [g_main_loop_run]: a loop
    of at most [n] iterations that dispatches the callbacks of hsm.c. *)
Definition with_glib_loop (E : Env) (n : nat) : Env :=
  mkEnv (call_handler E) (g_main_context_invoke E)
        (glib_main_loop_run (run_callback E) (g_timeout_dispatch E) n)
        (g_thread_join E).

(** Handlers that do nothing and report the event as not handled. *)
Definition refusing_code : Code := fun _ _ _ _ _ => PReturn false.

(** [family_world] after "root" (machine 2, on the global default
    context) has scheduled a timer of 500 ms: the timer has id 2 and its
    source is source 1. *)
Definition root_timer_world : World :=
  (outcome (hsm_schedule_timer (Some 2%positive) 500 family_world)).1.

(** [family_world] with the child in state "Z", whose handler is NULL. *)
Definition idle_child_hsm : Hsm :=
  with_current_state (Some "Z"%string) (with_parent (Some 2%positive) dev_hsm).

Definition idle_family_world : World := store_hsm 1%positive idle_child_hsm family_world.

(** [timer_world] after the machine has scheduled a second timer, of
    50 ms: the timer has id 3 and its source is source 2. *)
Definition two_timer_hsm : Hsm :=
  with_timers (<[3 := 2%positive]> (<[2 := 1%positive]> ∅)) (with_next_timer_id 3 dev_hsm).

Definition two_timer_world : World :=
  (outcome (hsm_schedule_timer (Some 1%positive) 50 timer_world)).1.

(** [family_world]'s "root" after it has scheduled the timer of
    [root_timer_world]. *)
Definition root_timer_hsm : Hsm :=
  with_timers (<[2 := 1%positive]> ∅) (with_next_timer_id 2 root_hsm).

(** The basic life cycle up to the call of [hsm_run], and the store it
    leaves: the request for state "A" and the STEP event are queued on the
    machine's context. *)
Definition lifecycle_setup : M HsmPtr :=
  let E := runtime lifecycle_code 4 in
  h <- hsm_new (Some "m"%string) true ;;
  _ <- hsm_register_state (Some h) (Some "A"%string) (Some 1%positive) NULL ;;
  _ <- hsm_register_state (Some h) (Some "B"%string) (Some 1%positive) NULL ;;
  _ <- hsm_change_state E (Some h) (Some "A"%string) ;;
  ev <- hsm_event_new HSM_EVT_STEP (Some "go"%string) NULL None 0 ;;
  _ <- hsm_post_event E (Some h) (Some ev) ;;
  ret h.

Definition ready_world : World := (outcome (lifecycle_setup empty_world)).1.

(** A handler that stops the loop of its machine when a timer of the
    machine expires. *)
Definition stop_on_timeout_code : Code :=
  fun _ h _ e _ =>
    match ev_type e with
    | HSM_EVT_TIMEOUT => PStop (Some h) (PReturn true)
    | _ => PReturn true
    end.

(** [timer_world] at a time when the interval of its timer elapses at the
    first iteration of the next loop. *)
Definition ticking_world : World := set_due (fun _ => [Some 1%positive]) timer_world.

(** The store after [hsm_new ("main", FALSE)] in the empty store, as the
    main thread has it before it runs any loop: the machine is on the
    global default context, and the thread has no default context of its
    own and owns none. *)
Definition main_hsm : Hsm :=
  mkHsm (Some "main"%string) None g_main_context_default false None false None ∅ ∅ 1.

Definition main_world : World :=
  (outcome (hsm_new (Some "main"%string) false empty_world)).1.

(** * Properties *)

(** ** Running a computation *)

Lemma bind_run {A B} (c : M A) (k : A -> M B) w a w1 t1 :
  c w = Some (a, w1, t1) ->
  bind c k w = match k a w1 with
               | Some (b, w2, t2) => Some (b, w2, t1 ++ t2)
               | None => None
               end.
Proof. intros H. unfold bind. now rewrite H. Qed.

Lemma bind_Some {A B} (c : M A) (k : A -> M B) w b w2 t :
  bind c k w = Some (b, w2, t) <->
  exists a w1 t1 t2, c w = Some (a, w1, t1) /\ k a w1 = Some (b, w2, t2) /\ t = t1 ++ t2.
Proof.
  unfold bind. split.
  - destruct (c w) as [[[a w1] t1]|]; [|discriminate].
    destruct (k a w1) as [[[b' w2'] t2]|] eqn:Hk; [|discriminate].
    intros [= <- <- <-]. now exists a, w1, t1, t2.
  - intros (a & w1 & t1 & t2 & -> & -> & ->). reflexivity.
Qed.

Lemma load_hsm_run h w m : hsms w !! h = Some m -> load_hsm h w = Some (m, w, []).
Proof. intros H. unfold load_hsm. now rewrite H. Qed.

Lemma update_hsm_run h f w m :
  hsms w !! h = Some m -> update_hsm h f w = Some (tt, store_hsm h (f m) w, []).
Proof. intros H. unfold update_hsm. now rewrite H. Qed.

Lemma load_event_run ev w e : events w !! ev = Some e -> load_event ev w = Some (e, w, []).
Proof. intros H. unfold load_event. now rewrite H. Qed.

Lemma hsm_event_free_run ev w :
  is_Some (events w !! ev) -> hsm_event_free (Some ev) w = Some (tt, free_event ev w, []).
Proof. intros [e H]. simpl. now rewrite H. Qed.

Lemma hsm_event_free_Some ev w r :
  hsm_event_free (Some ev) w = Some r ->
  is_Some (events w !! ev) /\ r = (tt, free_event ev w, []).
Proof.
  simpl. destruct (events w !! ev) as [e|] eqn:He; [|discriminate].
  intros [= <-]. split; [now exists e | reflexivity].
Qed.

Lemma hsms_store_hsm h m w : hsms (store_hsm h m w) !! h = Some m.
Proof. simpl. apply lookup_insert_eq. Qed.

Lemma hsms_store_hsm_ne h h' m w : h ≠ h' -> hsms (store_hsm h m w) !! h' = hsms w !! h'.
Proof. intros Hne. simpl. now apply lookup_insert_ne. Qed.

(** ** String comparison *)

Lemma string_compare_refl (s : string) : String.compare s s = Eq.
Proof.
  pose proof (String.compare_antisym s s) as H.
  destruct (String.compare s s); simpl in H; congruence.
Qed.

Lemma g_strcmp0_eq (a b : option string) : g_strcmp0 a b = 0 <-> a = b.
Proof.
  destruct a as [x|], b as [y|]; simpl; try (split; [lia | congruence]); [|tauto].
  destruct (String.compare x y) eqn:Hc.
  - apply String.compare_eq_iff in Hc. subst. tauto.
  - split; [lia|]. intros [= ->]. rewrite string_compare_refl in Hc. discriminate.
  - split; [lia|]. intros [= ->]. rewrite string_compare_refl in Hc. discriminate.
Qed.

Lemma g_strcmp0_eqb_true (a b : option string) : a = b -> (g_strcmp0 a b =? 0) = true.
Proof. intros H. apply Z.eqb_eq. now apply g_strcmp0_eq. Qed.

Lemma g_strcmp0_eqb_false (a b : option string) : a ≠ b -> (g_strcmp0 a b =? 0) = false.
Proof. intros H. apply Z.eqb_neq. now rewrite g_strcmp0_eq. Qed.

(** ** Event accessors on NULL *)

(** C9. Every event accessor is total on a NULL event and returns a fixed
    sentinel without touching the store: [hsm_event_get_type] returns the
    enumerator of value 0, which is [HSM_EVT_START]; [hsm_event_get_name],
    [hsm_event_get_source] and [hsm_event_get_data] return NULL;
    [hsm_event_get_seq] returns 0; [hsm_event_free] does nothing. *)
Theorem event_accessors_on_null (w : World) :
  hsm_event_get_type None w = Some (Some HSM_EVT_START, w, []) /\
  HsmEventType_to_Z HSM_EVT_START = 0 /\
  hsm_event_get_name None w = Some (None, w, []) /\
  hsm_event_get_source None w = Some (None, w, []) /\
  hsm_event_get_data None w = Some (NULL, w, []) /\
  hsm_event_get_seq None w = Some (0, w, []) /\
  hsm_event_free None w = Some (tt, w, []).
Proof. repeat split. Qed.

(** ** NULL arguments *)

(** C8. Every public operation called with a NULL machine, and
    [hsm_register_state] and [hsm_change_state] called with a NULL state
    name, return at once: the store is unchanged, nothing observable
    happens, and the result is the sentinel: -1 for [hsm_schedule_timer],
    FALSE for [hsm_cancel_timer], the empty string for
    [hsm_get_state_copy], NULL for [hsm_get_parent] and [hsm_get_name];
    [hsm_destroy] of NULL does nothing either. *)
Theorem null_arguments_are_noops (E : Env) (w : World) :
  (forall ms, hsm_schedule_timer None ms w = Some (-1, w, [])) /\
  (forall id, hsm_cancel_timer None id w = Some (false, w, [])) /\
  hsm_get_state_copy None w = Some (""%string, w, []) /\
  (forall s fn ud, hsm_register_state None s fn ud w = Some (tt, w, [])) /\
  (forall h fn ud, hsm_register_state h None fn ud w = Some (tt, w, [])) /\
  (forall s, hsm_change_state E None s w = Some (tt, w, [])) /\
  (forall h, hsm_change_state E h None w = Some (tt, w, [])) /\
  (forall s, hsm_post_change_state E None s w = Some (tt, w, [])) /\
  (forall ev, hsm_post_event E None ev w = Some (tt, w, [])) /\
  (forall b, hsm_start None b w = Some (tt, w, [])) /\
  hsm_run E None w = Some (tt, w, []) /\
  hsm_stop None w = Some (tt, w, []) /\
  (forall p, hsm_set_parent None p w = Some (tt, w, [])) /\
  hsm_get_parent None w = Some (None, w, []) /\
  hsm_get_name None w = Some (None, w, []) /\
  hsm_destroy E None w = Some (tt, w, []).
Proof.
  repeat split; try reflexivity.
  - intros [h|] fn ud; reflexivity.
  - intros [h|]; reflexivity.
Qed.

(** ** Transitions *)

(** C7. A change of state whose target is string-equal to the current
    state does nothing: executed on the machine's context (directly, or as
    the callback of a posted request) it synthesizes no event, calls no
    handler and leaves the store, hence [current_state], as it is.
    Requested from elsewhere, it is only handed to
    [g_main_context_invoke]. *)
Theorem change_state_to_current_is_noop (E : Env) (w : World) (h : HsmPtr) (m : Hsm)
    (T : string) :
  hsms w !! h = Some m ->
  current_state m = Some T ->
  hsm_change_state_internal E h T w = Some (tt, w, []) /\
  hsm_change_state_invoke_cb E (mkChangeReq h T) w = Some (G_SOURCE_REMOVE, w, []) /\
  (g_main_context_get_thread_default w = Some (context m) ->
   hsm_change_state E (Some h) (Some T) w = Some (tt, w, []) /\
   hsm_post_change_state E (Some h) (Some T) w = Some (tt, w, [])) /\
  (g_main_context_get_thread_default w ≠ Some (context m) ->
   hsm_change_state E (Some h) (Some T) w
   = invoke E (context m) (CbChangeState (mkChangeReq h T)) w).
Proof.
  intros Hm Hcur.
  assert (Hint : hsm_change_state_internal E h T w = Some (tt, w, [])).
  { unfold hsm_change_state_internal.
    rewrite (bind_run _ _ _ _ _ _ (load_hsm_run _ _ _ Hm)).
    rewrite g_strcmp0_eqb_true by exact Hcur. reflexivity. }
  split; [exact Hint|]. split; [|split].
  - unfold hsm_change_state_invoke_cb. simpl.
    rewrite (bind_run _ _ _ _ _ _ Hint). reflexivity.
  - intros Htd.
    assert (Hcs : hsm_change_state E (Some h) (Some T) w = Some (tt, w, [])).
    { unfold hsm_change_state.
      rewrite (bind_run _ _ _ _ _ _ (load_hsm_run _ _ _ Hm)).
      unfold get_world. cbn [bind].
      rewrite decide_True by exact Htd. rewrite Hint. reflexivity. }
    split; [exact Hcs | exact Hcs].
  - intros Htd. unfold hsm_change_state.
    rewrite (bind_run _ _ _ _ _ _ (load_hsm_run _ _ _ Hm)).
    unfold get_world. cbn [bind].
    rewrite decide_False by exact Htd.
    destruct (invoke E (context m) (CbChangeState (mkChangeReq h T)) w) as [[[[] w1] t1]|];
      reflexivity.
Qed.

Lemma invoke_handler_run (E : Env) fn h s ev ud w e :
  events w !! ev = Some e ->
  invoke_handler E fn h s ev ud w =
  match call_handler E fn h s ev ud w with
  | Some (b, w1, t) => Some (b, w1, ODispatch h s fn e ud :: t)
  | None => None
  end.
Proof.
  intros He. unfold invoke_handler.
  rewrite (bind_run _ _ _ _ _ _ (load_event_run _ _ _ He)).
  unfold bind, emit. destruct (call_handler E fn h s ev ud w) as [[[b w1] t]|]; reflexivity.
Qed.

Lemma invoke_handler_Some (E : Env) fn h s ev ud w r :
  invoke_handler E fn h s ev ud w = Some r ->
  exists e b w1 t,
    events w !! ev = Some e /\ call_handler E fn h s ev ud w = Some (b, w1, t) /\
    r = (b, w1, ODispatch h s fn e ud :: t).
Proof.
  intros H. destruct (events w !! ev) as [e|] eqn:He.
  - rewrite (invoke_handler_run _ _ _ _ _ _ _ _ He) in H.
    destruct (call_handler E fn h s ev ud w) as [[[b w1] t]|]; [|discriminate].
    injection H as <-. now exists e, b, w1, t.
  - unfold invoke_handler, bind, load_event in H. rewrite He in H. discriminate.
Qed.

Lemma synth_code_iff (E : Env) (k : HsmEventType) (h : HsmPtr) (s : string) (m : Hsm)
    (w w' : World) (t : Trace) :
  match states m !! s with
  | Some st =>
      match st_handler st with
      | Some fn =>
          ev <- hsm_event_new k None NULL (name m) 0 ;;
          _ <- invoke_handler E fn h s ev (st_user_data st) ;;
          hsm_event_free (Some ev)
      | None => ret tt
      end
  | None => ret tt
  end w = Some (tt, w', t) <->
  synth_step E k h s m w w' t.
Proof.
  split.
  - intros H. destruct (states m !! s) as [st|] eqn:Hst.
    + destruct (st_handler st) as [fn|] eqn:Hfn.
      * apply bind_Some in H as (ev & w1 & t1 & t2 & Hnew & H & ->).
        unfold hsm_event_new in Hnew. injection Hnew as <- <- <-.
        apply bind_Some in H as (b & w2 & t3 & t4 & Hcall & Hfree & ->).
        apply invoke_handler_Some in Hcall as (e & b' & w3 & t5 & He & Hcall & [= -> -> ->]).
        cbn [events bump_ev set_events] in He.
        rewrite lookup_insert_eq in He. injection He as <-.
        apply hsm_event_free_Some in Hfree as [Hlive [= -> ->]].
        cbn [app]. rewrite app_nil_r.
        eapply synth_call; [|exact Hcall|exact Hlive].
        unfold resolve. now rewrite Hst, Hfn.
      * injection H as <- <-. apply synth_skip. unfold resolve. now rewrite Hst, Hfn.
    + injection H as <- <-. apply synth_skip. unfold resolve. now rewrite Hst.
  - intros H. destruct H as [w0 Hres | w0 fn ud b w2 th Hres Hcall Hlive].
    + unfold resolve in Hres. destruct (states m !! s) as [st|]; [|reflexivity].
      destruct (st_handler st); [discriminate | reflexivity].
    + unfold resolve in Hres. destruct (states m !! s) as [st|]; [|discriminate].
      destruct (st_handler st) as [fn'|]; [|discriminate]. injection Hres as -> <-.
      assert (Hnew : hsm_event_new k None NULL (name m) 0 w0
                     = Some (next_ev w0, alloc_event (synth k m) w0, [])) by reflexivity.
      rewrite (bind_run _ _ _ _ _ _ Hnew).
      assert (Hinv : invoke_handler E fn h s (next_ev w0) (st_user_data st)
                       (alloc_event (synth k m) w0)
                     = Some (b, w2, ODispatch h s fn (synth k m) (st_user_data st) :: th)).
      { erewrite invoke_handler_run; [now rewrite Hcall|].
        cbn [events alloc_event bump_ev set_events]. apply lookup_insert_eq. }
      rewrite (bind_run _ _ _ _ _ _ Hinv).
      rewrite (hsm_event_free_run _ _ Hlive). cbn [app]. now rewrite app_nil_r.
Qed.

Lemma transition_iff (E : Env) (w : World) (h : HsmPtr) (m : Hsm) (T : string)
    (w' : World) (tr : Trace) :
  hsms w !! h = Some m ->
  current_state m ≠ Some T ->
  hsm_change_state_internal E h T w = Some (tt, w', tr) <-> transition E h T w w' tr.
Proof.
  intros Hm Hne. unfold hsm_change_state_internal.
  rewrite (bind_run _ _ _ _ _ _ (load_hsm_run _ _ _ Hm)).
  rewrite g_strcmp0_eqb_false by exact Hne.
  split.
  - intros H.
    destruct (bind _ _ w) as [[[[] w0] t0]|] eqn:Hb; [|discriminate].
    injection H as <- <-. cbn [app].
    apply bind_Some in Hb as ([] & w1 & tx & t2 & Hexit & Hb & ->).
    apply bind_Some in Hb as ([] & w2 & t3 & t4 & Hupd & Hb & ->).
    unfold update_hsm in Hupd. destruct (hsms w1 !! h) as [m1|] eqn:Hm1; [|discriminate].
    injection Hupd as <- <-.
    apply bind_Some in Hb as ([] & w3 & t5 & t6 & Hemit & Hb & ->).
    injection Hemit as <- <-.
    apply bind_Some in Hb as (m2 & w4 & t7 & t8 & Hload & Hentry & ->).
    unfold load_hsm in Hload. cbn [hsms set_hsms] in Hload.
    rewrite lookup_insert_eq in Hload. injection Hload as <- <- <-.
    cbn [app].
    eapply transition_steps; [exact Hm| |exact Hm1|].
    + unfold exit_step. destruct (current_state m) as [cs|].
      * now apply synth_code_iff.
      * injection Hexit as <- <-. now split.
    + now apply synth_code_iff.
  - intros H. destruct H as [w0 m0 w1 tx m1 w3 te Hm0 Hexit Hm1 Hentry].
    rewrite Hm in Hm0. injection Hm0 as <-.
    assert (Hx : match current_state m with
                 | Some cs =>
                     match states m !! cs with
                     | Some old =>
                         match st_handler old with
                         | Some fn =>
                             ev <- hsm_event_new HSM_EVT_EXIT None NULL (name m) 0 ;;
                             _ <- invoke_handler E fn h cs ev (st_user_data old) ;;
                             hsm_event_free (Some ev)
                         | None => ret tt
                         end
                     | None => ret tt
                     end
                 | None => ret tt
                 end w0 = Some (tt, w1, tx)).
    { unfold exit_step in Hexit. destruct (current_state m) as [cs|].
      - now apply synth_code_iff.
      - destruct Hexit as [-> ->]. reflexivity. }
    rewrite (bind_run _ _ _ _ _ _ Hx).
    rewrite (bind_run _ _ _ _ _ _ (update_hsm_run _ _ _ _ Hm1)).
    unfold emit at 1. unfold bind at 1.
    rewrite (bind_run _ _ _ _ _ _ (load_hsm_run _ _ _ (hsms_store_hsm _ _ _))).
    apply synth_code_iff in Hentry. cbn [states name with_current_state] in Hentry |- *.
    rewrite Hentry. reflexivity.
Qed.

(** ** Dispatch and bubbling *)

Lemma load_hsm_Some h w m w' t :
  load_hsm h w = Some (m, w', t) -> hsms w !! h = Some m /\ w' = w /\ t = [].
Proof.
  unfold load_hsm. destruct (hsms w !! h); [|discriminate].
  intros [= -> <- <-]. auto.
Qed.

Lemma load_event_Some ev w e w' t :
  load_event ev w = Some (e, w', t) -> events w !! ev = Some e /\ w' = w /\ t = [].
Proof.
  unfold load_event. destruct (events w !! ev); [|discriminate].
  intros [= -> <- <-]. auto.
Qed.

Lemma update_hsm_Some h f w x w' t :
  update_hsm h f w = Some (x, w', t) ->
  exists m, hsms w !! h = Some m /\ w' = store_hsm h (f m) w /\ t = [].
Proof.
  unfold update_hsm. destruct (hsms w !! h) as [m|]; [|discriminate].
  intros [= <- <-]. now exists m.
Qed.

Lemma handler_code_iff (E : Env) (h : HsmPtr) (ev : EvPtr) (m : Hsm) (w : World)
    (b : bool) (w1 : World) (t : Trace) :
  match current_state m with
  | Some cs =>
      match states m !! cs with
      | Some st =>
          match st_handler st with
          | Some fn => invoke_handler E fn h cs ev (st_user_data st)
          | None => ret false
          end
      | None => ret false
      end
  | None => ret false
  end w = Some (b, w1, t) <->
  handler_step E h ev m w b w1 t.
Proof.
  split.
  - intros H. destruct (current_state m) as [cs|] eqn:Hcs.
    + destruct (states m !! cs) as [st|] eqn:Hst.
      * destruct (st_handler st) as [fn|] eqn:Hfn.
        -- apply invoke_handler_Some in H as (e & b' & w2 & t2 & He & Hcall & [= -> -> ->]).
           eapply handler_called; [exact Hcs| |exact He|exact Hcall].
           unfold resolve. now rewrite Hst, Hfn.
        -- injection H as <- <- <-. apply handler_none.
           rewrite Hcs. unfold resolve. now rewrite Hst, Hfn.
      * injection H as <- <- <-. apply handler_none.
        rewrite Hcs. unfold resolve. now rewrite Hst.
    + injection H as <- <- <-. apply handler_none. now rewrite Hcs.
  - intros H. destruct H as [w0 Hres | w0 s fn ud e b w1 th Hcs Hres He Hcall].
    + destruct (current_state m) as [cs|]; [|reflexivity].
      unfold resolve in Hres. destruct (states m !! cs) as [st|]; [|reflexivity].
      destruct (st_handler st); [discriminate | reflexivity].
    + rewrite Hcs. unfold resolve in Hres.
      destruct (states m !! s) as [st|]; [|discriminate].
      destruct (st_handler st) as [fn'|]; [|discriminate]. injection Hres as -> <-.
      rewrite (invoke_handler_run _ _ _ _ _ _ _ _ He). now rewrite Hcall.
Qed.

Lemma event_eta (e : HsmEvent) :
  mkEvent (ev_type e) (ev_name e) (ev_source e) (ev_seq e) (ev_data e) = e.
Proof. now destruct e. Qed.

Lemma invoke_run (E : Env) c cb w :
  invoke E c cb w =
  match g_main_context_invoke E c cb w with
  | Some (x, w1, t) => Some (x, w1, OInvoke c cb :: t)
  | None => None
  end.
Proof.
  unfold invoke, bind, emit.
  destruct (g_main_context_invoke E c cb w) as [[[x w1] t]|]; reflexivity.
Qed.

Lemma delivery_iff (E : Env) (h : HsmPtr) (ev : EvPtr) (w : World) (b : bool)
    (w' : World) (tr : Trace) :
  hsm_process_post E (mkPost h ev) w = Some (b, w', tr) <->
  b = G_SOURCE_REMOVE /\ delivery E h ev w w' tr.
Proof.
  unfold hsm_process_post. cbn [p_h p_ev]. split.
  - intros H.
    apply bind_Some in H as (m & w0 & t0 & t1 & Hload & H & ->).
    apply load_hsm_Some in Hload as (Hm & -> & ->).
    apply bind_Some in H as (handled & w1 & th & t2 & Hh & H & ->).
    apply handler_code_iff in Hh.
    apply bind_Some in H as (m1 & w2 & t3 & t4 & Hload & H & ->).
    apply load_hsm_Some in Hload as (Hm1 & -> & ->).
    apply bind_Some in H as ([] & w3 & t5 & t6 & Hend & Hret & ->).
    injection Hret as <- <- <-. split; [reflexivity|].
    cbn [app]. rewrite app_nil_r.
    destruct handled.
    + apply hsm_event_free_Some in Hend as [Hlive [= -> ->]]. rewrite app_nil_r.
      eapply delivery_end; eauto.
    + destruct (parent m1) as [par|] eqn:Hpar.
      * apply bind_Some in Hend as (e1 & w4 & t7 & t8 & Hload & Hend & ->).
        apply load_event_Some in Hload as (He1 & -> & ->).
        apply bind_Some in Hend as (cp & w5 & t9 & t10 & Hnew & Hend & ->).
        unfold hsm_event_new in Hnew. rewrite event_eta in Hnew.
        injection Hnew as <- <- <-.
        apply bind_Some in Hend as (pm & w6 & t11 & t12 & Hload & Hend & ->).
        apply load_hsm_Some in Hload as (Hpm & -> & ->).
        cbn [hsms bump_ev set_events] in Hpm.
        apply bind_Some in Hend as ([] & w7 & t13 & t14 & Hinv & Hfree & ->).
        rewrite invoke_run in Hinv.
        destruct (g_main_context_invoke E _ _ _) as [[[[] w8] ti]|] eqn:Hg; [|discriminate].
        injection Hinv as <- <-.
        apply hsm_event_free_Some in Hfree as [Hlive [= -> ->]].
        cbn [app]. rewrite app_nil_r.
        eapply delivery_bubble; eauto.
      * apply hsm_event_free_Some in Hend as [Hlive [= -> ->]]. rewrite app_nil_r.
        eapply delivery_end; eauto.
  - intros [-> H].
    destruct H as [w0 m w1 th m1 par pm e1 w2 ti Hm Hh Hm1 Hpar He1 Hpm Hg Hlive
                  | w0 m handled w1 th m1 Hm Hh Hm1 Hcase Hlive].
    + rewrite (bind_run _ _ _ _ _ _ (load_hsm_run _ _ _ Hm)).
      apply handler_code_iff in Hh. rewrite (bind_run _ _ _ _ _ _ Hh).
      rewrite (bind_run _ _ _ _ _ _ (load_hsm_run _ _ _ Hm1)).
      rewrite Hpar. cbv beta iota.
      assert (Hend : (e <- load_event ev ;;
                      copy <- hsm_event_new (ev_type e) (ev_name e) (ev_data e)
                                (ev_source e) (ev_seq e) ;;
                      pm0 <- load_hsm par ;;
                      _ <- invoke E (context pm0) (CbProcessPost (mkPost par copy)) ;;
                      hsm_event_free (Some ev)) w1
                     = Some (tt, free_event ev w2,
                             OInvoke (context pm)
                               (CbProcessPost (mkPost par (next_ev w1))) :: ti)).
      { rewrite (bind_run _ _ _ _ _ _ (load_event_run _ _ _ He1)).
        assert (Hnew : hsm_event_new (ev_type e1) (ev_name e1) (ev_data e1) (ev_source e1)
                         (ev_seq e1) w1 = Some (next_ev w1, alloc_event e1 w1, [])).
        { unfold hsm_event_new, alloc_event. now rewrite event_eta. }
        rewrite (bind_run _ _ _ _ _ _ Hnew).
        assert (Hpm' : hsms (alloc_event e1 w1) !! par = Some pm) by exact Hpm.
        rewrite (bind_run _ _ _ _ _ _ (load_hsm_run _ _ _ Hpm')).
        assert (Hinv : invoke E (context pm) (CbProcessPost (mkPost par (next_ev w1)))
                         (alloc_event e1 w1)
                       = Some (tt, w2, OInvoke (context pm)
                                         (CbProcessPost (mkPost par (next_ev w1))) :: ti)).
        { rewrite invoke_run. now rewrite Hg. }
        rewrite (bind_run _ _ _ _ _ _ Hinv).
        rewrite (hsm_event_free_run _ _ Hlive). cbn [app].
        now rewrite !app_nil_r. }
      rewrite (bind_run _ _ _ _ _ _ Hend). cbn [app ret].
      now rewrite !app_nil_r.
    + rewrite (bind_run _ _ _ _ _ _ (load_hsm_run _ _ _ Hm)).
      apply handler_code_iff in Hh. rewrite (bind_run _ _ _ _ _ _ Hh).
      rewrite (bind_run _ _ _ _ _ _ (load_hsm_run _ _ _ Hm1)).
      assert (Hend : match handled, parent m1 with
                     | false, Some par =>
                         e <- load_event ev ;;
                         copy <- hsm_event_new (ev_type e) (ev_name e) (ev_data e)
                                   (ev_source e) (ev_seq e) ;;
                         pm <- load_hsm par ;;
                         _ <- invoke E (context pm) (CbProcessPost (mkPost par copy)) ;;
                         hsm_event_free (Some ev)
                     | _, _ => hsm_event_free (Some ev)
                     end w1 = Some (tt, free_event ev w1, [])).
      { destruct Hcase as [-> | ->].
        - now apply hsm_event_free_run.
        - destruct handled; now apply hsm_event_free_run. }
      rewrite (bind_run _ _ _ _ _ _ Hend). cbn [app ret].
      now rewrite !app_nil_r.
Qed.

(** ** Timers *)

Lemma gint_wrap_small (z : Z) : is_gint z -> gint_wrap z = z.
Proof.
  unfold is_gint, G_MININT, G_MAXINT, gint_wrap. intros H.
  rewrite Z.mod_small; lia.
Qed.

Lemma gint_wrap_range (z : Z) : is_gint (gint_wrap z).
Proof.
  unfold is_gint, G_MININT, G_MAXINT, gint_wrap.
  pose proof (Z.mod_pos_bound (z + 2 ^ 31) (2 ^ 32)). lia.
Qed.

Lemma gint_wrap_max : gint_wrap (G_MAXINT + 1) = G_MININT.
Proof. reflexivity. Qed.

Lemma hsm_schedule_timer_run (w : World) (h : HsmPtr) (m : Hsm) (ms : Z) :
  hsms w !! h = Some m ->
  hsm_schedule_timer (Some h) ms w =
  Some (gint_wrap (next_timer_id m + 1),
        store_hsm h (with_timers (<[gint_wrap (next_timer_id m + 1) := next_src w]> (timers m))
                       (with_next_timer_id (gint_wrap (next_timer_id m + 1)) m))
          (bump_src
             (set_sources
                (insert (next_src w)
                   (mkSource (context m) ms (mkTimerCtx h (gint_wrap (next_timer_id m + 1)))))
                (store_hsm h (with_next_timer_id (gint_wrap (next_timer_id m + 1)) m) w))),
        [OTimer h (gint_wrap (next_timer_id m + 1))]).
Proof.
  intros Hm. unfold hsm_schedule_timer.
  rewrite (bind_run _ _ _ _ _ _ (load_hsm_run _ _ _ Hm)).
  rewrite (bind_run _ _ _ _ _ _ (update_hsm_run _ _ _ _ Hm)).
  unfold g_timeout_source_attach at 1. unfold bind at 1.
  unfold update_hsm at 1. unfold bind at 1.
  cbn [hsms bump_src set_sources store_hsm set_hsms].
  rewrite lookup_insert_eq. reflexivity.
Qed.

Lemma hsm_cancel_timer_run (w : World) (h : HsmPtr) (m : Hsm) (id : Z) :
  hsms w !! h = Some m ->
  hsm_cancel_timer (Some h) id w =
  match timers m !! id with
  | Some s => Some (true,
                    store_hsm h (with_timers (delete id (timers m)) m) (set_sources (delete s) w),
                    [])
  | None => Some (false, w, [])
  end.
Proof.
  intros Hm. unfold hsm_cancel_timer.
  rewrite (bind_run _ _ _ _ _ _ (load_hsm_run _ _ _ Hm)).
  destruct (timers m !! id) as [s|]; [|reflexivity].
  unfold g_source_destroy, modify. unfold bind at 1.
  unfold update_hsm at 1. unfold bind at 1.
  cbn [hsms set_sources]. rewrite Hm. reflexivity.
Qed.

(** C4. [hsm_cancel_timer (h, id)] returns TRUE exactly when [id] is a key
    of the machine's timer table at the time of the call.  Then it has
    destroyed the timeout source recorded for [id], which is attached to no
    context any more and so cannot be dispatched, and has removed the entry
    of [id].  When [id] is absent it returns FALSE and the store is
    unchanged. *)
Theorem cancel_timer_iff_present (E : Env) (w : World) (h : HsmPtr) (m : Hsm) (id : Z) :
  hsms w !! h = Some m ->
  exists b w',
    hsm_cancel_timer (Some h) id w = Some (b, w', []) /\
    (b = true <-> is_Some (timers m !! id)) /\
    (forall s, timers m !! id = Some s ->
       sources w' !! s = None /\
       g_timeout_dispatch E s w' = None /\
       hsms w' !! h = Some (with_timers (delete id (timers m)) m) /\
       (forall m', hsms w' !! h = Some m' -> timers m' !! id = None)) /\
    (timers m !! id = None -> w' = w).
Proof.
  intros Hm. rewrite (hsm_cancel_timer_run _ _ _ _ Hm).
  destruct (timers m !! id) as [s|] eqn:Hs.
  - eexists _, _. split; [reflexivity|]. split; [|split].
    + split; [now exists s | reflexivity].
    + intros s' [= <-].
      assert (Hsrc : sources (store_hsm h (with_timers (delete id (timers m)) m)
                                (set_sources (delete s) w)) !! s = None).
      { cbn [sources store_hsm set_hsms set_sources]. apply lookup_delete_eq. }
      split; [exact Hsrc|]. split; [|split].
      * unfold g_timeout_dispatch, bind, get_world. now rewrite Hsrc.
      * apply hsms_store_hsm.
      * intros m'. rewrite hsms_store_hsm. intros [= <-].
        cbn [timers with_timers]. apply lookup_delete_eq.
    + discriminate.
  - exists false, w. split; [reflexivity|]. split; [|split].
    + split; [discriminate | intros [? ?]; discriminate].
    + discriminate.
    + reflexivity.
Qed.

Lemma timer_source_cb_iff (E : Env) (t : TimerCtx) (w : World) (b : bool) (w' : World)
    (tr : Trace) :
  hsm_timer_source_cb E t w = Some (b, w', tr) <->
  b = G_SOURCE_REMOVE /\ timer_fires E t w w' tr.
Proof.
  unfold hsm_timer_source_cb. split.
  - intros H.
    apply bind_Some in H as (m & w0 & t0 & t1 & Hload & H & ->).
    apply load_hsm_Some in Hload as (Hm & -> & ->).
    apply bind_Some in H as (ev & w1 & t2 & t3 & Hnew & H & ->).
    unfold hsm_event_new in Hnew. injection Hnew as <- <- <-.
    apply bind_Some in H as ([] & w2 & t4 & t5 & Hpost & H & ->).
    unfold hsm_post_event in Hpost.
    apply bind_Some in Hpost as (m' & w3 & t6 & t7 & Hload & Hpost & ->).
    apply load_hsm_Some in Hload as (Hm' & -> & ->).
    cbn [hsms bump_ev set_events] in Hm'. rewrite Hm in Hm'. injection Hm' as <-.
    rewrite invoke_run in Hpost.
    destruct (g_main_context_invoke E _ _ _) as [[[[] w4] ti]|] eqn:Hg; [|discriminate].
    injection Hpost as <- <-.
    apply bind_Some in H as ([] & w5 & t8 & t9 & Hupd & Hret & ->).
    apply update_hsm_Some in Hupd as (m2 & Hm2 & -> & ->).
    injection Hret as <- <- <-. split; [reflexivity|].
    cbn [app]. rewrite !app_nil_r.
    eapply timer_fires_post; eauto.
  - intros [-> H]. destruct H as [w0 m w2 ti m2 Hm Hg Hm2].
    rewrite (bind_run _ _ _ _ _ _ (load_hsm_run _ _ _ Hm)).
    assert (Hnew : hsm_event_new HSM_EVT_TIMEOUT (Some "TIMER_EXPIRED"%string) NULL (name m)
                     (t_timer_id t) w0
                   = Some (next_ev w0, alloc_event (timeout_event m (t_timer_id t)) w0, []))
      by reflexivity.
    rewrite (bind_run _ _ _ _ _ _ Hnew).
    assert (Hpost : hsm_post_event E (Some (t_h t)) (Some (next_ev w0))
                      (alloc_event (timeout_event m (t_timer_id t)) w0)
                    = Some (tt, w2, OInvoke (context m)
                                      (CbProcessPost (mkPost (t_h t) (next_ev w0))) :: ti)).
    { unfold hsm_post_event.
      assert (Hm' : hsms (alloc_event (timeout_event m (t_timer_id t)) w0) !! t_h t = Some m)
        by exact Hm.
      rewrite (bind_run _ _ _ _ _ _ (load_hsm_run _ _ _ Hm')).
      rewrite invoke_run. now rewrite Hg. }
    rewrite (bind_run _ _ _ _ _ _ Hpost).
    rewrite (bind_run _ _ _ _ _ _ (update_hsm_run _ _ _ _ Hm2)).
    cbn [app ret]. now rewrite !app_nil_r.
Qed.

Lemma timeout_dispatch_iff (E : Env) (s : SrcPtr) (src : GSource) (w w' : World) (tr : Trace) :
  sources w !! s = Some src ->
  g_timeout_dispatch E s w = Some (tt, w', tr) <->
  exists w1, timer_fires E (src_data src) w w1 tr /\ w' = set_sources (delete s) w1.
Proof.
  intros Hs. unfold g_timeout_dispatch, get_world. unfold bind at 1. rewrite Hs.
  cbn [app]. split.
  - intros H.
    destruct (bind _ _ w) as [[[[] w0] t0]|] eqn:Hb; [|discriminate].
    injection H as <- <-.
    apply bind_Some in Hb as (again & w1 & t1 & t2 & Hcb & Hb & ->).
    apply timer_source_cb_iff in Hcb as [-> Hfire].
    unfold G_SOURCE_REMOVE in Hb. injection Hb as <- <-.
    rewrite app_nil_r. now exists w1.
  - intros (w1 & Hfire & ->).
    assert (Hcb : hsm_timer_source_cb E (src_data src) w = Some (G_SOURCE_REMOVE, w1, tr))
      by now apply timer_source_cb_iff.
    rewrite (bind_run _ _ _ _ _ _ Hcb). cbn. now rewrite app_nil_r.
Qed.

(** ** The timer counter over a lifetime *)

Lemma timer_ids_app (h : HsmPtr) (t1 t2 : Trace) :
  timer_ids h (t1 ++ t2) = timer_ids h t1 ++ timer_ids h t2.
Proof. unfold timer_ids. apply omap_app. Qed.

Lemma counted_from_app (c c1 c2 : Z) (l1 l2 : list Z) :
  counted_from c l1 c1 -> counted_from c1 l2 c2 -> counted_from c (l1 ++ l2) c2.
Proof.
  revert c. induction l1 as [|x l1 IH]; intros c H1 H2; simpl in *.
  - now subst.
  - destruct H1 as [-> H1]. split; [reflexivity|]. now apply IH.
Qed.

Section Counting.

Variable h : HsmPtr.

Lemma counts_ret {A} (a : A) : counts h (ret a).
Proof. intros w m a' w' t Hm [= <- <- <-]. exists m; split; [exact Hm | exact eq_refl]. Qed.

Lemma counts_undefined {A} : counts h (@undefined A).
Proof. intros w m a' w' t Hm H. discriminate. Qed.

Lemma counts_bind {A B} (c : M A) (k : A -> M B) :
  counts h c -> (forall a, counts h (k a)) -> counts h (bind c k).
Proof.
  intros Hc Hk w m b w' t Hm H.
  apply bind_Some in H as (a & w1 & t1 & t2 & H1 & H2 & ->).
  destruct (Hc _ _ _ _ _ Hm H1) as (m1 & Hm1 & Hc1).
  destruct (Hk a _ _ _ _ _ Hm1 H2) as (m2 & Hm2 & Hc2).
  exists m2. split; [exact Hm2|]. rewrite timer_ids_app.
  eapply counted_from_app; eauto.
Qed.

Lemma counts_get_world : counts h get_world.
Proof. intros w m a w' t Hm [= <- <- <-]. exists m; split; [exact Hm | exact eq_refl]. Qed.

Lemma counts_modify (f : World -> World) :
  (forall w, hsms (f w) = hsms w) -> counts h (modify f).
Proof.
  intros Hf w m a w' t Hm [= <- <- <-]. exists m. rewrite Hf. split; [exact Hm | exact eq_refl].
Qed.

Lemma counts_emit (o : Obs) : timer_ids h [o] = [] -> counts h (emit o).
Proof. intros Ho w m a w' t Hm [= <- <- <-]. exists m. rewrite Ho. split; [exact Hm | exact eq_refl]. Qed.

Lemma counts_load_hsm (h' : HsmPtr) : counts h (load_hsm h').
Proof.
  intros w m a w' t Hm H. apply load_hsm_Some in H as (_ & -> & ->). exists m; split; [exact Hm | exact eq_refl].
Qed.

Lemma counts_load_event (ev : EvPtr) : counts h (load_event ev).
Proof.
  intros w m a w' t Hm H. apply load_event_Some in H as (_ & -> & ->). exists m; split; [exact Hm | exact eq_refl].
Qed.

Lemma counts_update_hsm (h' : HsmPtr) (f : Hsm -> Hsm) :
  (forall x, next_timer_id (f x) = next_timer_id x) -> counts h (update_hsm h' f).
Proof.
  intros Hf w m a w' t Hm H. apply update_hsm_Some in H as (m0 & Hm0 & -> & ->).
  destruct (decide (h' = h)) as [->|Hne].
  - rewrite Hm in Hm0. injection Hm0 as <-. exists (f m).
    rewrite hsms_store_hsm. split; [reflexivity|]. simpl. apply Hf.
  - exists m. rewrite hsms_store_hsm_ne by exact Hne. now split.
Qed.

Lemma counts_hsm_event_new ty nm data source seq :
  counts h (hsm_event_new ty nm data source seq).
Proof. intros w m a w' t Hm [= <- <- <-]. exists m; split; [exact Hm | exact eq_refl]. Qed.

Lemma counts_hsm_event_free (ev : option EvPtr) : counts h (hsm_event_free ev).
Proof.
  destruct ev as [e|]; [|apply counts_ret].
  intros w m a w' t Hm H. apply hsm_event_free_Some in H as [_ [= -> -> ->]]. exists m; split; [exact Hm | exact eq_refl].
Qed.

Lemma counts_hsm_schedule_timer (h' : option HsmPtr) (ms : Z) :
  counts h (hsm_schedule_timer h' ms).
Proof.
  destruct h' as [h'|]; [|apply counts_ret].
  intros w m a w' t Hm H.
  destruct (hsms w !! h') as [m0|] eqn:Hm0.
  - rewrite (hsm_schedule_timer_run _ _ _ _ Hm0) in H. injection H as <- <- <-.
    destruct (decide (h' = h)) as [->|Hne].
    + rewrite Hm in Hm0. injection Hm0 as <-.
      eexists. split; [apply hsms_store_hsm|].
      unfold timer_ids. cbn [omap list_omap]. rewrite decide_True by reflexivity.
      cbn [next_timer_id with_timers with_next_timer_id]. now split.
    + exists m. split.
      * rewrite hsms_store_hsm_ne by exact Hne.
        cbn [hsms bump_src set_sources]. now rewrite hsms_store_hsm_ne.
      * unfold timer_ids. cbn [omap list_omap]. now rewrite decide_False.
  - unfold hsm_schedule_timer, bind, load_hsm in H. rewrite Hm0 in H. discriminate.
Qed.

Lemma counts_hsm_cancel_timer (h' : option HsmPtr) (id : Z) :
  counts h (hsm_cancel_timer h' id).
Proof.
  destruct h' as [h'|]; [|apply counts_ret].
  unfold hsm_cancel_timer. apply counts_bind; [apply counts_load_hsm|]. intros m.
  destruct (timers m !! id); [|apply counts_ret].
  apply counts_bind; [now apply counts_modify|]. intros _.
  apply counts_bind; [now apply counts_update_hsm|]. intros _. apply counts_ret.
Qed.

Lemma counts_hsm_get_state_copy (h' : option HsmPtr) : counts h (hsm_get_state_copy h').
Proof.
  destruct h' as [h'|]; [|apply counts_ret].
  unfold hsm_get_state_copy.
  apply counts_bind; [now apply counts_emit|]. intros _.
  apply counts_bind; [apply counts_load_hsm|]. intros m.
  apply counts_bind; [now apply counts_emit|]. intros _.
  apply counts_bind; [now apply counts_emit|]. intros _. apply counts_ret.
Qed.

Lemma counts_hsm_get_parent (h' : option HsmPtr) : counts h (hsm_get_parent h').
Proof.
  destruct h' as [h'|]; [|apply counts_ret].
  apply counts_bind; [apply counts_load_hsm|]. intros m. apply counts_ret.
Qed.

Lemma counts_hsm_register_state h' s fn ud : counts h (hsm_register_state h' s fn ud).
Proof.
  destruct h' as [h'|], s as [s|]; try apply counts_ret. now apply counts_update_hsm.
Qed.

Lemma counts_hsm_set_parent h' p : counts h (hsm_set_parent h' p).
Proof. destruct h' as [h'|]; [now apply counts_update_hsm | apply counts_ret]. Qed.

Lemma counts_hsm_stop h' : counts h (hsm_stop h').
Proof.
  destruct h' as [h'|]; [|apply counts_ret].
  apply counts_bind; [apply counts_load_hsm|]. intros m.
  destruct (loop_running m); [now apply counts_update_hsm | apply counts_ret].
Qed.

Variable E : Env.
Hypothesis HE : env_counts h E.

Lemma counts_invoke_handler fn h' s ev ud : counts h (invoke_handler E fn h' s ev ud).
Proof.
  unfold invoke_handler.
  apply counts_bind; [apply counts_load_event|]. intros e.
  apply counts_bind; [now apply counts_emit|]. intros _. apply HE.
Qed.

Lemma counts_invoke c cb : counts h (invoke E c cb).
Proof.
  unfold invoke. apply counts_bind; [now apply counts_emit|]. intros _. apply HE.
Qed.

Lemma counts_hsm_change_state_internal h' T : counts h (hsm_change_state_internal E h' T).
Proof.
  unfold hsm_change_state_internal.
  apply counts_bind; [apply counts_load_hsm|]. intros m.
  destruct (g_strcmp0 _ _ =? 0); [apply counts_ret|].
  apply counts_bind.
  { destruct (current_state m) as [cs|]; [|apply counts_ret].
    destruct (states m !! cs) as [old|]; [|apply counts_ret].
    destruct (st_handler old) as [fn|]; [|apply counts_ret].
    apply counts_bind; [apply counts_hsm_event_new|]. intros ev.
    apply counts_bind; [apply counts_invoke_handler|]. intros _.
    apply counts_hsm_event_free. }
  intros _.
  apply counts_bind; [now apply counts_update_hsm|]. intros _.
  apply counts_bind; [now apply counts_emit|]. intros _.
  apply counts_bind; [apply counts_load_hsm|]. intros m1.
  destruct (states m1 !! T) as [newst|]; [|apply counts_ret].
  destruct (st_handler newst) as [fn|]; [|apply counts_ret].
  apply counts_bind; [apply counts_hsm_event_new|]. intros ev.
  apply counts_bind; [apply counts_invoke_handler|]. intros _.
  apply counts_hsm_event_free.
Qed.

Lemma counts_hsm_change_state h' ns : counts h (hsm_change_state E h' ns).
Proof.
  destruct h' as [h'|], ns as [ns|]; try apply counts_ret.
  unfold hsm_change_state.
  apply counts_bind; [apply counts_load_hsm|]. intros m.
  apply counts_bind; [apply counts_get_world|]. intros w.
  destruct (decide _); [apply counts_hsm_change_state_internal | apply counts_invoke].
Qed.

Lemma counts_hsm_post_event h' ev : counts h (hsm_post_event E h' ev).
Proof.
  destruct h' as [h'|], ev as [ev|]; try apply counts_ret.
  unfold hsm_post_event.
  apply counts_bind; [apply counts_load_hsm|]. intros m. apply counts_invoke.
Qed.

Lemma counts_hsm_process_post p : counts h (hsm_process_post E p).
Proof.
  unfold hsm_process_post.
  apply counts_bind; [apply counts_load_hsm|]. intros m.
  apply counts_bind.
  { destruct (current_state m) as [cs|]; [|apply counts_ret].
    destruct (states m !! cs) as [st|]; [|apply counts_ret].
    destruct (st_handler st) as [fn|]; [|apply counts_ret].
    apply counts_invoke_handler. }
  intros handled.
  apply counts_bind; [apply counts_load_hsm|]. intros m1.
  apply counts_bind; [|intros _; apply counts_ret].
  destruct handled; [apply counts_hsm_event_free|].
  destruct (parent m1) as [par|]; [|apply counts_hsm_event_free].
  apply counts_bind; [apply counts_load_event|]. intros e.
  apply counts_bind; [apply counts_hsm_event_new|]. intros cp.
  apply counts_bind; [apply counts_load_hsm|]. intros pm.
  apply counts_bind; [apply counts_invoke|]. intros _.
  apply counts_hsm_event_free.
Qed.

Lemma counts_run_callback cb : counts h (run_callback E cb).
Proof.
  destruct cb as [p|r]; [apply counts_hsm_process_post|].
  unfold run_callback, hsm_change_state_invoke_cb.
  apply counts_bind; [apply counts_hsm_change_state_internal|]. intros _. apply counts_ret.
Qed.

Lemma counts_hsm_timer_source_cb t : counts h (hsm_timer_source_cb E t).
Proof.
  unfold hsm_timer_source_cb.
  apply counts_bind; [apply counts_load_hsm|]. intros m.
  apply counts_bind; [apply counts_hsm_event_new|]. intros ev.
  apply counts_bind; [apply counts_hsm_post_event|]. intros _.
  apply counts_bind; [now apply counts_update_hsm|]. intros _. apply counts_ret.
Qed.

Lemma counts_g_timeout_dispatch s : counts h (g_timeout_dispatch E s).
Proof.
  unfold g_timeout_dispatch.
  apply counts_bind; [apply counts_get_world|]. intros w.
  destruct (sources w !! s) as [src|]; [|apply counts_undefined].
  apply counts_bind; [apply counts_hsm_timer_source_cb|]. intros again.
  destruct again; [apply counts_ret | now apply counts_modify].
Qed.

Lemma counts_run_prog (p : Prog) : counts h (run_prog E p).
Proof.
  induction p as [b|h' ns k IH|h' ty nm data source seq k IH|h' ms k IH|h' id k IH|h' k IH
                  |h' k IH|h' s fn ud k IH|h' p' k IH|h' k IH|a k IH|a v k IH];
    cbn [run_prog].
  - apply counts_ret.
  - apply counts_bind; [apply counts_hsm_change_state | intros _; exact IH].
  - apply counts_bind; [apply counts_hsm_event_new|]. intros ev.
    apply counts_bind; [apply counts_hsm_post_event | intros _; exact IH].
  - apply counts_bind; [apply counts_hsm_schedule_timer | intros id; apply IH].
  - apply counts_bind; [apply counts_hsm_cancel_timer | intros b; apply IH].
  - apply counts_bind; [apply counts_hsm_get_state_copy | intros s; apply IH].
  - apply counts_bind; [apply counts_hsm_get_parent | intros p; apply IH].
  - apply counts_bind; [apply counts_hsm_register_state | intros _; exact IH].
  - apply counts_bind; [apply counts_hsm_set_parent | intros _; exact IH].
  - apply counts_bind; [apply counts_hsm_stop | intros _; exact IH].
  - apply counts_bind; [apply counts_get_world | intros w; apply IH].
  - apply counts_bind; [now apply counts_modify | intros _; exact IH].
Qed.

Lemma counts_run_activity (a : Activity) : counts h (run_activity E a).
Proof.
  destruct a as [p|s|c]; cbn [run_activity].
  - apply counts_bind; [apply counts_run_prog | intros _; apply counts_ret].
  - apply counts_g_timeout_dispatch.
  - apply counts_bind; [apply counts_get_world|]. intros w.
    destruct (take_pending c (pending w)) as [[cb rest]|]; [|apply counts_undefined].
    apply counts_bind; [now apply counts_modify|]. intros _.
    apply counts_bind; [apply counts_run_callback | intros _; apply counts_ret].
Qed.

Lemma counts_run_activities (l : list Activity) : counts h (run_activities E l).
Proof.
  induction l as [|a l IH]; cbn [run_activities]; [apply counts_ret|].
  apply counts_bind; [apply counts_run_activity | intros _; exact IH].
Qed.

End Counting.

Lemma counts_glib_main_context_invoke (h : HsmPtr) (direct : Callback -> M bool) c cb :
  (forall cb', counts h (direct cb')) -> counts h (glib_main_context_invoke direct c cb).
Proof.
  intros Hd. unfold glib_main_context_invoke.
  apply counts_bind; [apply counts_get_world|]. intros w.
  destruct (bool_decide _).
  - apply counts_bind; [apply Hd | intros _; apply counts_ret].
  - destruct (_ && _).
    + apply counts_bind; [now apply counts_modify|]. intros _.
      apply counts_bind; [apply Hd | intros _; now apply counts_modify].
    + now apply counts_modify.
Qed.

Lemma counts_glib_dispatch_idle (h : HsmPtr) (direct : Callback -> M bool) c :
  (forall cb', counts h (direct cb')) -> counts h (glib_dispatch_idle direct c).
Proof.
  intros Hd. unfold glib_dispatch_idle.
  apply counts_bind; [apply counts_get_world|]. intros w.
  destruct (take_pending _ _) as [[cb rest]|]; [|apply counts_ret].
  apply counts_bind; [now apply counts_modify|]. intros _.
  apply counts_bind; [apply Hd | intros _; apply counts_ret].
Qed.

Lemma counts_glib_loop_iterate (h : HsmPtr) (direct : Callback -> M bool)
    (fire : SrcPtr -> M unit) n h' :
  (forall cb', counts h (direct cb')) -> (forall s, counts h (fire s)) ->
  counts h (glib_loop_iterate direct fire n h').
Proof.
  intros Hd Hf. induction n as [|n IH]; cbn [glib_loop_iterate]; [apply counts_undefined|].
  apply counts_bind; [apply counts_load_hsm|]. intros m.
  destruct (loop_running m); [|apply counts_ret].
  apply counts_bind; [apply counts_get_world|]. intros w.
  destruct (due w) as [|[s|] later].
  - apply counts_bind; [now apply counts_glib_dispatch_idle | intros _; exact IH].
  - apply counts_bind; [now apply counts_modify|]. intros _.
    apply counts_bind; [|intros _; exact IH].
    destruct (sources w !! s) as [src|]; [|apply counts_ret].
    destruct (decide _); [apply Hf | apply counts_ret].
  - apply counts_bind; [now apply counts_modify|]. intros _.
    apply counts_bind; [now apply counts_glib_dispatch_idle | intros _; exact IH].
Qed.

Lemma counts_glib_main_loop_run (h : HsmPtr) (direct : Callback -> M bool)
    (fire : SrcPtr -> M unit) n h' :
  (forall cb', counts h (direct cb')) -> (forall s, counts h (fire s)) ->
  counts h (glib_main_loop_run direct fire n h').
Proof.
  intros Hd Hf. unfold glib_main_loop_run.
  apply counts_bind; [apply counts_load_hsm|]. intros m.
  apply counts_bind; [now apply counts_modify|]. intros _.
  apply counts_bind; [now apply counts_update_hsm|]. intros _.
  apply counts_bind; [|intros _; now apply counts_modify].
  now apply counts_glib_loop_iterate.
Qed.

Lemma counts_hsm_run (h : HsmPtr) (E : Env) (h' : option HsmPtr) :
  (forall h0, counts h (g_main_loop_run E h0)) -> counts h (hsm_run E h').
Proof.
  intros Hl. destruct h' as [h'|]; [|apply counts_ret]. cbn [hsm_run].
  apply counts_bind; [apply counts_load_hsm|intros m].
  apply counts_bind.
  { intros w m0 a w' t Hm0 H.
    unfold g_main_context_push_thread_default, g_main_context_acquire in H.
    destruct (bool_decide _); injection H as <- <- <-;
      (exists m0; split; [exact Hm0 | exact eq_refl]). }
  intros _. apply counts_bind; [now apply counts_update_hsm|intros _].
  apply counts_bind; [apply Hl|intros _].
  apply counts_bind; [now apply counts_update_hsm|intros _].
  apply counts_bind; [apply counts_load_hsm|intros m1].
  unfold g_main_context_pop_thread_default.
  apply counts_bind; [apply counts_get_world|intros w].
  destruct (tds w) as [|top rest]; [apply counts_ret|].
  destruct (decide _); [|apply counts_ret].
  apply counts_bind; [|intros _]; now apply counts_modify.
Qed.

Lemma runtime_counts (h : HsmPtr) (code : Code) (fuel : nat) :
  env_counts h (runtime code fuel).
Proof.
  induction fuel as [|n IH]; cbn [runtime].
  - split; cbn [call_handler g_main_context_invoke].
    + intros; apply counts_undefined.
    + intros. apply counts_glib_main_context_invoke. intros; apply counts_undefined.
  - split; cbn [call_handler g_main_context_invoke].
    + intros fn h' s ev ud.
      apply counts_bind; [apply counts_load_event|]. intros e. now apply counts_run_prog.
    + intros c cb. apply counts_glib_main_context_invoke. intros cb'.
      now apply counts_run_callback.
Qed.

Lemma counted_from_split (c c' : Z) (l1 l2 : list Z) :
  counted_from c (l1 ++ l2) c' ->
  exists c1, counted_from c l1 c1 /\ counted_from c1 l2 c'.
Proof.
  revert c. induction l1 as [|x l1 IH]; intros c H; simpl in *.
  - now exists c.
  - destruct H as [-> H]. destruct (IH _ H) as (c1 & H1 & H2). now exists c1.
Qed.

Lemma counted_from_nowrap (c c' : Z) (l : list Z) :
  counted_from c l c' ->
  G_MININT <= c ->
  c + Z.of_nat (length l) <= G_MAXINT ->
  c' = c + Z.of_nat (length l) /\
  StronglySorted Z.lt l /\
  Forall (fun id => c < id <= c + Z.of_nat (length l)) l.
Proof.
  revert c. induction l as [|x l IH]; intros c H Hlo Hhi.
  - simpl in *. subst. split; [lia|]. split; constructor.
  - cbn [counted_from] in H. destruct H as [Hx H].
    cbn [length] in Hhi |- *.
    rewrite gint_wrap_small in Hx by (unfold is_gint; lia). subst x.
    destruct (IH _ H) as (Hc' & Hs & Hf); [lia | lia |].
    split; [lia|]. split.
    + constructor; [exact Hs|]. eapply Forall_impl; [exact Hf|]. cbn beta. lia.
    + constructor; [lia|]. eapply Forall_impl; [exact Hf|]. cbn beta. lia.
Qed.

Lemma StronglySorted_lt_NoDup (l : list Z) : StronglySorted Z.lt l -> NoDup l.
Proof.
  induction 1 as [|x l Hs IH Hf]; constructor; [|exact IH].
  intros Hin. rewrite Forall_forall in Hf. specialize (Hf _ Hin). lia.
Qed.

Lemma schedule_many_counts (h : HsmPtr) (ms : Z) (n : nat) (w : World) (m : Hsm) :
  hsms w !! h = Some m ->
  exists ids w' t m',
    schedule_many h ms n w = Some (ids, w', t) /\
    hsms w' !! h = Some m' /\
    length ids = n /\
    counted_from (next_timer_id m) ids (next_timer_id m').
Proof.
  revert w m. induction n as [|n IH]; intros w m Hm.
  - exists [], w, [], m. repeat split; auto.
  - cbn [schedule_many].
    pose proof (hsm_schedule_timer_run _ _ _ ms Hm) as Hrun.
    rewrite (bind_run _ _ _ _ _ _ Hrun).
    edestruct IH as (ids & w' & t & m' & Hmany & Hm' & Hlen & Hc);
      [apply hsms_store_hsm|].
    rewrite (bind_run _ _ _ _ _ _ Hmany). cbn [ret].
    eexists _, _, _, m'. split; [reflexivity|]. split; [exact Hm'|].
    split; [cbn [length]; now rewrite Hlen|].
    cbn [counted_from]. split; [reflexivity|]. exact Hc.
Qed.

(** ** The claims about transitions and dispatch *)

(** C1 (as amended). A transition of machine [h] to a state [T] that is
    not string-equal to its current state, executed on the machine's
    context, proceeds in three steps.  (1) If the machine has a current
    state and it resolves to a handler, an EXIT event (no name, no data,
    source the machine's name, sequence number 0) is allocated, the handler
    is called with it, its result is dropped and the event is released.
    (2) [current_state] becomes [T]: in the store [wc] this step leaves,
    the machine's [current_state] reads [T], and so does a snapshot taken
    then, while the rest of the machine and the other machines are as step
    1 left them.  (3) If [T] resolves to a handler in the registry as it
    is then, an ENTRY event of the same shape is allocated, the handler is
    called in [wc] with it, its result is dropped and the event is
    released; otherwise step 3 is skipped and the transition ends in [wc].
    The observable steps are, in this order: the EXIT invocation followed by
    the steps [th] of the EXIT handler's own call, the write of
    [current_state], the ENTRY invocation followed by the steps of the ENTRY
    handler's own call.  The transition itself dispatches nothing between
    EXIT and ENTRY: once the EXIT handler has returned, the write of
    [current_state] is the only step before the ENTRY invocation.  A
    transition the EXIT handler requests with [hsm_change_state] on the
    machine's own context is the synchronous one, carried out inside the
    handler's call. *)
Theorem transition_protocol (E : Env) (w : World) (h : HsmPtr) (m : Hsm) (T : string)
    (w' : World) (tr : Trace) :
  hsms w !! h = Some m ->
  current_state m ≠ Some T ->
  (hsm_change_state_internal E h T w = Some (tt, w', tr) <->
   exists w1 tx m1 wc te,
     match current_state m with
     | Some cs =>
         match resolve m cs with
         | Some (fn, ud) =>
             exists b w2 th,
               call_handler E fn h cs (next_ev w) ud (alloc_event (synth HSM_EVT_EXIT m) w)
               = Some (b, w2, th) /\
               is_Some (events w2 !! next_ev w) /\
               w1 = free_event (next_ev w) w2 /\
               tx = ODispatch h cs fn (synth HSM_EVT_EXIT m) ud :: th
         | None => w1 = w /\ tx = []
         end
     | None => w1 = w /\ tx = []
     end /\
     hsms w1 !! h = Some m1 /\
     wc = store_hsm h (with_current_state (Some T) m1) w1 /\
     (exists mc,
        hsms wc !! h = Some mc /\ current_state mc = Some T /\
        with_current_state (current_state m1) mc = m1) /\
     (forall h', h' ≠ h -> hsms wc !! h' = hsms w1 !! h') /\
     hsm_get_state_copy (Some h) wc = Some (T, wc, [OLock h; OReadState h; OUnlock h]) /\
     match resolve m1 T with
     | Some (fn, ud) =>
         exists b w2 th,
           call_handler E fn h T (next_ev w1) ud (alloc_event (synth HSM_EVT_ENTRY m1) wc)
           = Some (b, w2, th) /\
           is_Some (events w2 !! next_ev w1) /\
           w' = free_event (next_ev w1) w2 /\
           te = ODispatch h T fn (synth HSM_EVT_ENTRY m1) ud :: th
     | None => w' = wc /\ te = []
     end /\
     tr = tx ++ OCommit h T :: te) /\
  (forall w0 m0 U,
     hsms w0 !! h = Some m0 ->
     g_main_context_get_thread_default w0 = Some (context m0) ->
     hsm_change_state E (Some h) (Some U) w0 = hsm_change_state_internal E h U w0).
Proof.
  intros Hm Hne. split.
  - rewrite (transition_iff _ _ _ _ _ _ _ Hm Hne). split.
    + intros H. destruct H as [w0 m0 w1 tx m1 w3 te Hm0 Hexit Hm1 Hentry].
      rewrite Hm in Hm0. injection Hm0 as <-.
      exists w1, tx, m1, (store_hsm h (with_current_state (Some T) m1) w1), te.
      split; [|split; [exact Hm1|split; [reflexivity|split; [|split; [|split; [|split]]]]]].
      * unfold exit_step in Hexit. destruct (current_state m) as [cs|]; [|exact Hexit].
        destruct Hexit as [w0 Hres | w0 fn ud b w2 th Hres Hcall Hlive]; rewrite Hres.
        -- now split.
        -- now exists b, w2, th.
      * exists (with_current_state (Some T) m1). split; [apply hsms_store_hsm|].
        split; [reflexivity | now destruct m1].
      * intros h' Hh'. apply hsms_store_hsm_ne. congruence.
      * cbn [hsm_get_state_copy]. unfold emit at 1. unfold bind at 1.
        rewrite (bind_run _ _ _ _ _ _ (load_hsm_run _ _ _ (hsms_store_hsm _ _ _))).
        reflexivity.
      * change (resolve m1 T) with (resolve (with_current_state (Some T) m1) T).
        inversion Hentry as [w4 Hres | w4 fn ud b w2 th Hres Hcall Hlive]; subst; rewrite Hres.
        -- now split.
        -- exists b, w2, th. split; [exact Hcall|]. split; [exact Hlive|]. split; reflexivity.
      * reflexivity.
    + intros (w1 & tx & m1 & wc & te & Hexit & Hm1 & -> & _ & _ & _ & Hentry & ->).
      eapply transition_steps; [exact Hm| |exact Hm1|].
      * unfold exit_step. destruct (current_state m) as [cs|]; [|exact Hexit].
        destruct (resolve m cs) as [[fn ud]|] eqn:Hres.
        -- destruct Hexit as (b & w2 & th & Hcall & Hlive & -> & ->).
           eapply synth_call; [exact Hres | exact Hcall | exact Hlive].
        -- destruct Hexit as [-> ->]. now apply synth_skip.
      * destruct (resolve m1 T) as [[fn ud]|] eqn:Hres.
        -- destruct Hentry as (b & w2 & th & Hcall & Hlive & -> & ->).
           exact (synth_call E HSM_EVT_ENTRY h T (with_current_state (Some T) m1)
                    (store_hsm h (with_current_state (Some T) m1) w1) fn ud b w2 th
                    Hres Hcall Hlive).
        -- destruct Hentry as [-> ->]. apply synth_skip. exact Hres.
  - intros w0 m0 U Hm0 Htd. cbn [hsm_change_state].
    rewrite (bind_run _ _ _ _ _ _ (load_hsm_run _ _ _ Hm0)).
    unfold get_world at 1. unfold bind at 1. rewrite decide_True by exact Htd.
    destruct (hsm_change_state_internal E h U w0) as [[[x w2] t]|]; reflexivity.
Qed.

(** C2. A dispatch of event [ev] to machine [h] returns (with
    [G_SOURCE_REMOVE], never with an error) exactly in the following way.
    If the current state resolves to a handler, the handler is called and
    its boolean result is [handled]; otherwise [handled] is false.  If
    [handled] is false and the machine has a parent, one new event with the
    kind, name, source, sequence number and data handle of [ev] is
    allocated, posted once to the context of the parent, and [ev] is
    released.  Otherwise [ev] is released. *)
Theorem dispatch_and_bubble (E : Env) (h : HsmPtr) (ev : EvPtr) (w : World) (b : bool)
    (w' : World) (tr : Trace) :
  hsm_process_post E (mkPost h ev) w = Some (b, w', tr) <->
  b = G_SOURCE_REMOVE /\
  exists m handled w1 th m1,
    hsms w !! h = Some m /\
    handler_step E h ev m w handled w1 th /\
    hsms w1 !! h = Some m1 /\
    match handled, parent m1 with
    | false, Some par =>
        exists e1 pm w2 ti,
          events w1 !! ev = Some e1 /\
          hsms w1 !! par = Some pm /\
          events (alloc_event e1 w1) !! next_ev w1
          = Some (mkEvent (ev_type e1) (ev_name e1) (ev_source e1) (ev_seq e1) (ev_data e1)) /\
          g_main_context_invoke E (context pm) (CbProcessPost (mkPost par (next_ev w1)))
            (alloc_event e1 w1) = Some (tt, w2, ti) /\
          is_Some (events w2 !! ev) /\
          w' = free_event ev w2 /\
          tr = th ++ OInvoke (context pm) (CbProcessPost (mkPost par (next_ev w1))) :: ti
    | _, _ => is_Some (events w1 !! ev) /\ w' = free_event ev w1 /\ tr = th
    end.
Proof.
  rewrite delivery_iff. split.
  - intros [-> H]. split; [reflexivity|].
    destruct H as [w0 m w1 th m1 par pm e1 w2 ti Hm Hh Hm1 Hpar He1 Hpm Hg Hlive
                  | w0 m handled w1 th m1 Hm Hh Hm1 Hcase Hlive].
    + exists m, false, w1, th, m1. rewrite Hpar. repeat (split; [assumption|]).
      exists e1, pm, w2, ti. repeat (split; [assumption|]).
      split; [|auto].
      cbn [events alloc_event bump_ev set_events]. rewrite lookup_insert_eq.
      now rewrite event_eta.
    + exists m, handled, w1, th, m1. repeat (split; [assumption|]).
      destruct Hcase as [-> | ->]; [auto|]. destruct handled; auto.
  - intros (-> & m & handled & w1 & th & m1 & Hm & Hh & Hm1 & Hend). split; [reflexivity|].
    destruct handled.
    + destruct Hend as (Hlive & -> & ->). eapply delivery_end; eauto.
    + destruct (parent m1) as [par|] eqn:Hpar.
      * destruct Hend as (e1 & pm & w2 & ti & He1 & Hpm & _ & Hg & Hlive & -> & ->).
        eapply delivery_bubble; eauto.
      * destruct Hend as (Hlive & -> & ->). eapply delivery_end; eauto.
Qed.

Lemma hsm_get_state_copy_run (w : World) (h : HsmPtr) (m : Hsm) :
  hsms w !! h = Some m ->
  hsm_get_state_copy (Some h) w
  = Some (match current_state m with Some s => s | None => ""%string end, w,
          [OLock h; OReadState h; OUnlock h]).
Proof.
  intros Hm. cbn [hsm_get_state_copy]. unfold emit at 1. unfold bind at 1.
  rewrite (bind_run _ _ _ _ _ _ (load_hsm_run _ _ _ Hm)). reflexivity.
Qed.

(** C10. A state registered with a NULL handler is accepted into the
    registry: the machine read back after the call has an entry of that
    name, with a NULL handler and the user data given, and is otherwise
    unchanged.  Like a name that is not registered, it does not resolve to
    a handler.  While a state that does not resolve is current, an event
    dispatched to the machine calls no handler and counts as not handled:
    it is copied and posted to the parent if the machine has one and is
    released in both cases.  A transition out of such a state calls no EXIT
    handler, and a transition into a state that does not resolve once the
    EXIT step is done calls no ENTRY handler; both still write
    [current_state], and a snapshot taken in the store the write leaves
    reads the new state. *)
Theorem null_handler_state_is_inert (E : Env) (w : World) (h : HsmPtr) (m : Hsm)
    (s0 : string) (ud : gpointer) :
  hsms w !! h = Some m ->
  (exists w1 m1,
     hsm_register_state (Some h) (Some s0) None ud w = Some (tt, w1, []) /\
     hsms w1 !! h = Some m1 /\
     states m1 !! s0 = Some (mkState None ud) /\
     resolve m1 s0 = None /\
     with_states (states m) m1 = m /\
     (forall s', s' ≠ s0 -> states m1 !! s' = states m !! s') /\
     (forall h', h' ≠ h -> hsms w1 !! h' = hsms w !! h')) /\
  (states m !! s0 = None -> resolve m s0 = None) /\
  (resolve m s0 = None ->
   (current_state m = Some s0 ->
    forall ev b w' tr,
      hsm_process_post E (mkPost h ev) w = Some (b, w', tr) <->
      b = G_SOURCE_REMOVE /\
      match parent m with
      | Some par =>
          exists e pm w2 ti,
            events w !! ev = Some e /\
            hsms w !! par = Some pm /\
            g_main_context_invoke E (context pm) (CbProcessPost (mkPost par (next_ev w)))
              (alloc_event e w) = Some (tt, w2, ti) /\
            is_Some (events w2 !! ev) /\
            w' = free_event ev w2 /\
            tr = OInvoke (context pm) (CbProcessPost (mkPost par (next_ev w))) :: ti
      | None => is_Some (events w !! ev) /\ w' = free_event ev w /\ tr = []
      end) /\
   (current_state m = Some s0 ->
    forall T w' tr,
      T ≠ s0 ->
      hsm_change_state_internal E h T w = Some (tt, w', tr) <->
      exists wc te,
        wc = store_hsm h (with_current_state (Some T) m) w /\
        hsm_get_state_copy (Some h) wc = Some (T, wc, [OLock h; OReadState h; OUnlock h]) /\
        synth_step E HSM_EVT_ENTRY h T (with_current_state (Some T) m) wc w' te /\
        tr = OCommit h T :: te) /\
   (current_state m ≠ Some s0 ->
    forall w1 tx m1,
      exit_step E h m w w1 tx ->
      hsms w1 !! h = Some m1 ->
      resolve m1 s0 = None ->
      exists w',
        hsm_change_state_internal E h s0 w = Some (tt, w', tx ++ [OCommit h s0]) /\
        w' = store_hsm h (with_current_state (Some s0) m1) w1 /\
        (exists m', hsms w' !! h = Some m' /\ current_state m' = Some s0 /\
                    resolve m' s0 = None) /\
        hsm_get_state_copy (Some h) w' = Some (s0, w', [OLock h; OReadState h; OUnlock h])) /\
   (current_state m = None ->
    exists w',
      hsm_change_state_internal E h s0 w = Some (tt, w', [OCommit h s0]) /\
      w' = store_hsm h (with_current_state (Some s0) m) w /\
      (exists m', hsms w' !! h = Some m' /\ current_state m' = Some s0 /\
                  resolve m' s0 = None) /\
      hsm_get_state_copy (Some h) w' = Some (s0, w', [OLock h; OReadState h; OUnlock h]))).
Proof.
  intros Hm. split; [|split].
  - exists (store_hsm h (with_states (<[s0 := mkState None ud]> (states m)) m) w),
           (with_states (<[s0 := mkState None ud]> (states m)) m).
    split; [cbn [hsm_register_state]; now rewrite (update_hsm_run _ _ _ _ Hm)|].
    split; [apply hsms_store_hsm|].
    assert (Hs : states (with_states (<[s0 := mkState None ud]> (states m)) m) !! s0
                 = Some (mkState None ud)).
    { cbn [states with_states]. apply lookup_insert_eq. }
    split; [exact Hs|]. split; [unfold resolve; now rewrite Hs|].
    split; [now destruct m|]. split.
    + intros s' Hne. cbn [states with_states]. apply lookup_insert_ne. congruence.
    + intros h' Hne. apply hsms_store_hsm_ne. congruence.
  - intros Hnone. unfold resolve. now rewrite Hnone.
  - intros Hres. split; [|split; [|split]].
    + intros Hcur ev b w' tr. rewrite delivery_iff. unfold G_SOURCE_REMOVE. split.
      * intros [-> H]. split; [reflexivity|].
        destruct H as [w0 m0 w1 th m1 par pm e1 w2 ti Hm0 Hh Hm1 Hpar He1 Hpm Hg Hlive
                      | w0 m0 handled w1 th m1 Hm0 Hh Hm1 Hcase Hlive];
          rewrite Hm in Hm0; injection Hm0 as <-;
          (destruct Hh as [w0 Hnone | w0 s fn ud' e b' w1 th Hcs Hres' He Hcall];
           [| rewrite Hcur in Hcs; injection Hcs as <-; congruence]);
          rewrite Hm in Hm1; injection Hm1 as <-.
        -- rewrite Hpar. now exists e1, pm, w2, ti.
        -- destruct Hcase as [? | ->]; [discriminate | auto].
      * intros [-> H].
        assert (Hh : handler_step E h ev m w false w []).
        { apply handler_none. now rewrite Hcur. }
        split; [reflexivity|].
        destruct (parent m) as [par|] eqn:Hpar.
        -- destruct H as (e & pm & w2 & ti & He & Hpm & Hg & Hlive & -> & ->).
           apply (delivery_bubble E h ev w m w [] m par pm e w2 ti); assumption.
        -- destruct H as (Hlive & -> & ->).
           apply (delivery_end E h ev w m false w [] m); auto.
    + intros Hcur T w' tr HT.
      assert (Hne : current_state m ≠ Some T) by (rewrite Hcur; congruence).
      rewrite (transition_iff _ _ _ _ _ _ _ Hm Hne). split.
      * intros H. destruct H as [w0 m0 w1 tx m1 w3 te Hm0 Hexit Hm1 Hentry].
        rewrite Hm in Hm0. injection Hm0 as <-.
        unfold exit_step in Hexit. rewrite Hcur in Hexit.
        destruct Hexit as [w0 _ | w0 fn ud' b0 w2 th Hres' _ _]; [|congruence].
        rewrite Hm in Hm1. injection Hm1 as <-.
        eexists _, te.
        split; [reflexivity|]. split; [|split; [exact Hentry | reflexivity]].
        now rewrite (hsm_get_state_copy_run _ _ _ (hsms_store_hsm _ _ _)).
      * intros (wc & te & -> & _ & Hentry & ->).
        apply (transition_steps E h T w m w [] m w' te); auto.
        unfold exit_step. rewrite Hcur. now apply synth_skip.
    + intros Hne w1 tx m1 Hexit Hm1 Hres1.
      exists (store_hsm h (with_current_state (Some s0) m1) w1).
      split; [|split; [reflexivity|split]].
      * apply (transition_iff _ _ _ _ _ _ _ Hm Hne).
        apply (transition_steps E h s0 w m w1 tx m1 _ []); auto.
        now apply synth_skip.
      * exists (with_current_state (Some s0) m1). split; [apply hsms_store_hsm|].
        split; [reflexivity | exact Hres1].
      * now rewrite (hsm_get_state_copy_run _ _ _ (hsms_store_hsm _ _ _)).
    + intros Hcur.
      assert (Hne : current_state m ≠ Some s0) by (rewrite Hcur; discriminate).
      exists (store_hsm h (with_current_state (Some s0) m) w).
      split; [|split; [reflexivity|split]].
      * apply (transition_iff _ _ _ _ _ _ _ Hm Hne).
        apply (transition_steps E h s0 w m w [] m _ []); auto.
        -- unfold exit_step. now rewrite Hcur.
        -- now apply synth_skip.
      * exists (with_current_state (Some s0) m). split; [apply hsms_store_hsm|].
        split; [reflexivity | exact Hres].
      * now rewrite (hsm_get_state_copy_run _ _ _ (hsms_store_hsm _ _ _)).
Qed.

(** ** The mutex *)

(** A transition never takes the machine's mutex before it writes
    [current_state]: when the steps before the write leave the mutex free,
    the write happens outside it. *)
Lemma commit_after_unlocked_prefix (h : HsmPtr) (T : string) (tx te : Trace)
    (held : list HsmPtr) :
  h ∉ held ->
  Forall (fun o => o ≠ OLock h) tx ->
  commits_locked held (tx ++ OCommit h T :: te) = false.
Proof.
  revert held. induction tx as [|o tx IH]; intros held Hh Hf.
  - cbn [app commits_locked]. now rewrite bool_decide_eq_false_2.
  - apply Forall_cons in Hf as [Ho Hf]. cbn [app].
    destruct o as [h1 s1 fn e ud|h1 s1|h1|h1|h1|c cb|h1 id|h1 t1]; cbn [commits_locked];
      try (now apply IH).
    + rewrite (IH held Hh Hf). apply andb_false_r.
    + apply IH; [|exact Hf]. rewrite not_elem_of_cons. split; [congruence | exact Hh].
    + apply IH; [|exact Hf]. rewrite list_elem_of_filter. tauto.
Qed.

Lemma transition_commits_outside_mutex (E : Env) (w : World) (h : HsmPtr) (m : Hsm)
    (T : string) (w' : World) (tr : Trace) :
  hsms w !! h = Some m ->
  current_state m ≠ Some T ->
  hsm_change_state_internal E h T w = Some (tt, w', tr) ->
  exists tx te,
    tr = tx ++ OCommit h T :: te /\
    (Forall (fun o => o ≠ OLock h) tx -> commits_locked [] tr = false).
Proof.
  intros Hm Hne H. apply (transition_iff _ _ _ _ _ _ _ Hm Hne) in H.
  destruct H as [w0 m0 w1 tx m1 w3 te _ _ _ _].
  exists tx, te. split; [reflexivity|]. intros Hf.
  apply commit_after_unlocked_prefix; [apply not_elem_of_nil | exact Hf].
Qed.

(** C6. On the machine "dev" in state "S", the transition to "T" writes
    [current_state] while the machine's mutex is not held (no step of the
    transition locks it), whereas the snapshot [hsm_get_state_copy] reads
    [current_state] between a lock and an unlock of that mutex.  Run one
    after the other, the snapshot returns the state name the transition
    wrote. *)
Theorem commit_is_outside_the_mutex :
  (fun r => (r.2, commits_locked [] r.2))
    <$> hsm_change_state_internal (queue_env true) 1%positive "T" dev_world
  = Some ([ODispatch 1%positive "S" 1%positive (synth HSM_EVT_EXIT dev_hsm) 100;
           OCommit 1%positive "T";
           ODispatch 1%positive "T" 1%positive (synth HSM_EVT_ENTRY dev_hsm) 100],
          false) /\
  (fun r => (r.1.1, r.2, reads_locked [] r.2)) <$> hsm_get_state_copy (Some 1%positive) dev_world
  = Some ("S"%string, [OLock 1%positive; OReadState 1%positive; OUnlock 1%positive], true) /\
  (fun r => r.1.1)
    <$> (_ <- hsm_change_state_internal (queue_env true) 1%positive "T" ;;
         hsm_get_state_copy (Some 1%positive)) dev_world
  = Some "T"%string.
Proof. repeat split; vm_compute; reflexivity. Qed.

(** ** Runs on which the stated behaviour fails *)

(** C1, counterexample. On the machine "dev" in state "S", whose EXIT
    handler redirects the machine to "U" by calling [hsm_change_state] on
    the machine's own context, the transition to "T" invokes the handlers
    (S, EXIT), (S, EXIT), (U, ENTRY), (T, ENTRY): two dispatches lie
    between the EXIT of "S" and the ENTRY of "T". *)
Lemma exit_handler_interposes_dispatches :
  hsms dev_world !! 1%positive = Some dev_hsm /\
  current_state dev_hsm = Some "S"%string /\
  g_main_context_get_thread_default dev_world = Some (context dev_hsm) /\
  (fun r => dispatches r.2)
    <$> hsm_change_state_internal (runtime redirecting_code 3) 1%positive "T" dev_world
  = Some [(1%positive, "S"%string, HSM_EVT_EXIT); (1%positive, "S"%string, HSM_EVT_EXIT);
          (1%positive, "U"%string, HSM_EVT_ENTRY); (1%positive, "T"%string, HSM_EVT_ENTRY)] /\
  (fun r => dispatches r.2)
    <$> hsm_change_state_internal (runtime redirecting_code 3) 1%positive "T" dev_world
  ≠ Some [(1%positive, "S"%string, HSM_EVT_EXIT); (1%positive, "T"%string, HSM_EVT_ENTRY)].
Proof.
  split; [reflexivity|]. split; [reflexivity|]. split; [reflexivity|].
  split; [vm_compute; reflexivity | vm_compute; discriminate].
Qed.

Lemma StronglySorted_snoc (l : list Z) (y : Z) :
  StronglySorted Z.lt (l ++ [y]) -> Forall (fun x => x < y) l.
Proof.
  induction l as [|x l IH]; intros H; [constructor|].
  cbn [app] in H. apply StronglySorted_inv in H as [Hs Hf].
  constructor; [|now apply IH].
  rewrite Forall_forall in Hf. apply Hf. set_solver.
Qed.

Lemma hsm_new_fresh : hsm_new None true empty_world = Some (1%positive, fresh_world, []).
Proof. reflexivity. Qed.

Lemma fresh_world_hsm : hsms fresh_world !! 1%positive = Some fresh_hsm.
Proof. reflexivity. Qed.

Lemma fresh_machine_reaches_max (n : nat) :
  Z.of_nat n = G_MAXINT - 1 ->
  exists w' t m',
    (h <- hsm_new None true ;;
     _ <- schedule_many h 0 n ;;
     hsm_schedule_timer (Some h) 0) empty_world = Some (G_MININT, w', t) /\
    hsms w' !! 1%positive = Some m' /\
    next_timer_id m' = G_MININT /\
    is_Some (timers m' !! G_MININT).
Proof.
  intros Hn. rewrite (bind_run _ _ _ _ _ _ hsm_new_fresh).
  destruct (schedule_many_counts 1%positive 0 n _ _ fresh_world_hsm)
    as (ids & w1 & t1 & m1 & Hrun & Hm1 & Hlen & Hc).
  rewrite (bind_run _ _ _ _ _ _ Hrun).
  rewrite (hsm_schedule_timer_run _ _ _ 0 Hm1).
  change (next_timer_id fresh_hsm) with 1 in Hc.
  apply counted_from_nowrap in Hc as (Hnext & _ & _);
    [|unfold G_MININT; lia|rewrite Hlen; lia].
  rewrite Hnext, Hlen, Hn.
  replace (1 + (G_MAXINT - 1) + 1) with (G_MAXINT + 1) by lia.
  rewrite gint_wrap_max. eexists _, _, _. split; [reflexivity|].
  split; [cbn [hsms store_hsm set_hsms bump_src set_sources]; apply lookup_insert_eq|].
  split; [reflexivity|].
  cbn [timers with_timers]. rewrite lookup_insert_eq. eauto.
Qed.

(** C3. [hsm_schedule_timer] is to return a positive integer id
    ([id = ++next_timer_id]).  On a machine created by [hsm_new], the call
    that follows [G_MAXINT - 1] earlier ones finds [next_timer_id] at
    [G_MAXINT]: the increment, which no bound guards, overflows, and the id
    returned is [G_MININT], which is not a positive integer.  The machine
    is left with that id for counter and with a timer recorded under
    it. *)
Lemma timer_id_not_positive_after_wrap :
  exists id w' t m',
    (h <- hsm_new None true ;;
     _ <- schedule_many h 0 (Z.to_nat (G_MAXINT - 1)) ;;
     hsm_schedule_timer (Some h) 0) empty_world = Some (id, w', t) /\
    id = G_MININT /\
    ~ 0 < id /\
    hsms w' !! 1%positive = Some m' /\
    next_timer_id m' = id /\
    is_Some (timers m' !! id).
Proof.
  destruct (fresh_machine_reaches_max (Z.to_nat (G_MAXINT - 1)))
    as (w' & t & m' & H & Hm' & Hn & Ht).
  { apply Z2Nat.id. unfold G_MAXINT. lia. }
  exists G_MININT, w', t, m'. split; [exact H|]. split; [reflexivity|].
  split; [unfold G_MININT; lia|]. auto.
Qed.

Lemma fresh_machine_wraps (n : nat) :
  Z.of_nat n = G_MAXINT ->
  exists ids w' t,
    (h <- hsm_new None true ;; schedule_many h 0 n) empty_world = Some (ids, w', t) /\
    ~ StronglySorted Z.lt ids.
Proof.
  intros Hn. rewrite (bind_run _ _ _ _ _ _ hsm_new_fresh).
  destruct (schedule_many_counts 1%positive 0 n _ _ fresh_world_hsm)
    as (ids & w1 & t1 & m1 & Hrun & Hm1 & Hlen & Hc).
  rewrite Hrun. cbn [app]. exists ids, w1, t1. split; [reflexivity|].
  change (next_timer_id fresh_hsm) with 1 in Hc. intros Hs.
  destruct n as [|k]; [unfold G_MAXINT in Hn; lia|].
  rewrite <- (take_drop k ids) in Hc, Hs.
  apply counted_from_split in Hc as (c1 & Hc1 & Hc2).
  assert (Hlen1 : length (take k ids) = k) by (rewrite length_take; lia).
  assert (Hlen2 : length (drop k ids) = 1%nat) by (rewrite length_drop; lia).
  apply counted_from_nowrap in Hc1 as (Hnext & _ & Hf);
    [|unfold G_MININT; lia|rewrite Hlen1; lia].
  rewrite Hlen1 in Hnext, Hf.
  destruct (drop k ids) as [|y [|z rest]]; try discriminate Hlen2.
  cbn [counted_from] in Hc2. destruct Hc2 as [Hy _].
  assert (Hc1max : c1 = G_MAXINT) by lia.
  rewrite Hc1max, gint_wrap_max in Hy.
  apply StronglySorted_snoc in Hs.
  destruct (take k ids) as [|x l1]; [cbn [length] in Hlen1; unfold G_MAXINT in Hn; lia|].
  apply Forall_cons in Hs as [Hx _]. apply Forall_cons in Hf as [Hx' _].
  unfold G_MININT in Hy. lia.
Qed.

(** C5. The ids successive calls of [hsm_schedule_timer] return on one
    machine are to be strictly increasing.  On a machine created by
    [hsm_new], the ids [G_MAXINT] successive calls return are not: the last
    call, whose increment overflows, returns [G_MININT], below every id
    returned before. *)
Lemma timer_ids_not_increasing_after_wrap :
  exists ids w' t,
    (h <- hsm_new None true ;; schedule_many h 0 (Z.to_nat G_MAXINT)) empty_world
    = Some (ids, w', t) /\
    ~ StronglySorted Z.lt ids.
Proof.
  apply fresh_machine_wraps. apply Z2Nat.id. unfold G_MAXINT. lia.
Qed.

(** ** The theorems at concrete machines *)

(** The basic life cycle runs to the end of [hsm_run] and the handler sees
    A/ENTRY, A/STEP, A/EXIT, B/ENTRY, in this order; the machine is left in
    state "B" with nothing pending and no event allocated. *)
Example lifecycle_trace :
  (fun r => (dispatches r.2, current_state <$> hsms r.1.2 !! 1%positive,
             pending r.1.2, events r.1.2, tds r.1.2, owned r.1.2))
    <$> lifecycle empty_world
  = Some ([(1%positive, "A"%string, HSM_EVT_ENTRY); (1%positive, "A"%string, HSM_EVT_STEP);
           (1%positive, "A"%string, HSM_EVT_EXIT); (1%positive, "B"%string, HSM_EVT_ENTRY)],
          Some (Some "B"%string), [], ∅, [], []).
Proof. vm_compute. reflexivity. Qed.

Lemma dev_world_hsm : hsms dev_world !! 1%positive = Some dev_hsm.
Proof. reflexivity. Qed.

Lemma dev_resolve_S : resolve dev_hsm "S" = Some (1%positive, 100).
Proof. vm_compute. reflexivity. Qed.

Lemma dev_resolve_T : resolve dev_hsm "T" = Some (1%positive, 100).
Proof. vm_compute. reflexivity. Qed.

(** On "dev" with handlers that only return, the transition S -> T calls
    EXIT for "S", writes "T" and calls ENTRY for "T". *)
Lemma transition_protocol_witness :
  hsms dev_world !! 1%positive = Some dev_hsm /\
  current_state dev_hsm ≠ Some "T"%string /\
  hsm_change_state_internal (queue_env true) 1%positive "T" dev_world
  = Some (tt,
          free_event 2%positive
            (alloc_event (synth HSM_EVT_ENTRY dev_hsm)
               (store_hsm 1%positive (with_current_state (Some "T"%string) dev_hsm)
                  (free_event 1%positive (alloc_event (synth HSM_EVT_EXIT dev_hsm) dev_world)))),
          [ODispatch 1%positive "S" 1%positive (synth HSM_EVT_EXIT dev_hsm) 100;
           OCommit 1%positive "T";
           ODispatch 1%positive "T" 1%positive (synth HSM_EVT_ENTRY dev_hsm) 100]) /\
  hsm_change_state (queue_env true) (Some 1%positive) (Some "U"%string) dev_world
  = hsm_change_state_internal (queue_env true) 1%positive "U" dev_world.
Proof.
  split; [reflexivity|]. split; [discriminate|].
  destruct (transition_protocol (queue_env true) dev_world 1%positive dev_hsm "T"
              (free_event 2%positive
                 (alloc_event (synth HSM_EVT_ENTRY dev_hsm)
                    (store_hsm 1%positive (with_current_state (Some "T"%string) dev_hsm)
                       (free_event 1%positive
                          (alloc_event (synth HSM_EVT_EXIT dev_hsm) dev_world)))))
              [ODispatch 1%positive "S"%string 1%positive (synth HSM_EVT_EXIT dev_hsm) 100;
               OCommit 1%positive "T"%string;
               ODispatch 1%positive "T"%string 1%positive (synth HSM_EVT_ENTRY dev_hsm) 100]
              eq_refl) as [Hiff Hsync]; [discriminate|].
  split; [|exact (Hsync dev_world dev_hsm "U"%string eq_refl eq_refl)].
  apply Hiff.
  exists (free_event 1%positive (alloc_event (synth HSM_EVT_EXIT dev_hsm) dev_world)),
         [ODispatch 1%positive "S"%string 1%positive (synth HSM_EVT_EXIT dev_hsm) 100],
         dev_hsm,
         (store_hsm 1%positive (with_current_state (Some "T"%string) dev_hsm)
            (free_event 1%positive (alloc_event (synth HSM_EVT_EXIT dev_hsm) dev_world))),
         [ODispatch 1%positive "T"%string 1%positive (synth HSM_EVT_ENTRY dev_hsm) 100].
  change (current_state dev_hsm) with (Some "S"%string). cbv beta iota.
  rewrite dev_resolve_S, dev_resolve_T.
  split; [|split; [reflexivity|split; [reflexivity|split; [|split; [|split; [|split]]]]]].
  - exists true, (alloc_event (synth HSM_EVT_EXIT dev_hsm) dev_world), [].
    split; [reflexivity|]. split; [|split; reflexivity].
    exists (synth HSM_EVT_EXIT dev_hsm). reflexivity.
  - exists (with_current_state (Some "T"%string) dev_hsm).
    split; [vm_compute; reflexivity|]. split; reflexivity.
  - intros h' Hh'. apply hsms_store_hsm_ne. congruence.
  - vm_compute. reflexivity.
  - exists true,
      (alloc_event (synth HSM_EVT_ENTRY dev_hsm)
         (store_hsm 1%positive (with_current_state (Some "T"%string) dev_hsm)
            (free_event 1%positive (alloc_event (synth HSM_EVT_EXIT dev_hsm) dev_world)))), [].
    split; [reflexivity|]. split; [|split; reflexivity].
    exists (synth HSM_EVT_ENTRY dev_hsm). reflexivity.
  - reflexivity.
Defined.

(** On "dev", a request for the state it is in changes nothing. *)
Lemma change_state_to_current_witness :
  hsms dev_world !! 1%positive = Some dev_hsm /\
  current_state dev_hsm = Some "S"%string /\
  hsm_change_state_internal (queue_env true) 1%positive "S" dev_world = Some (tt, dev_world, []) /\
  hsm_change_state_invoke_cb (queue_env true) (mkChangeReq 1%positive "S") dev_world
  = Some (G_SOURCE_REMOVE, dev_world, []) /\
  (g_main_context_get_thread_default dev_world = Some (context dev_hsm) ->
   hsm_change_state (queue_env true) (Some 1%positive) (Some "S"%string) dev_world
   = Some (tt, dev_world, []) /\
   hsm_post_change_state (queue_env true) (Some 1%positive) (Some "S"%string) dev_world
   = Some (tt, dev_world, [])) /\
  (g_main_context_get_thread_default dev_world ≠ Some (context dev_hsm) ->
   hsm_change_state (queue_env true) (Some 1%positive) (Some "S"%string) dev_world
   = invoke (queue_env true) (context dev_hsm) (CbChangeState (mkChangeReq 1%positive "S"))
       dev_world).
Proof.
  split; [reflexivity|]. split; [reflexivity|].
  apply (change_state_to_current_is_noop (queue_env true) dev_world 1%positive dev_hsm "S");
    reflexivity.
Defined.

(** When timer 2 of "dev" fires on the thread that owns the machine's
    context, GLib runs the posted dispatch at once: the handler sees
    TIMEOUT with sequence number 2 while the entry of id 2 is still in the
    timer table (its [hsm_cancel_timer] answers TRUE), because the callback
    posts first and removes the entry afterwards. *)
Example timeout_is_dispatched_before_removal :
  (fun r => (dispatches r.2, umem r.1.2 !! 200,
             timers <$> hsms r.1.2 !! 1%positive, sources r.1.2))
    <$> g_timeout_dispatch (runtime self_cancel_code 3) 1%positive timer_world
  = Some ([(1%positive, "S"%string, HSM_EVT_TIMEOUT)], Some 1, Some ∅, ∅).
Proof. vm_compute. reflexivity. Qed.

(** On "dev" with timer 2 pending, cancelling timer 2 succeeds. *)
Lemma cancel_timer_witness :
  hsms timer_world !! 1%positive = Some timer_hsm /\
  exists b w',
    hsm_cancel_timer (Some 1%positive) 2 timer_world = Some (b, w', []) /\
    (b = true <-> is_Some (timers timer_hsm !! 2)) /\
    (timers timer_hsm !! 2 = Some 1%positive -> sources w' !! 1%positive = None).
Proof.
  split; [reflexivity|].
  destruct (cancel_timer_iff_present (queue_env true) timer_world 1%positive timer_hsm 2
              eq_refl) as (b & w' & Hrun & Hiff & Hsome & _).
  exists b, w'. split; [exact Hrun|]. split; [exact Hiff|].
  intros Hs. exact (proj1 (Hsome _ Hs)).
Defined.

(** On "dev": the state "Z" is registered with a NULL handler, and the
    transition from "S" into it calls EXIT for "S" and no ENTRY, after
    which the snapshot reads "Z".  On the child of [idle_family_world],
    which is in "Z": the event "done" calls no handler and bubbles to
    "root", and the transition to "T" calls no EXIT, and ENTRY for "T". *)
Lemma null_handler_state_witness :
  hsms dev_world !! 1%positive = Some dev_hsm /\
  hsms idle_family_world !! 1%positive = Some idle_child_hsm /\
  (exists w1 m1,
     hsm_register_state (Some 1%positive) (Some "Z"%string) None 0 dev_world
     = Some (tt, w1, []) /\
     hsms w1 !! 1%positive = Some m1 /\
     states m1 !! "Z"%string = Some (mkState None 0)) /\
  (exists w',
     hsm_change_state_internal (queue_env true) 1%positive "Z" dev_world
     = Some (tt, w',
             [ODispatch 1%positive "S" 1%positive (synth HSM_EVT_EXIT dev_hsm) 100;
              OCommit 1%positive "Z"]) /\
     hsm_get_state_copy (Some 1%positive) w'
     = Some ("Z"%string, w', [OLock 1%positive; OReadState 1%positive; OUnlock 1%positive])) /\
  hsm_process_post (queue_env false) (mkPost 1%positive 1%positive) idle_family_world
  = Some (G_SOURCE_REMOVE,
          free_event 1%positive
            (set_pending (fun q => q ++ [(1%positive, CbProcessPost (mkPost 2%positive 2%positive))])
               (alloc_event done_event idle_family_world)),
          [OInvoke 1%positive (CbProcessPost (mkPost 2%positive 2%positive))]) /\
  hsm_change_state_internal (queue_env true) 1%positive "T" idle_family_world
  = Some (tt,
          free_event 2%positive
            (alloc_event (synth HSM_EVT_ENTRY idle_child_hsm)
               (store_hsm 1%positive (with_current_state (Some "T"%string) idle_child_hsm)
                  idle_family_world)),
          [OCommit 1%positive "T";
           ODispatch 1%positive "T" 1%positive (synth HSM_EVT_ENTRY idle_child_hsm) 100]).
Proof.
  assert (Hdev : hsms dev_world !! 1%positive = Some dev_hsm) by reflexivity.
  assert (Hidle : hsms idle_family_world !! 1%positive = Some idle_child_hsm)
    by (vm_compute; reflexivity).
  assert (HZ : resolve dev_hsm "Z" = None) by (vm_compute; reflexivity).
  assert (HZ' : resolve idle_child_hsm "Z" = None) by (vm_compute; reflexivity).
  split; [exact Hdev|]. split; [exact Hidle|].
  destruct (null_handler_state_is_inert (queue_env true) dev_world 1%positive dev_hsm "Z" 0
              Hdev) as ((w1 & m1 & Hreg & Hm1 & Hst & _) & _ & Hdevz).
  destruct (Hdevz HZ) as (_ & _ & Hinto & _).
  destruct (null_handler_state_is_inert (queue_env false) idle_family_world 1%positive
              idle_child_hsm "Z" 0 Hidle) as (_ & _ & Hidlez).
  destruct (Hidlez HZ') as (Hdisp & _).
  destruct (null_handler_state_is_inert (queue_env true) idle_family_world 1%positive
              idle_child_hsm "Z" 0 Hidle) as (_ & _ & Hidlez').
  destruct (Hidlez' HZ') as (_ & Hout & _).
  split; [now exists w1, m1|]. split; [|split].
  - destruct (Hinto ltac:(discriminate)
                (free_event 1%positive (alloc_event (synth HSM_EVT_EXIT dev_hsm) dev_world))
                [ODispatch 1%positive "S"%string 1%positive (synth HSM_EVT_EXIT dev_hsm) 100]
                dev_hsm) as (w' & Hrun & _ & _ & Hsnap).
    + unfold exit_step. change (current_state dev_hsm) with (Some "S"%string).
      apply (synth_call (queue_env true) HSM_EVT_EXIT 1%positive "S" dev_hsm dev_world
               1%positive 100 true (alloc_event (synth HSM_EVT_EXIT dev_hsm) dev_world) []);
        [exact dev_resolve_S | reflexivity |].
      exists (synth HSM_EVT_EXIT dev_hsm). reflexivity.
    + vm_compute. reflexivity.
    + exact HZ.
    + exists w'. split; [exact Hrun | exact Hsnap].
  - apply (Hdisp eq_refl). split; [reflexivity|].
    change (parent idle_child_hsm) with (Some 2%positive).
    exists done_event, root_hsm,
      (set_pending (fun q => q ++ [(1%positive, CbProcessPost (mkPost 2%positive 2%positive))])
         (alloc_event done_event idle_family_world)), [].
    split; [vm_compute; reflexivity|]. split; [vm_compute; reflexivity|].
    split; [reflexivity|]. split; [|split; reflexivity].
    exists done_event. vm_compute. reflexivity.
  - apply (Hout eq_refl "T"%string); [discriminate|].
    exists (store_hsm 1%positive (with_current_state (Some "T"%string) idle_child_hsm)
              idle_family_world),
           [ODispatch 1%positive "T"%string 1%positive (synth HSM_EVT_ENTRY idle_child_hsm) 100].
    split; [reflexivity|]. split; [vm_compute; reflexivity|]. split; [|reflexivity].
    apply (synth_call (queue_env true) HSM_EVT_ENTRY 1%positive "T"
             (with_current_state (Some "T"%string) idle_child_hsm)
             (store_hsm 1%positive (with_current_state (Some "T"%string) idle_child_hsm)
                idle_family_world)
             1%positive 100 true
             (alloc_event (synth HSM_EVT_ENTRY idle_child_hsm)
                (store_hsm 1%positive (with_current_state (Some "T"%string) idle_child_hsm)
                   idle_family_world)) []);
      [vm_compute; reflexivity | reflexivity |].
    exists (synth HSM_EVT_ENTRY idle_child_hsm). vm_compute. reflexivity.
Defined.

(** On the child "dev" of "root", with a handler that reports the event
    as not handled and posts that are queued: "done" is dispatched to "S",
    one copy of it is posted to the context of "root" as event 2, and the
    original, event 1, is released. *)
Lemma dispatch_and_bubble_witness :
  hsm_process_post (queue_env false) (mkPost 1%positive 1%positive) family_world
  = Some (G_SOURCE_REMOVE,
          free_event 1%positive
            (set_pending (fun q => q ++ [(1%positive, CbProcessPost (mkPost 2%positive 2%positive))])
               (alloc_event done_event family_world)),
          [ODispatch 1%positive "S" 1%positive done_event 100;
           OInvoke 1%positive (CbProcessPost (mkPost 2%positive 2%positive))]).
Proof.
  apply (dispatch_and_bubble (queue_env false) 1%positive 1%positive family_world).
  split; [reflexivity|].
  exists (with_parent (Some 2%positive) dev_hsm), false, family_world,
         [ODispatch 1%positive "S"%string 1%positive done_event 100],
         (with_parent (Some 2%positive) dev_hsm).
  split; [reflexivity|]. split; [|split; [reflexivity|]].
  - apply (handler_called (queue_env false) 1%positive 1%positive
             (with_parent (Some 2%positive) dev_hsm) family_world "S" 1%positive 100
             done_event false family_world []); [reflexivity | exact dev_resolve_S | reflexivity
                                                | reflexivity].
  - cbn [parent with_parent].
    exists done_event, root_hsm,
      (set_pending (fun q => q ++ [(1%positive, CbProcessPost (mkPost 2%positive 2%positive))])
         (alloc_event done_event family_world)), [].
    split; [reflexivity|]. split; [reflexivity|]. split; [reflexivity|].
    split; [reflexivity|]. split; [|split; reflexivity].
    exists done_event. reflexivity.
Defined.
(** * Further properties of hsm.c *)

(** ** Events *)

(** X1. An event built by [hsm_event_new] reads back, through the five
    accessors, exactly the kind, name, source, sequence number and data
    handle it was built from (a NULL name or source reads back as NULL),
    and reading does not change the store. *)
Theorem event_new_accessors_round_trip (ty : HsmEventType) (nm : option string)
    (data : gpointer) (source : option string) (seq : Z) (w : World) :
  exists ev w1,
    hsm_event_new ty nm data source seq w = Some (ev, w1, []) /\
    hsm_event_get_type (Some ev) w1 = Some (Some ty, w1, []) /\
    hsm_event_get_name (Some ev) w1 = Some (nm, w1, []) /\
    hsm_event_get_source (Some ev) w1 = Some (source, w1, []) /\
    hsm_event_get_seq (Some ev) w1 = Some (seq, w1, []) /\
    hsm_event_get_data (Some ev) w1 = Some (data, w1, []).
Proof.
  exists (next_ev w), (alloc_event (mkEvent ty nm source seq data) w).
  assert (He : events (alloc_event (mkEvent ty nm source seq data) w) !! next_ev w
               = Some (mkEvent ty nm source seq data)).
  { cbn [events alloc_event bump_ev set_events]. apply lookup_insert_eq. }
  split; [reflexivity|].
  repeat split;
    (cbn [hsm_event_get_type hsm_event_get_name hsm_event_get_source hsm_event_get_seq
          hsm_event_get_data];
     rewrite (bind_run _ _ _ _ _ _ (load_event_run _ _ _ He)); reflexivity).
Qed.

(** ** The registry *)

(** X2. [hsm_register_state] adds the state or replaces the entry of that
    name: afterwards the name resolves to the handler and user data just
    given, every other name resolves as before, and nothing else of the
    machine or of the other machines has changed.  A dispatch while that
    state is current calls the handler just registered. *)
Theorem register_then_resolve (E : Env) (w : World) (h : HsmPtr) (m : Hsm) (s : string)
    (fn : HandlerPtr) (ud : gpointer) :
  hsms w !! h = Some m ->
  exists w1 m1,
    hsm_register_state (Some h) (Some s) (Some fn) ud w = Some (tt, w1, []) /\
    hsms w1 !! h = Some m1 /\
    resolve m1 s = Some (fn, ud) /\
    (forall s', s' ≠ s -> resolve m1 s' = resolve m s') /\
    with_states (states m) m1 = m /\
    (forall h', h' ≠ h -> hsms w1 !! h' = hsms w !! h') /\
    (current_state m = Some s ->
     forall ev e b w' tr,
       events w !! ev = Some e ->
       hsm_process_post E (mkPost h ev) w1 = Some (b, w', tr) ->
       exists tl, tr = ODispatch h s fn e ud :: tl).
Proof.
  intros Hm.
  exists (store_hsm h (with_states (<[s := mkState (Some fn) ud]> (states m)) m) w),
         (with_states (<[s := mkState (Some fn) ud]> (states m)) m).
  split; [cbn [hsm_register_state]; now rewrite (update_hsm_run _ _ _ _ Hm)|].
  split; [apply hsms_store_hsm|].
  assert (Hres : resolve (with_states (<[s := mkState (Some fn) ud]> (states m)) m) s
                 = Some (fn, ud)).
  { unfold resolve. cbn [states with_states]. now rewrite lookup_insert_eq. }
  split; [exact Hres|]. split; [|split; [|split]].
  - intros s' Hne. unfold resolve. cbn [states with_states].
    now rewrite lookup_insert_ne by congruence.
  - now destruct m.
  - intros h' Hne. now apply hsms_store_hsm_ne.
  - intros Hcur ev e b w' tr He H. apply delivery_iff in H as [_ H].
    assert (Hstep : forall m0 handled w1 th,
               hsms (store_hsm h (with_states (<[s := mkState (Some fn) ud]> (states m)) m) w)
                 !! h = Some m0 ->
               handler_step E h ev m0
                 (store_hsm h (with_states (<[s := mkState (Some fn) ud]> (states m)) m) w)
                 handled w1 th ->
               exists tl, th = ODispatch h s fn e ud :: tl).
    { intros m0 handled w1 th Hm0 Hh. rewrite hsms_store_hsm in Hm0. injection Hm0 as <-.
      inversion Hh as [w3 Hnone | w3 s1 fn1 ud1 e1 b1 w4 th1 Hcs Hr Hev Hcall]; subst.
      - cbn [current_state with_states] in Hnone. rewrite Hcur, Hres in Hnone. discriminate.
      - cbn [current_state with_states] in Hcs. rewrite Hcur in Hcs. injection Hcs as <-.
        rewrite Hres in Hr. injection Hr as <- <-.
        cbn [events store_hsm set_hsms] in Hev. rewrite He in Hev. injection Hev as <-.
        now exists th1. }
    inversion H as [w0 m0 w1 th m1 par pm e1 w2 ti Hm0 Hh Hm1 Hpar He1 Hpm Hg Hlive
                   | w0 m0 handled w1 th m1 Hm0 Hh Hm1 Hcase Hlive]; subst.
    + destruct (Hstep _ _ _ _ Hm0 Hh) as [tl ->]. eexists. reflexivity.
    + destruct (Hstep _ _ _ _ Hm0 Hh) as [tl ->]. eexists. reflexivity.
Qed.

(** ** New machines *)

(** X3. [hsm_new] returns a machine with the given name, no current
    state, no parent, an empty registry and an empty timer table, on a new
    context of its own or on the global default context.  Its snapshot is
    the empty string, the first timer id it hands out is 2 (the counter
    starts at 1 and is incremented before use), and an event dispatched to
    it before any state is entered is released without any handler being
    called. *)
Theorem hsm_new_fresh_machine (E : Env) (nm : option string) (own : bool) (w : World) :
  exists h w1 m,
    hsm_new nm own w = Some (h, w1, []) /\
    hsms w1 !! h = Some m /\
    name m = nm /\ current_state m = None /\ parent m = None /\
    states m = ∅ /\ timers m = ∅ /\ next_timer_id m = 1 /\
    context m = (if own then next_ctx w else g_main_context_default) /\
    hsm_get_name (Some h) w1 = Some (nm, w1, []) /\
    hsm_get_parent (Some h) w1 = Some (None, w1, []) /\
    hsm_get_state_copy (Some h) w1 = Some (""%string, w1, [OLock h; OReadState h; OUnlock h]) /\
    (forall ms, exists w2, hsm_schedule_timer (Some h) ms w1 = Some (2, w2, [OTimer h 2])) /\
    (forall ev, is_Some (events w !! ev) ->
                hsm_process_post E (mkPost h ev) w1 = Some (G_SOURCE_REMOVE, free_event ev w1, [])).
Proof.
  set (c := if own then next_ctx w else g_main_context_default).
  set (w0 := if own then bump_ctx w else w).
  set (m := mkHsm nm None c false None false None ∅ ∅ 1).
  exists (next_hsm w0), (bump_hsm (set_hsms (insert (next_hsm w0) m) w0)), m.
  assert (Hm : hsms (bump_hsm (set_hsms (insert (next_hsm w0) m) w0)) !! next_hsm w0 = Some m).
  { cbn [hsms bump_hsm set_hsms]. apply lookup_insert_eq. }
  split; [reflexivity|]. split; [exact Hm|].
  repeat (split; [reflexivity|]).
  split; [cbn [hsm_get_name]; now rewrite (bind_run _ _ _ _ _ _ (load_hsm_run _ _ _ Hm))|].
  split; [cbn [hsm_get_parent]; now rewrite (bind_run _ _ _ _ _ _ (load_hsm_run _ _ _ Hm))|].
  split.
  { cbn [hsm_get_state_copy]. unfold emit at 1. unfold bind at 1.
    rewrite (bind_run _ _ _ _ _ _ (load_hsm_run _ _ _ Hm)). reflexivity. }
  split.
  - intros ms. eexists. rewrite (hsm_schedule_timer_run _ _ _ ms Hm). reflexivity.
  - intros ev Hev. apply delivery_iff. split; [reflexivity|].
    apply (delivery_end E _ ev _ m false _ [] m); auto.
    + now apply handler_none.
    + destruct own; exact Hev.
Qed.

(** ** Timers *)

(** X4. Scheduling a timer and cancelling the id just returned, on a
    machine whose counter is in range and to which the id is new: the id is
    the counter plus one, the cancellation answers TRUE, the source just
    attached is gone and every other source is as it was; the machine is
    as it was before the two calls, timer table included, except for its
    counter, which keeps the id, so that the id is not handed out again by
    the next call. *)
Theorem schedule_then_cancel (w : World) (h : HsmPtr) (m : Hsm) (ms : Z) :
  hsms w !! h = Some m ->
  0 <= next_timer_id m < G_MAXINT ->
  timers m !! (next_timer_id m + 1) = None ->
  exists w1 w2 m2,
    hsm_schedule_timer (Some h) ms w
    = Some (next_timer_id m + 1, w1, [OTimer h (next_timer_id m + 1)]) /\
    hsm_cancel_timer (Some h) (next_timer_id m + 1) w1 = Some (true, w2, []) /\
    hsms w2 !! h = Some m2 /\
    sources w2 !! next_src w = None /\
    (forall s, s ≠ next_src w -> sources w2 !! s = sources w !! s) /\
    timers m2 = timers m /\
    next_timer_id m2 = next_timer_id m + 1 /\
    with_next_timer_id (next_timer_id m) m2 = m /\
    (forall h', h' ≠ h -> hsms w2 !! h' = hsms w !! h').
Proof.
  intros Hm Hrange Hnew.
  assert (Hid : gint_wrap (next_timer_id m + 1) = next_timer_id m + 1).
  { apply gint_wrap_small. unfold is_gint, G_MININT, G_MAXINT in *. lia. }
  pose proof (hsm_schedule_timer_run w h m ms Hm) as Hs. rewrite Hid in Hs.
  set (id := next_timer_id m + 1) in *.
  set (m1 := with_timers (<[id := next_src w]> (timers m)) (with_next_timer_id id m)) in *.
  match type of Hs with _ = Some (_, ?x, _) => set (w1 := x) in * end.
  assert (Hm1 : hsms w1 !! h = Some m1) by apply hsms_store_hsm.
  assert (Hc : hsm_cancel_timer (Some h) id w1
               = Some (true, store_hsm h (with_timers (delete id (timers m1)) m1)
                               (set_sources (delete (next_src w)) w1), [])).
  { rewrite (hsm_cancel_timer_run w1 h m1 id Hm1).
    replace (timers m1 !! id) with (Some (next_src w)); [reflexivity|].
    subst m1. cbn [timers with_timers]. now rewrite lookup_insert_eq. }
  assert (Ht : delete id (timers m1) = timers m).
  { subst m1. cbn [timers with_timers]. rewrite delete_insert_eq. now apply delete_id. }
  eexists _, _, _. split; [exact Hs|]. split; [exact Hc|]. split; [apply hsms_store_hsm|].
  split; [cbn [sources store_hsm set_hsms set_sources]; apply lookup_delete_eq|].
  split.
  { intros s Hne. subst w1. cbn [sources store_hsm set_hsms set_sources bump_src].
    rewrite lookup_delete_ne by congruence. now rewrite lookup_insert_ne by congruence. }
  split; [exact Ht|]. split; [reflexivity|]. split.
  { cbn [timers with_timers]. rewrite Ht. now destruct m. }
  intros h' Hne. rewrite hsms_store_hsm_ne by congruence.
  subst w1. cbn [hsms set_sources]. rewrite hsms_store_hsm_ne by congruence.
  cbn [hsms bump_src set_sources]. now rewrite hsms_store_hsm_ne by congruence.
Qed.

(** X5. A timer id is good for one cancellation at most: once GLib has
    dispatched the timer's source, or once a cancellation of the id has
    answered TRUE, [hsm_cancel_timer] answers FALSE for that id and leaves
    the store as it is. *)
Theorem spent_timer_id_is_refused (E : Env) :
  (forall s src w w' tr,
     sources w !! s = Some src ->
     g_timeout_dispatch E s w = Some (tt, w', tr) ->
     hsm_cancel_timer (Some (t_h (src_data src))) (t_timer_id (src_data src)) w'
     = Some (false, w', [])) /\
  (forall h id w w' tr,
     hsm_cancel_timer (Some h) id w = Some (true, w', tr) ->
     hsm_cancel_timer (Some h) id w' = Some (false, w', [])).
Proof.
  split.
  - intros s src w w' tr Hs H.
    apply (timeout_dispatch_iff E s src w w' tr Hs) in H as (w1 & Hf & ->).
    destruct Hf as [w0 m w2 ti m2 Hm Hg Hm2].
    rewrite (hsm_cancel_timer_run _ _ (with_timers (delete (t_timer_id (src_data src)) (timers m2)) m2));
      [|cbn [hsms set_sources]; apply hsms_store_hsm].
    cbn [timers with_timers]. now rewrite lookup_delete_eq.
  - intros h id w w' tr H.
    destruct (hsms w !! h) as [m|] eqn:Hm.
    + rewrite (hsm_cancel_timer_run _ _ _ _ Hm) in H.
      destruct (timers m !! id) as [s|]; [|discriminate].
      injection H as <- <-.
      rewrite (hsm_cancel_timer_run _ _ (with_timers (delete id (timers m)) m));
        [|apply hsms_store_hsm].
      cbn [timers with_timers]. now rewrite lookup_delete_eq.
    + cbn [hsm_cancel_timer] in H. unfold bind, load_hsm in H. rewrite Hm in H. discriminate.
Qed.

(** ** The event loop *)

(** X6. [hsm_start]: without [run_in_thread] it does nothing at all (the
    caller is to call [hsm_run]); with it, a machine that has no thread
    gets one, recorded in the machine, and a machine that has one gets no
    second one, so that a repeated call changes nothing. *)
Theorem hsm_start_spawns_at_most_once (w : World) (h : HsmPtr) (m : Hsm) :
  hsms w !! h = Some m ->
  hsm_start (Some h) false w = Some (tt, w, []) /\
  (is_Some (thread m) -> hsm_start (Some h) true w = Some (tt, w, [])) /\
  (thread m = None ->
   exists t w1,
     hsm_start (Some h) true w = Some (tt, w1, [OSpawn h t]) /\
     hsms w1 !! h = Some (with_thread (Some t) m) /\
     (forall h', h' ≠ h -> hsms w1 !! h' = hsms w !! h') /\
     hsm_start (Some h) true w1 = Some (tt, w1, [])).
Proof.
  intros Hm. split; [reflexivity|]. split.
  - intros [t Ht]. cbn [hsm_start].
    rewrite (bind_run _ _ _ _ _ _ (load_hsm_run _ _ _ Hm)). now rewrite Ht.
  - intros Ht. exists (next_thread w), (store_hsm h (with_thread (Some (next_thread w)) m) (bump_thread w)).
    split; [|split; [apply hsms_store_hsm|split]].
    + cbn [hsm_start]. rewrite (bind_run _ _ _ _ _ _ (load_hsm_run _ _ _ Hm)). rewrite Ht.
      unfold g_thread_new, update_hsm, load_hsm, modify, bind. cbn [hsms bump_thread].
      rewrite Hm. reflexivity.
    + intros h' Hne. now rewrite hsms_store_hsm_ne.
    + cbn [hsm_start].
      rewrite (bind_run _ _ _ _ _ _ (load_hsm_run _ _ _ (hsms_store_hsm _ _ _))). reflexivity.
Qed.

Lemma push_thread_default_Some (c : Ctx) (w : World) x w' t :
  g_main_context_push_thread_default c w = Some (x, w', t) ->
  hsms w' = hsms w /\ t = [] /\
  (c ∉ busy w ->
   w' = set_tds (cons (if decide (c = g_main_context_default) then None else Some c))
          (set_owned (cons c) w)) /\
  (c ∈ busy w -> w' = w).
Proof.
  unfold g_main_context_push_thread_default, g_main_context_acquire.
  destruct (bool_decide (c ∈ busy w)) eqn:Hb; intros [= <- <- <-].
  - apply bool_decide_eq_true in Hb. repeat split. intros Hn. contradiction.
  - apply bool_decide_eq_false in Hb. repeat split. intros Hn. contradiction.
Qed.

Lemma pop_thread_default_Some (c : Ctx) (w : World) x w' t :
  g_main_context_pop_thread_default c w = Some (x, w', t) ->
  hsms w' = hsms w /\ t = [] /\
  (head (tds w) = Some (if decide (c = g_main_context_default) then None else Some c) ->
   w' = set_owned (remove_first c) (set_tds (drop 1) w)) /\
  (head (tds w) ≠ Some (if decide (c = g_main_context_default) then None else Some c) ->
   w' = w).
Proof.
  unfold g_main_context_pop_thread_default, get_world. unfold bind at 1.
  destruct (tds w) as [|top rest] eqn:Htds.
  - intros [= <- <- <-]. repeat split. intros [=].
  - cbn [head].
    destruct (decide (top = (if decide (c = g_main_context_default) then None else Some c)))
      as [Heq|Hne].
    + unfold g_main_context_release, modify, bind. intros [= <- <- <-].
      repeat split. intros Hn. exfalso. apply Hn. now rewrite Heq.
    + intros [= <- <- <-]. repeat split. intros [= Heq]. contradiction.
Qed.

(** X7. [hsm_run] brackets the loop: when it returns, GLib's loop has run
    exactly once in between, on a machine that reads as running.  Before
    the loop the calling thread has acquired the machine's context and
    pushed it on its stack of default contexts (NULL for the global default
    context), unless another thread had the context, in which case the push
    gives up and stack and ownership are as they were.  After the loop the
    machine reads as not running and is otherwise as the loop left it; the
    thread then pops its stack and releases the context once if the top of
    the stack is this context, and leaves stack and ownership alone if it
    is not, as after a push that gave up.  The thread [hsm_start] spawns
    does the same. *)
Theorem hsm_run_brackets_the_loop (E : Env) (h : HsmPtr) (w w' : World) (tr : Trace) :
  hsm_run E (Some h) w = Some (tt, w', tr) ->
  exists m w0 m0 w2 m2 m',
    hsms w !! h = Some m /\
    hsms w0 !! h = Some m0 /\ running m0 = true /\ with_running (running m) m0 = m /\
    (context m ∉ busy w ->
     tds w0 = (if decide (context m = g_main_context_default) then None else Some (context m))
              :: tds w /\
     owned w0 = context m :: owned w) /\
    (context m ∈ busy w -> tds w0 = tds w /\ owned w0 = owned w) /\
    g_main_loop_run E h w0 = Some (tt, w2, tr) /\
    hsms w2 !! h = Some m2 /\
    hsms w' !! h = Some m' /\ running m' = false /\ with_running (running m2) m' = m2 /\
    (head (tds w2)
     = Some (if decide (context m2 = g_main_context_default) then None else Some (context m2)) ->
     tds w' = drop 1 (tds w2) /\ owned w' = remove_first (context m2) (owned w2)) /\
    (head (tds w2)
     ≠ Some (if decide (context m2 = g_main_context_default) then None else Some (context m2)) ->
     tds w' = tds w2 /\ owned w' = owned w2) /\
    hsm_thread_func E h w = Some (tt, w', tr).
Proof.
  intros H. pose proof H as Hrun. cbn [hsm_run] in H.
  apply bind_Some in H as (m & wa & t1 & t2 & Hl & H & ->).
  apply load_hsm_Some in Hl as (Hm & -> & ->).
  apply bind_Some in H as (x1 & wp & t1 & t3 & Hp & H & ->).
  apply push_thread_default_Some in Hp as (Hhp & -> & Hpush & Hgiveup).
  apply bind_Some in H as (x2 & w0 & t1 & t4 & Hu & H & ->).
  apply update_hsm_Some in Hu as (mp & Hmp & -> & ->).
  rewrite Hhp, Hm in Hmp. injection Hmp as <-.
  apply bind_Some in H as ([] & w2 & t1 & t5 & Hloop & H & ->).
  apply bind_Some in H as (x3 & w3 & t6 & t7 & Hu & H & ->).
  apply update_hsm_Some in Hu as (m2 & Hm2 & -> & ->).
  apply bind_Some in H as (m3 & w4 & t8 & t9 & Hl & H & ->).
  apply load_hsm_Some in Hl as (Hm3 & -> & ->).
  rewrite hsms_store_hsm in Hm3. injection Hm3 as <-.
  apply pop_thread_default_Some in H as (Hhq & -> & Hpop & Hkeep).
  cbn [context with_running tds owned store_hsm set_hsms] in Hpop, Hkeep.
  exists m, (store_hsm h (with_running true m) wp), (with_running true m), w2, m2,
         (with_running false m2).
  split; [exact Hm|]. split; [apply hsms_store_hsm|]. split; [reflexivity|].
  split; [now destruct m|]. split.
  { intros Hn. rewrite (Hpush Hn). split; reflexivity. }
  split.
  { intros Hb. rewrite (Hgiveup Hb). split; reflexivity. }
  split; [now rewrite !app_nil_r|]. split; [exact Hm2|].
  split; [rewrite Hhq; apply hsms_store_hsm|]. split; [reflexivity|].
  split; [now destruct m2|]. split.
  { intros Hh. rewrite (Hpop Hh). split; reflexivity. }
  split.
  { intros Hh. rewrite (Hkeep Hh). split; reflexivity. }
  exact Hrun.
Qed.

(** ** State names *)

(** X8. The empty string is a state name like any other.  A machine that
    has not entered any state can be moved to it: the transition is not
    taken for a no-op, [current_state] is written and, when the name is not
    registered, reads as the empty string afterwards, so that the same
    request is a no-op from then on.  A machine in it gets EXIT when it
    leaves it.  Only the snapshot cannot tell it from no state at all:
    [hsm_get_state_copy] answers the empty string in both cases. *)
Theorem empty_name_is_a_state (E : Env) (w : World) (h : HsmPtr) (m : Hsm) :
  hsms w !! h = Some m ->
  (current_state m = None ->
   (forall w' tr, hsm_change_state_internal E h "" w = Some (tt, w', tr) ->
                  exists te, tr = OCommit h "" :: te) /\
   (resolve m "" = None ->
    exists w' m',
      hsm_change_state_internal E h "" w = Some (tt, w', [OCommit h ""]) /\
      hsms w' !! h = Some m' /\
      current_state m' = Some ""%string /\
      with_current_state None m' = m /\
      (forall h', h' ≠ h -> hsms w' !! h' = hsms w !! h') /\
      hsm_change_state_internal E h "" w' = Some (tt, w', []))) /\
  (current_state m = None \/ current_state m = Some ""%string ->
   hsm_get_state_copy (Some h) w = Some (""%string, w, [OLock h; OReadState h; OUnlock h])) /\
  (forall fn ud T w' tr,
     current_state m = Some ""%string -> resolve m "" = Some (fn, ud) -> T ≠ ""%string ->
     hsm_change_state_internal E h T w = Some (tt, w', tr) ->
     exists tl, tr = ODispatch h "" fn (synth HSM_EVT_EXIT m) ud :: tl).
Proof.
  intros Hm. split; [|split].
  - intros Hcur.
    assert (Hne : current_state m ≠ Some ""%string) by (rewrite Hcur; discriminate).
    split.
    + intros w' tr H. apply (transition_iff E w h m "" w' tr Hm Hne) in H.
      destruct H as [w0 m0 w1 tx m1 w3 te Hm0 Hx Hm1 He].
      rewrite Hm in Hm0. injection Hm0 as <-. unfold exit_step in Hx. rewrite Hcur in Hx.
      destruct Hx as [-> ->]. now exists te.
    + intros Hres.
      exists (store_hsm h (with_current_state (Some ""%string) m) w),
             (with_current_state (Some ""%string) m).
      split; [|split; [apply hsms_store_hsm|split; [reflexivity|split; [|split]]]].
      * apply (transition_iff E w h m "" _ _ Hm Hne).
        apply (transition_steps E h "" w m w [] m _ []); auto.
        -- unfold exit_step. now rewrite Hcur.
        -- apply synth_skip. exact Hres.
      * destruct m. cbn in Hcur. now rewrite Hcur.
      * intros h' Hh'. apply hsms_store_hsm_ne. congruence.
      * unfold hsm_change_state_internal.
        rewrite (bind_run _ _ _ _ _ _ (load_hsm_run _ _ _ (hsms_store_hsm _ _ _))).
        cbn [current_state with_current_state].
        now rewrite (g_strcmp0_eqb_true _ _ eq_refl).
  - intros Hcur. rewrite (hsm_get_state_copy_run _ _ _ Hm).
    destruct Hcur as [-> | ->]; reflexivity.
  - intros fn ud T w' tr Hcur Hres HT H.
    assert (Hne : current_state m ≠ Some T) by (rewrite Hcur; congruence).
    apply (transition_iff E w h m T w' tr Hm Hne) in H.
    destruct H as [w0 m0 w1 tx m1 w3 te Hm0 Hx Hm1 He].
    rewrite Hm in Hm0. injection Hm0 as <-. unfold exit_step in Hx. rewrite Hcur in Hx.
    inversion Hx as [w4 Hnone | w4 fn' ud' b w2 th Hr Hcall Hlive]; subst.
    + rewrite Hres in Hnone. discriminate.
    + rewrite Hres in Hr. injection Hr as <- <-. eexists. reflexivity.
Qed.

(** ** Destruction *)

Lemma hsm_destroy_run (E : Env) (w : World) (h : HsmPtr) (m : Hsm) :
  hsms w !! h = Some m ->
  thread m = None ->
  exists w',
    hsm_destroy E (Some h) w = Some (tt, w', []) /\
    hsms w' = delete h (hsms w) /\
    events w' = events w /\
    sources w' = (if decide (context_finalized (context m) w)
                  then filter (fun x => src_ctx x.2 ≠ context m) (sources w)
                  else sources w) /\
    pending w' = (if decide (context_finalized (context m) w)
                  then filter (fun x => x.1 ≠ context m) (pending w)
                  else pending w).
Proof.
  intros Hm Ht.
  assert (Hstop : exists ws m',
             hsm_stop (Some h) w = Some (tt, ws, []) /\ hsms ws !! h = Some m' /\
             thread m' = None /\ context m' = context m /\
             delete h (hsms ws) = delete h (hsms w) /\
             events ws = events w /\ sources ws = sources w /\ pending ws = pending w /\
             tds ws = tds w /\ busy ws = busy w).
  { cbn [hsm_stop]. rewrite (bind_run _ _ _ _ _ _ (load_hsm_run _ _ _ Hm)).
    destruct (loop_running m).
    - rewrite (update_hsm_run _ _ _ _ Hm). eexists _, _. split; [reflexivity|].
      split; [apply hsms_store_hsm|]. cbn [hsms events sources store_hsm set_hsms].
      repeat split; [exact Ht | apply delete_insert_eq].
    - exists w, m. repeat split; auto. }
  destruct Hstop as (ws & m' & Hstop & Hm' & Ht' & Hc' & Hh & He & Hs & Hp & Htds & Hbusy).
  cbn [hsm_destroy]. rewrite (bind_run _ _ _ _ _ _ Hstop).
  rewrite (bind_run _ _ _ _ _ _ (load_hsm_run _ _ _ Hm')). rewrite Ht'.
  rewrite (bind_run (ret tt) _ ws tt ws [] eq_refl).
  rewrite (bind_run _ _ _ _ _ _ (load_hsm_run _ _ _ Hm')). rewrite Hc'.
  unfold get_world at 1. unfold bind at 1.
  assert (Hiff : context_finalized (context m) ws <-> context_finalized (context m) w).
  { unfold context_finalized. now rewrite Htds, Hbusy. }
  destruct (decide (context_finalized (context m) ws)) as [Hf|Hf];
    destruct (decide (context_finalized (context m) w)) as [Hf'|Hf']; try tauto.
  - eexists. split; [reflexivity|].
    cbn [hsms sources events pending set_hsms set_sources set_pending].
    rewrite Hs, Hp. auto.
  - eexists. split; [reflexivity|]. cbn [hsms sources events pending set_hsms]. auto.
Qed.

(** X9. [hsm_destroy], of a machine that has no thread of its own to
    join, releases the machine and its timer table but destroys no timeout
    source.  Where the machine's context outlives it (the global default
    context always does, and so does a context of the machine's own that
    the calling thread still has on its stack of default contexts or that
    another thread has acquired), every source stays attached, and when
    GLib dispatches the source of a timer of the machine its callback goes
    through the released machine: the dispatch has no defined result.  Only
    when the machine held the last reference to a context of its own (one
    that is on no stack and that no thread has) do the sources of that
    context go with it, those of the other contexts staying. *)
Theorem destroy_leaves_timers_attached (E E' : Env) (w : World) (h : HsmPtr) (m : Hsm) :
  hsms w !! h = Some m ->
  thread m = None ->
  exists w',
    hsm_destroy E (Some h) w = Some (tt, w', []) /\
    hsms w' !! h = None /\
    (forall h', h' ≠ h -> hsms w' !! h' = hsms w !! h') /\
    (context m = g_main_context_default \/ Some (context m) ∈ tds w \/ context m ∈ busy w ->
     sources w' = sources w /\
     forall s src, sources w !! s = Some src -> t_h (src_data src) = h ->
                   sources w' !! s = Some src /\ g_timeout_dispatch E' s w' = None) /\
    (context m ≠ g_main_context_default -> Some (context m) ∉ tds w -> context m ∉ busy w ->
     forall s src, sources w !! s = Some src ->
                   sources w' !! s = (if decide (src_ctx src = context m) then None
                                      else Some src)).
Proof.
  intros Hm Ht. destruct (hsm_destroy_run E w h m Hm Ht) as (w' & Hd & Hh & He & Hs & _).
  exists w'. split; [exact Hd|]. split; [rewrite Hh; apply lookup_delete_eq|].
  split; [intros h' Hne; rewrite Hh; now apply lookup_delete_ne|]. split.
  - intros Hkeep. rewrite decide_False in Hs.
    2:{ intros (H1 & H2 & H3). destruct Hkeep as [?|[?|?]]; contradiction. }
    split; [exact Hs|]. intros s src Hsrc Hth.
    assert (Hsrc' : sources w' !! s = Some src) by (rewrite Hs; exact Hsrc).
    split; [exact Hsrc'|].
    assert (Hcb : hsm_timer_source_cb E' (src_data src) w' = None).
    { unfold hsm_timer_source_cb, bind, load_hsm. rewrite Hth, Hh, lookup_delete_eq.
      reflexivity. }
    unfold g_timeout_dispatch, get_world. unfold bind at 1. rewrite Hsrc'.
    unfold bind. now rewrite Hcb.
  - intros H1 H2 H3 s src Hsrc. rewrite decide_True in Hs by (repeat split; assumption).
    rewrite Hs. destruct (decide (src_ctx src = context m)) as [Hc|Hc].
    + apply map_lookup_filter_None. right. intros x Hx. cbn [snd].
      pose proof (eq_trans (eq_sym Hsrc) Hx) as Heq. injection Heq as <-.
      intros Hn. apply Hn. exact Hc.
    + apply map_lookup_filter_Some. split; [exact Hsrc | exact Hc].
Qed.

(** X10. [hsm_destroy] does not look for children: a machine whose parent
    (one with no thread of its own to join) has been destroyed is as it
    was and keeps the pointer to it, which [hsm_get_parent] still returns,
    and the events allocated are still allocated.  From then on a dispatch
    to the child returns only where its current state has a handler and
    that handler answers TRUE or has itself changed the child or put a
    machine at the parent's address.  An event for which the current state
    has no handler, or which the handler answers FALSE to, leaving the
    child as it was and the parent released, is bubbled through the
    released parent: that dispatch has no defined result. *)
Theorem destroy_leaves_children_dangling (E E' : Env) (w : World) (p c : HsmPtr)
    (mp mc : Hsm) (ev : EvPtr) :
  hsms w !! p = Some mp ->
  thread mp = None ->
  hsms w !! c = Some mc ->
  c ≠ p ->
  parent mc = Some p ->
  exists w',
    hsm_destroy E (Some p) w = Some (tt, w', []) /\
    hsms w' !! c = Some mc /\
    hsm_get_parent (Some c) w' = Some (Some p, w', []) /\
    hsms w' !! p = None /\
    events w' = events w /\
    (match current_state mc with Some s => resolve mc s | None => None end = None ->
     hsm_process_post E' (mkPost c ev) w' = None) /\
    (forall s fn ud w1 th,
       current_state mc = Some s -> resolve mc s = Some (fn, ud) ->
       call_handler E' fn c s ev ud w' = Some (false, w1, th) ->
       hsms w1 !! c = Some mc -> hsms w1 !! p = None ->
       hsm_process_post E' (mkPost c ev) w' = None) /\
    (forall b w2 tr,
       hsm_process_post E' (mkPost c ev) w' = Some (b, w2, tr) ->
       exists s fn ud handled w1 th,
         current_state mc = Some s /\ resolve mc s = Some (fn, ud) /\
         call_handler E' fn c s ev ud w' = Some (handled, w1, th) /\
         (handled = true \/ hsms w1 !! c ≠ Some mc \/ is_Some (hsms w1 !! p))).
Proof.
  intros Hp Ht Hc Hne Hpar.
  destruct (hsm_destroy_run E w p mp Hp Ht) as (w' & Hd & Hh & He & _).
  assert (Hc' : hsms w' !! c = Some mc) by (rewrite Hh; now rewrite lookup_delete_ne).
  assert (Hp' : hsms w' !! p = None) by (rewrite Hh; apply lookup_delete_eq).
  assert (Hret : forall b w2 tr,
             hsm_process_post E' (mkPost c ev) w' = Some (b, w2, tr) ->
             exists s fn ud handled w1 th,
               current_state mc = Some s /\ resolve mc s = Some (fn, ud) /\
               call_handler E' fn c s ev ud w' = Some (handled, w1, th) /\
               (handled = true \/ hsms w1 !! c ≠ Some mc \/ is_Some (hsms w1 !! p))).
  { intros b w2 tr H. apply delivery_iff in H as [_ H].
    inversion H as [w0 m0 w1 th m1 par pm e1 w3 ti Hm0 Hh' Hm1 Hpar1 He1 Hpm Hg Hlive
                   | w0 m0 handled w1 th m1 Hm0 Hh' Hm1 Hcase Hlive]; subst.
    - rewrite Hc' in Hm0. injection Hm0 as <-.
      inversion Hh' as [w4 Hnone | w4 s1 fn1 ud1 e2 b1 w5 th1 Hcs Hr Hev Hcall]; subst.
      + rewrite Hc' in Hm1. injection Hm1 as <-.
        rewrite Hpar in Hpar1. injection Hpar1 as <-. rewrite Hp' in Hpm. discriminate.
      + exists s1, fn1, ud1, false, w1, th1. split; [exact Hcs|]. split; [exact Hr|].
        split; [exact Hcall|]. right.
        destruct (decide (par = p)) as [->|Hq].
        * right. now exists pm.
        * left. rewrite Hm1. intros [= ->]. rewrite Hpar in Hpar1. congruence.
    - rewrite Hc' in Hm0. injection Hm0 as <-.
      inversion Hh' as [w4 Hnone | w4 s1 fn1 ud1 e2 b1 w5 th1 Hcs Hr Hev Hcall]; subst.
      + rewrite Hc' in Hm1. injection Hm1 as <-.
        destruct Hcase as [?|Hn]; [discriminate|]. rewrite Hpar in Hn. discriminate.
      + exists s1, fn1, ud1, handled, w1, th1. split; [exact Hcs|]. split; [exact Hr|].
        split; [exact Hcall|].
        destruct Hcase as [->|Hn]; [now left|]. right. left.
        rewrite Hm1. intros [= ->]. rewrite Hpar in Hn. discriminate. }
  exists w'. split; [exact Hd|]. split; [exact Hc'|]. split; [|split; [exact Hp'|]].
  - cbn [hsm_get_parent]. rewrite (bind_run _ _ _ _ _ _ (load_hsm_run _ _ _ Hc')).
    now rewrite Hpar.
  - split; [exact He|]. split; [|split; [|exact Hret]].
    + intros Hres.
      destruct (hsm_process_post E' (mkPost c ev) w') as [[[b w2] tr]|] eqn:H; [|reflexivity].
      exfalso. destruct (Hret _ _ _ eq_refl) as (s & fn & ud & hd & w1 & th & Hcs & Hr & _).
      rewrite Hcs, Hr in Hres. discriminate.
    + intros s fn ud w1 th Hcs Hr Hcall Hc1 Hp1.
      destruct (hsm_process_post E' (mkPost c ev) w') as [[[b w2] tr]|] eqn:H; [|reflexivity].
      exfalso.
      destruct (Hret _ _ _ eq_refl) as (s' & fn' & ud' & hd & w1' & th' & Hcs' & Hr' & Hcall' & Hor).
      rewrite Hcs in Hcs'. injection Hcs' as <-. rewrite Hr in Hr'. injection Hr' as <- <-.
      rewrite Hcall in Hcall'. injection Hcall' as <- <- <-.
      destruct Hor as [?|[Hx|[x Hx]]]; [discriminate | contradiction |].
      rewrite Hp1 in Hx. discriminate.
Qed.

(** ** The hierarchy *)

Lemma refused_dispatch_of_self_parent (code : Code) (h : HsmPtr) (m : Hsm) :
  parent m = Some h ->
  (forall fn s e ud, code fn h s e ud = PReturn false) ->
  forall fuel w ev r,
    hsms w !! h = Some m ->
    context m ∈ owned w ->
    hsm_process_post (runtime code fuel) (mkPost h ev) w = Some r -> False.
Proof.
  intros Hpar Hcode fuel.
  induction fuel as [|n IH]; intros w ev [[b w'] tr] Hm Hown H;
    apply delivery_iff in H as [_ H].
  - inversion H as [w0 m0 w1 th m1 par pm e1 w3 ti Hm0 Hh Hm1 Hpar1 He1 Hpm Hg Hlive
                   | w0 m0 handled w1 th m1 Hm0 Hh Hm1 Hcase Hlive]; subst.
    + rewrite Hm in Hm0. injection Hm0 as <-.
      inversion Hh as [w4 Hnone | w4 s1 fn1 ud1 e2 b1 w5 th1 Hcs Hr Hev Hcall]; subst;
        [|discriminate].
      rewrite Hm in Hm1. injection Hm1 as <-.
      rewrite Hpar in Hpar1. injection Hpar1 as <-.
      rewrite Hm in Hpm. injection Hpm as <-.
      cbn [runtime g_main_context_invoke] in Hg.
      unfold glib_main_context_invoke, get_world in Hg. unfold bind at 1 in Hg.
      cbn [owned alloc_event bump_ev set_events] in Hg.
      rewrite bool_decide_eq_true_2 in Hg by exact Hown. discriminate.
    + rewrite Hm in Hm0. injection Hm0 as <-.
      inversion Hh as [w4 Hnone | w4 s1 fn1 ud1 e2 b1 w5 th1 Hcs Hr Hev Hcall]; subst;
        [|discriminate].
      rewrite Hm in Hm1. injection Hm1 as <-.
      destruct Hcase as [?|Hn]; [discriminate|]. rewrite Hpar in Hn. discriminate.
  - assert (Hstep : forall handled w1 th,
               handler_step (runtime code (S n)) h ev m w handled w1 th ->
               handled = false /\ w1 = w).
    { intros handled w1 th Hh.
      inversion Hh as [w4 Hnone | w4 s1 fn1 ud1 e2 b1 w5 th1 Hcs Hr Hev Hcall]; subst; auto.
      cbn [runtime call_handler] in Hcall.
      rewrite (bind_run _ _ _ _ _ _ (load_event_run _ _ _ Hev)) in Hcall.
      rewrite Hcode in Hcall. cbn [run_prog] in Hcall. unfold ret in Hcall.
      injection Hcall as <- <- <-. auto. }
    inversion H as [w0 m0 w1 th m1 par pm e1 w3 ti Hm0 Hh Hm1 Hpar1 He1 Hpm Hg Hlive
                   | w0 m0 handled w1 th m1 Hm0 Hh Hm1 Hcase Hlive]; subst.
    + rewrite Hm in Hm0. injection Hm0 as <-.
      destruct (Hstep _ _ _ Hh) as [_ ->].
      rewrite Hm in Hm1. injection Hm1 as <-.
      rewrite Hpar in Hpar1. injection Hpar1 as <-.
      rewrite Hm in Hpm. injection Hpm as <-.
      cbn [runtime g_main_context_invoke] in Hg.
      unfold glib_main_context_invoke, get_world in Hg. unfold bind at 1 in Hg.
      cbn [owned alloc_event bump_ev set_events] in Hg.
      rewrite bool_decide_eq_true_2 in Hg by exact Hown.
      match type of Hg with
      | match ?c with _ => _ end = _ => destruct c as [[[x5 w5] t5]|] eqn:Hb; [|discriminate]
      end.
      apply bind_Some in Hb as (b1 & w6 & t1 & t2 & Hrun & _).
      cbn [run_callback] in Hrun.
      apply (IH (alloc_event e1 w) _ _ Hm Hown Hrun).
    + rewrite Hm in Hm0. injection Hm0 as <-.
      destruct (Hstep _ _ _ Hh) as [-> ->].
      rewrite Hm in Hm1. injection Hm1 as <-.
      destruct Hcase as [?|Hn]; [discriminate|]. rewrite Hpar in Hn. discriminate.
Qed.

(** X11. [hsm_set_parent] accepts any machine as parent, the machine
    itself included.  A machine that is its own parent, run by the thread
    that owns its context, cannot refuse an event: the copy bubbles to the
    same machine, which refuses it again, and the dispatch has no result
    however deep calls are allowed to nest.  Without a parent the same
    refusal ends the dispatch. *)
Theorem self_parent_never_settles (code : Code) (w : World) (h : HsmPtr) (m : Hsm)
    (ev : EvPtr) :
  hsms w !! h = Some m ->
  context m ∈ owned w ->
  is_Some (events w !! ev) ->
  (forall fn s e ud, code fn h s e ud = PReturn false) ->
  (exists w1,
     hsm_set_parent (Some h) (Some h) w = Some (tt, w1, []) /\
     hsm_get_parent (Some h) w1 = Some (Some h, w1, []) /\
     forall fuel, hsm_process_post (runtime code fuel) (mkPost h ev) w1 = None) /\
  (exists w0,
     hsm_set_parent (Some h) None w = Some (tt, w0, []) /\
     forall fuel, exists tr,
       hsm_process_post (runtime code (S fuel)) (mkPost h ev) w0
       = Some (G_SOURCE_REMOVE, free_event ev w0, tr)).
Proof.
  intros Hm Hown Hev Hcode. split.
  - exists (store_hsm h (with_parent (Some h) m) w).
    split; [cbn [hsm_set_parent]; apply (update_hsm_run _ _ _ _ Hm)|]. split.
    + cbn [hsm_get_parent].
      now rewrite (bind_run _ _ _ _ _ _ (load_hsm_run _ _ _ (hsms_store_hsm _ _ _))).
    + intros fuel.
      destruct (hsm_process_post (runtime code fuel) (mkPost h ev)
                  (store_hsm h (with_parent (Some h) m) w)) as [r|] eqn:H; [|reflexivity].
      exfalso.
      apply (refused_dispatch_of_self_parent code h (with_parent (Some h) m) eq_refl Hcode
               fuel _ ev r (hsms_store_hsm _ _ _) Hown H).
  - exists (store_hsm h (with_parent None m) w).
    split; [cbn [hsm_set_parent]; apply (update_hsm_run _ _ _ _ Hm)|].
    intros fuel. destruct Hev as [e He].
    destruct (match current_state m with Some s => resolve m s | None => None end)
      as [[fn ud]|] eqn:Hres.
    + destruct (current_state m) as [s|] eqn:Hcs; [|discriminate].
      eexists. apply delivery_iff. split; [reflexivity|].
      apply (delivery_end _ h ev _ (with_parent None m) false _ _ (with_parent None m)).
      * apply hsms_store_hsm.
      * apply (handler_called _ h ev (with_parent None m) _ s fn ud e false _ []); auto.
        cbn [runtime call_handler].
        rewrite (bind_run _ _ _ _ _ _
                   (load_event_run ev (store_hsm h (with_parent None m) w) e He)).
        rewrite Hcode. reflexivity.
      * apply hsms_store_hsm.
      * now right.
      * now exists e.
    + exists []. apply delivery_iff. split; [reflexivity|].
      apply (delivery_end _ h ev _ (with_parent None m) false _ [] (with_parent None m)).
      * apply hsms_store_hsm.
      * apply handler_none. exact Hres.
      * apply hsms_store_hsm.
      * now right.
      * now exists e.
Qed.

(** ** What leaves the timers alone *)

Section KeepsTimers.

Lemma keeps_ret {A} (a : A) : keeps_timers (ret a).
Proof. intros w a' w' t [= <- <- <-]. split; [reflexivity|]. intros h m Hm. now exists m. Qed.

Lemma keeps_bind {A B} (c : M A) (k : A -> M B) :
  keeps_timers c -> (forall a, keeps_timers (k a)) -> keeps_timers (bind c k).
Proof.
  intros Hc Hk w b w2 t H.
  apply bind_Some in H as (a & w1 & t1 & t2 & H1 & H2 & ->).
  destruct (Hc _ _ _ _ H1) as [Hs1 Hh1]. destruct (Hk a _ _ _ _ H2) as [Hs2 Hh2].
  split; [congruence|]. intros h m Hm.
  destruct (Hh1 _ _ Hm) as (m1 & Hm1 & Ht1). destruct (Hh2 _ _ Hm1) as (m2 & Hm2 & Ht2).
  exists m2. split; [exact Hm2 | congruence].
Qed.

Lemma keeps_emit (o : Obs) : keeps_timers (emit o).
Proof. intros w a' w' t [= <- <- <-]. split; [reflexivity|]. intros h m Hm. now exists m. Qed.

Lemma keeps_get_world : keeps_timers get_world.
Proof. intros w a' w' t [= <- <- <-]. split; [reflexivity|]. intros h m Hm. now exists m. Qed.

Lemma keeps_modify (f : World -> World) :
  (forall w, sources (f w) = sources w /\ hsms (f w) = hsms w) -> keeps_timers (modify f).
Proof.
  intros Hf w a' w' t [= <- <- <-]. destruct (Hf w) as [Hs Hh].
  split; [exact Hs|]. intros h m Hm. exists m. now rewrite Hh.
Qed.

Lemma keeps_load_hsm (h : HsmPtr) : keeps_timers (load_hsm h).
Proof.
  intros w a w' t H. apply load_hsm_Some in H as (_ & -> & _).
  split; [reflexivity|]. intros h' m Hm. now exists m.
Qed.

Lemma keeps_load_event (ev : EvPtr) : keeps_timers (load_event ev).
Proof.
  intros w a w' t H. apply load_event_Some in H as (_ & -> & _).
  split; [reflexivity|]. intros h' m Hm. now exists m.
Qed.

Lemma keeps_update_hsm (h : HsmPtr) (f : Hsm -> Hsm) :
  (forall m, timers (f m) = timers m) -> keeps_timers (update_hsm h f).
Proof.
  intros Hf w a w' t H. apply update_hsm_Some in H as (m0 & Hm0 & -> & _).
  split; [reflexivity|]. intros h' m Hm.
  destruct (decide (h = h')) as [<-|Hne].
  - exists (f m0). split; [apply hsms_store_hsm|]. rewrite Hf. congruence.
  - exists m. now rewrite hsms_store_hsm_ne.
Qed.

Lemma keeps_hsm_event_new ty nm data source seq :
  keeps_timers (hsm_event_new ty nm data source seq).
Proof.
  intros w a w' t [= <- <- <-]. split; [reflexivity|]. intros h m Hm. now exists m.
Qed.

Lemma keeps_hsm_event_free (ev : option EvPtr) : keeps_timers (hsm_event_free ev).
Proof.
  intros w a w' t H. destruct ev as [ev|].
  - apply hsm_event_free_Some in H as (_ & [= -> -> ->]).
    split; [reflexivity|]. intros h m Hm. now exists m.
  - injection H as <- <- <-. split; [reflexivity|]. intros h m Hm. now exists m.
Qed.

Lemma keeps_g_thread_new (h : HsmPtr) : keeps_timers (g_thread_new h).
Proof. intros w a w' t [= <- <- <-]. split; [reflexivity|]. intros h' m Hm. now exists m. Qed.

Variable E : Env.
Hypothesis handlers_keep : forall fn h s ev ud, keeps_timers (call_handler E fn h s ev ud).
Hypothesis invoke_keeps : forall c cb, keeps_timers (g_main_context_invoke E c cb).

Lemma keeps_invoke_handler fn h s ev ud : keeps_timers (invoke_handler E fn h s ev ud).
Proof.
  apply keeps_bind; [apply keeps_load_event|intros e].
  apply keeps_bind; [apply keeps_emit|intros _]. apply handlers_keep.
Qed.

Lemma keeps_invoke c cb : keeps_timers (invoke E c cb).
Proof. apply keeps_bind; [apply keeps_emit|intros _]. apply invoke_keeps. Qed.

Lemma keeps_hsm_change_state_internal h T : keeps_timers (hsm_change_state_internal E h T).
Proof.
  apply keeps_bind; [apply keeps_load_hsm|intros m].
  destruct (g_strcmp0 (current_state m) (Some T) =? 0); [apply keeps_ret|].
  apply keeps_bind.
  { destruct (current_state m) as [cs|]; [|apply keeps_ret].
    destruct (states m !! cs) as [old|]; [|apply keeps_ret].
    destruct (st_handler old) as [fn|]; [|apply keeps_ret].
    apply keeps_bind; [apply keeps_hsm_event_new|intros ev].
    apply keeps_bind; [apply keeps_invoke_handler|intros _]. apply keeps_hsm_event_free. }
  intros _. apply keeps_bind; [now apply keeps_update_hsm|intros _].
  apply keeps_bind; [apply keeps_emit|intros _].
  apply keeps_bind; [apply keeps_load_hsm|intros m1].
  destruct (states m1 !! T) as [newst|]; [|apply keeps_ret].
  destruct (st_handler newst) as [fn|]; [|apply keeps_ret].
  apply keeps_bind; [apply keeps_hsm_event_new|intros ev].
  apply keeps_bind; [apply keeps_invoke_handler|intros _]. apply keeps_hsm_event_free.
Qed.

Lemma keeps_hsm_change_state h ns : keeps_timers (hsm_change_state E h ns).
Proof.
  destruct h as [h|], ns as [ns|]; try apply keeps_ret. cbn [hsm_change_state].
  apply keeps_bind; [apply keeps_load_hsm|intros m].
  apply keeps_bind; [apply keeps_get_world|intros w].
  destruct (decide _); [apply keeps_hsm_change_state_internal | apply keeps_invoke].
Qed.

Lemma keeps_hsm_post_event h ev : keeps_timers (hsm_post_event E h ev).
Proof.
  destruct h as [h|], ev as [ev|]; try apply keeps_ret. cbn [hsm_post_event].
  apply keeps_bind; [apply keeps_load_hsm|intros m]. apply keeps_invoke.
Qed.

Lemma keeps_hsm_process_post p : keeps_timers (hsm_process_post E p).
Proof.
  unfold hsm_process_post.
  apply keeps_bind; [apply keeps_load_hsm|intros m].
  apply keeps_bind.
  { destruct (current_state m) as [cs|]; [|apply keeps_ret].
    destruct (states m !! cs) as [st|]; [|apply keeps_ret].
    destruct (st_handler st) as [fn|]; [|apply keeps_ret]. apply keeps_invoke_handler. }
  intros handled. apply keeps_bind; [apply keeps_load_hsm|intros m1].
  apply keeps_bind; [|intros _; apply keeps_ret].
  destruct handled; [apply keeps_hsm_event_free|].
  destruct (parent m1) as [par|]; [|apply keeps_hsm_event_free].
  apply keeps_bind; [apply keeps_load_event|intros e].
  apply keeps_bind; [apply keeps_hsm_event_new|intros copy].
  apply keeps_bind; [apply keeps_load_hsm|intros pm].
  apply keeps_bind; [apply keeps_invoke|intros _]. apply keeps_hsm_event_free.
Qed.

End KeepsTimers.

(** X12. Timers belong to the machine, not to the state that scheduled
    them.  Provided the handlers, and what [g_main_context_invoke] runs,
    leave the timers alone, so do a transition, a request for one, a
    dispatch and a post, and so do, whatever the handlers, the
    registration, hierarchy, start, stop and query functions: every timeout
    source stays attached and every machine keeps its timer table, so that
    a timer scheduled in one state is still scheduled in the next. *)
Theorem only_timer_functions_touch_timers (E : Env) :
  (forall h s fn ud, keeps_timers (hsm_register_state h s fn ud)) /\
  (forall h p, keeps_timers (hsm_set_parent h p)) /\
  (forall h b, keeps_timers (hsm_start h b)) /\
  (forall h, keeps_timers (hsm_stop h)) /\
  (forall h, keeps_timers (hsm_get_state_copy h)) /\
  (forall h, keeps_timers (hsm_get_parent h)) /\
  (forall h, keeps_timers (hsm_get_name h)) /\
  ((forall fn h s ev ud, keeps_timers (call_handler E fn h s ev ud)) ->
   (forall c cb, keeps_timers (g_main_context_invoke E c cb)) ->
   (forall h T, keeps_timers (hsm_change_state_internal E h T)) /\
   (forall h ns, keeps_timers (hsm_change_state E h ns)) /\
   (forall h ns, keeps_timers (hsm_post_change_state E h ns)) /\
   (forall r, keeps_timers (hsm_change_state_invoke_cb E r)) /\
   (forall p, keeps_timers (hsm_process_post E p)) /\
   (forall h ev, keeps_timers (hsm_post_event E h ev))).
Proof.
  split.
  { intros [h|] [s|] fn ud; try apply keeps_ret. now apply keeps_update_hsm. }
  split; [intros [h|] p; [now apply keeps_update_hsm | apply keeps_ret]|].
  split.
  { intros [h|] [|]; try apply keeps_ret. cbn [hsm_start].
    apply keeps_bind; [apply keeps_load_hsm|intros m].
    destruct (thread m); [apply keeps_ret|].
    apply keeps_bind; [apply keeps_g_thread_new|intros t]. now apply keeps_update_hsm. }
  split.
  { intros [h|]; [|apply keeps_ret]. cbn [hsm_stop].
    apply keeps_bind; [apply keeps_load_hsm|intros m].
    destruct (loop_running m); [now apply keeps_update_hsm | apply keeps_ret]. }
  split.
  { intros [h|]; [|apply keeps_ret]. cbn [hsm_get_state_copy].
    apply keeps_bind; [apply keeps_emit|intros _].
    apply keeps_bind; [apply keeps_load_hsm|intros m].
    apply keeps_bind; [apply keeps_emit|intros _].
    apply keeps_bind; [apply keeps_emit|intros _]. apply keeps_ret. }
  split.
  { intros [h|]; [|apply keeps_ret]. cbn [hsm_get_parent].
    apply keeps_bind; [apply keeps_load_hsm|intros m]. apply keeps_ret. }
  split.
  { intros [h|]; [|apply keeps_ret]. cbn [hsm_get_name].
    apply keeps_bind; [apply keeps_load_hsm|intros m]. apply keeps_ret. }
  intros Hh Hi.
  split; [intros; now apply keeps_hsm_change_state_internal|].
  split; [intros; now apply keeps_hsm_change_state|].
  split; [intros; now apply keeps_hsm_change_state|].
  split.
  { intros r. apply keeps_bind; [now apply keeps_hsm_change_state_internal|intros _].
    apply keeps_ret. }
  split; [intros; now apply keeps_hsm_process_post|].
  intros; now apply keeps_hsm_post_event.
Qed.
(** ** What a lifetime keeps *)

Lemma evolves_refl (w : World) : evolves w w.
Proof.
  split; [|split; [|split]]; try reflexivity.
  - intros h m Hm. exists m. auto.
  - intros s _. now left.
Qed.

Lemma evolves_trans (w w1 w2 : World) : evolves w w1 -> evolves w1 w2 -> evolves w w2.
Proof.
  intros (H1 & Hs1 & Hh1 & Hk1) (H2 & Hs2 & Hh2 & Hk2).
  split; [|split; [|split]].
  - intros h m Hm. destruct (H1 _ _ Hm) as (m1 & Hm1 & Hn1 & Hc1 & Hd1).
    destruct (H2 _ _ Hm1) as (m2 & Hm2 & Hn2 & Hc2 & Hd2).
    exists m2. repeat split; [exact Hm2 | congruence | congruence | set_solver].
  - lia.
  - lia.
  - intros s Hlt. destruct (Hk2 s ltac:(lia)) as [Hx|Hx]; [|now right].
    rewrite Hx. now apply Hk1.
Qed.

Lemma same_store (w w' : World) :
  hsms w' = hsms w -> sources w' = sources w -> next_src w' = next_src w ->
  next_hsm w' = next_hsm w ->
  evolves w w' /\ (store_wf w -> store_wf w').
Proof.
  intros Hh Hs Hns Hnh. split.
  - split; [|split; [|split]].
    + intros h m Hm. exists m. rewrite Hh. auto.
    + rewrite Hns. reflexivity.
    + rewrite Hnh. reflexivity.
    + intros s _. left. now rewrite Hs.
  - intros (Ha & Hb & Hc). unfold store_wf. rewrite Hh, Hs, Hns, Hnh. auto.
Qed.

Section Soundness.

Lemma sound_ret {A} (a : A) : sound (ret a).
Proof. intros w a' w' t [= <- <- <-]. now apply same_store. Qed.

Lemma sound_undefined {A} : sound (@undefined A).
Proof. intros w a w' t H. discriminate. Qed.

Lemma sound_bind {A B} (c : M A) (k : A -> M B) :
  sound c -> (forall a, sound (k a)) -> sound (bind c k).
Proof.
  intros Hc Hk w b w2 t H.
  apply bind_Some in H as (a & w1 & t1 & t2 & H1 & H2 & ->).
  destruct (Hc _ _ _ _ H1) as [He1 Hw1]. destruct (Hk a _ _ _ _ H2) as [He2 Hw2].
  split; [now apply (evolves_trans w w1 w2) | auto].
Qed.

Lemma sound_get_world : sound get_world.
Proof. intros w a' w' t [= <- <- <-]. now apply same_store. Qed.

Lemma sound_emit (o : Obs) : sound (emit o).
Proof. intros w a' w' t [= <- <- <-]. now apply same_store. Qed.

Lemma sound_modify (f : World -> World) :
  (forall w, hsms (f w) = hsms w /\ sources (f w) = sources w /\
             next_src (f w) = next_src w /\ next_hsm (f w) = next_hsm w) ->
  sound (modify f).
Proof.
  intros Hf w a w' t [= <- <- <-]. destruct (Hf w) as (? & ? & ? & ?). now apply same_store.
Qed.

Lemma sound_load_hsm (h : HsmPtr) : sound (load_hsm h).
Proof.
  intros w a w' t H. apply load_hsm_Some in H as (_ & -> & _). now apply same_store.
Qed.

Lemma sound_load_event (ev : EvPtr) : sound (load_event ev).
Proof.
  intros w a w' t H. apply load_event_Some in H as (_ & -> & _). now apply same_store.
Qed.

Lemma sound_hsm_event_new ty nm data source seq : sound (hsm_event_new ty nm data source seq).
Proof. intros w a w' t [= <- <- <-]. now apply same_store. Qed.

Lemma sound_hsm_event_free (ev : option EvPtr) : sound (hsm_event_free ev).
Proof.
  destruct ev as [e|]; [|apply sound_ret].
  intros w a w' t H. apply hsm_event_free_Some in H as [_ [= -> -> ->]]. now apply same_store.
Qed.

Lemma sound_update_hsm (h : HsmPtr) (f : Hsm -> Hsm) :
  (forall m, name (f m) = name m /\ context (f m) = context m /\
             dom (states m) ⊆ dom (states (f m)) /\ timers (f m) ⊆ timers m) ->
  sound (update_hsm h f).
Proof.
  intros Hf w a w' t H. apply update_hsm_Some in H as (m0 & Hm0 & -> & _).
  destruct (Hf m0) as (Hn & Hc & Hd & Ht). split.
  - split; [|split; [|split]]; try reflexivity.
    + intros h' m Hm. destruct (decide (h = h')) as [<-|Hne].
      * rewrite Hm0 in Hm. injection Hm as <-. exists (f m0).
        split; [apply hsms_store_hsm | auto].
      * exists m. rewrite hsms_store_hsm_ne by exact Hne. auto.
    + intros s _. now left.
  - intros (Ha & Hb & Hcc). split; [|split].
    + intros h' m id s Hm Hid. cbn [sources store_hsm set_hsms].
      destruct (decide (h = h')) as [<-|Hne].
      * rewrite hsms_store_hsm in Hm. injection Hm as <-. rewrite Hc.
        apply (Ha h m0 id s Hm0). now apply (lookup_weaken _ _ _ _ Hid Ht).
      * rewrite hsms_store_hsm_ne in Hm by exact Hne. now apply (Ha h' m id s).
    + exact Hb.
    + intros h' [m Hm]. cbn [next_hsm store_hsm set_hsms]. apply Hcc.
      destruct (decide (h = h')) as [<-|Hne]; [now exists m0|].
      rewrite hsms_store_hsm_ne in Hm by exact Hne. now exists m.
Qed.

Lemma sound_update_hsm_same (h : HsmPtr) (f : Hsm -> Hsm) :
  (forall m, name (f m) = name m /\ context (f m) = context m /\
             states (f m) = states m /\ timers (f m) = timers m) ->
  sound (update_hsm h f).
Proof.
  intros Hf. apply sound_update_hsm. intros m. destruct (Hf m) as (-> & -> & -> & ->). auto.
Qed.

Lemma sound_hsm_schedule_timer (h : option HsmPtr) (ms : Z) : sound (hsm_schedule_timer h ms).
Proof.
  destruct h as [h|]; [|apply sound_ret].
  intros w a w' t H.
  destruct (hsms w !! h) as [m|] eqn:Hm.
  2:{ unfold hsm_schedule_timer, bind, load_hsm in H. rewrite Hm in H. discriminate. }
  rewrite (hsm_schedule_timer_run _ _ _ _ Hm) in H. injection H as <- <- <-.
  set (id := gint_wrap (next_timer_id m + 1)). split.
  - split; [|split; [|split]].
    + intros h' m' Hm'. destruct (decide (h = h')) as [<-|Hne].
      * rewrite Hm in Hm'. injection Hm' as <-. eexists. split; [apply hsms_store_hsm|]. auto.
      * exists m'. rewrite hsms_store_hsm_ne by exact Hne.
        cbn [hsms bump_src set_sources]. rewrite hsms_store_hsm_ne by exact Hne. auto.
    + cbn [next_src store_hsm set_hsms bump_src set_sources]. lia.
    + reflexivity.
    + intros s Hlt. left. cbn [sources store_hsm set_hsms bump_src set_sources].
      apply lookup_insert_ne. lia.
  - intros (Ha & Hb & Hc). split; [|split].
    + intros h' m' id' s Hm' Hid'.
      cbn [sources store_hsm set_hsms bump_src set_sources].
      assert (Hold : forall m0, hsms w !! h' = Some m0 -> timers m0 !! id' = Some s ->
                context m0 = context m' ->
                exists ms0, <[next_src w := mkSource (context m) ms (mkTimerCtx h id)]>
                              (sources w) !! s
                            = Some (mkSource (context m') ms0 (mkTimerCtx h' id'))).
      { intros m0 Hm0 Hid0 Hctx. destruct (Ha _ _ _ _ Hm0 Hid0) as [ms0 Hs0].
        exists ms0. rewrite lookup_insert_ne; [now rewrite <- Hctx|].
        assert (s < next_src w)%positive by (apply Hb; eauto). lia. }
      destruct (decide (h = h')) as [<-|Hne].
      * rewrite hsms_store_hsm in Hm'. injection Hm' as <-.
        cbn [timers with_timers context with_next_timer_id] in *.
        destruct (decide (id = id')) as [<-|Hnid].
        -- rewrite lookup_insert_eq in Hid'. injection Hid' as <-.
           exists ms. now rewrite lookup_insert_eq.
        -- rewrite lookup_insert_ne in Hid' by exact Hnid.
           now apply (Hold m Hm Hid').
      * rewrite hsms_store_hsm_ne in Hm' by exact Hne.
        cbn [hsms bump_src set_sources] in Hm'. rewrite hsms_store_hsm_ne in Hm' by exact Hne.
        now apply (Hold m' Hm' Hid').
    + intros s. cbn [sources next_src store_hsm set_hsms bump_src set_sources].
      destruct (decide (s = next_src w)) as [->|Hne]; [lia|].
      rewrite lookup_insert_ne by congruence. intros Hs. apply Hb in Hs. lia.
    + intros h' [m' Hm']. cbn [next_hsm store_hsm set_hsms bump_src set_sources]. apply Hc.
      destruct (decide (h = h')) as [<-|Hne]; [now exists m|].
      rewrite hsms_store_hsm_ne in Hm' by exact Hne.
      cbn [hsms bump_src set_sources] in Hm'. rewrite hsms_store_hsm_ne in Hm' by exact Hne.
      now exists m'.
Qed.

Lemma sound_hsm_cancel_timer (h : option HsmPtr) (id : Z) : sound (hsm_cancel_timer h id).
Proof.
  destruct h as [h|]; [|apply sound_ret].
  intros w a w' t H.
  destruct (hsms w !! h) as [m|] eqn:Hm.
  2:{ unfold hsm_cancel_timer, bind, load_hsm in H. rewrite Hm in H. discriminate. }
  rewrite (hsm_cancel_timer_run _ _ _ _ Hm) in H.
  destruct (timers m !! id) as [s|] eqn:Hid.
  2:{ injection H as <- <- <-. now apply same_store. }
  injection H as <- <- <-. split.
  - split; [|split; [|split]]; try reflexivity.
    + intros h' m' Hm'. destruct (decide (h = h')) as [<-|Hne].
      * rewrite Hm in Hm'. injection Hm' as <-. eexists. split; [apply hsms_store_hsm|]. auto.
      * exists m'. rewrite hsms_store_hsm_ne by exact Hne. auto.
    + intros s' _. cbn [sources store_hsm set_hsms set_sources].
      destruct (decide (s' = s)) as [->|Hne]; [right; apply lookup_delete_eq|].
      left. now apply lookup_delete_ne.
  - intros (Ha & Hb & Hc). destruct (Ha _ _ _ _ Hm Hid) as [ms Hs]. split; [|split].
    + intros h' m' id' s' Hm' Hid'. cbn [sources store_hsm set_hsms set_sources].
      assert (Hold : forall m0, hsms w !! h' = Some m0 -> timers m0 !! id' = Some s' ->
                (h', id') ≠ (h, id) -> context m0 = context m' ->
                exists ms0, delete s (sources w) !! s'
                            = Some (mkSource (context m') ms0 (mkTimerCtx h' id'))).
      { intros m0 Hm0 Hid0 Hneq Hctx. destruct (Ha _ _ _ _ Hm0 Hid0) as [ms0 Hs0].
        exists ms0. rewrite lookup_delete_ne; [now rewrite <- Hctx|].
        intros <-. rewrite Hs in Hs0. injection Hs0 as _ _ <- <-. now apply Hneq. }
      destruct (decide (h = h')) as [<-|Hne].
      * rewrite hsms_store_hsm in Hm'. injection Hm' as <-.
        cbn [timers with_timers context] in *.
        apply lookup_delete_Some in Hid' as [Hnid Hid'].
        apply (Hold m Hm Hid'); [congruence | reflexivity].
      * rewrite hsms_store_hsm_ne in Hm' by exact Hne.
        apply (Hold m' Hm' Hid'); [congruence | reflexivity].
    + intros s'. cbn [sources next_src store_hsm set_hsms set_sources].
      intros [x Hx]. apply lookup_delete_Some in Hx as [_ Hx]. apply Hb. now exists x.
    + intros h' [m' Hm']. cbn [next_hsm store_hsm set_hsms set_sources]. apply Hc.
      destruct (decide (h = h')) as [<-|Hne]; [now exists m|].
      rewrite hsms_store_hsm_ne in Hm' by exact Hne. now exists m'.
Qed.

Lemma sound_hsm_get_state_copy (h : option HsmPtr) : sound (hsm_get_state_copy h).
Proof.
  destruct h as [h|]; [|apply sound_ret]. cbn [hsm_get_state_copy].
  apply sound_bind; [apply sound_emit|intros _].
  apply sound_bind; [apply sound_load_hsm|intros m].
  apply sound_bind; [apply sound_emit|intros _].
  apply sound_bind; [apply sound_emit|intros _]. apply sound_ret.
Qed.

Lemma sound_hsm_get_parent (h : option HsmPtr) : sound (hsm_get_parent h).
Proof.
  destruct h as [h|]; [|apply sound_ret].
  apply sound_bind; [apply sound_load_hsm|intros m]. apply sound_ret.
Qed.

Lemma sound_hsm_register_state h s fn ud : sound (hsm_register_state h s fn ud).
Proof.
  destruct h as [h|], s as [s|]; try apply sound_ret.
  apply sound_update_hsm. intros m. cbn [name context states timers with_states].
  repeat split; auto. set_solver.
Qed.

Lemma sound_hsm_set_parent h p : sound (hsm_set_parent h p).
Proof. destruct h as [h|]; [now apply sound_update_hsm_same | apply sound_ret]. Qed.

Lemma sound_hsm_stop h : sound (hsm_stop h).
Proof.
  destruct h as [h|]; [|apply sound_ret].
  apply sound_bind; [apply sound_load_hsm|intros m].
  destruct (loop_running m); [now apply sound_update_hsm_same | apply sound_ret].
Qed.

Lemma sound_hsm_start h b : sound (hsm_start h b).
Proof.
  destruct h as [h|], b; try apply sound_ret. cbn [hsm_start].
  apply sound_bind; [apply sound_load_hsm|intros m].
  destruct (thread m); [apply sound_ret|].
  apply sound_bind; [|intros t; now apply sound_update_hsm_same].
  intros w a w' t [= <- <- <-]. now apply same_store.
Qed.

Lemma sound_push_thread_default (c : Ctx) : sound (g_main_context_push_thread_default c).
Proof.
  intros w a w' t H. unfold g_main_context_push_thread_default, g_main_context_acquire in H.
  destruct (bool_decide (c ∈ busy w)); injection H as <- <- <-; now apply same_store.
Qed.

Lemma sound_pop_thread_default (c : Ctx) : sound (g_main_context_pop_thread_default c).
Proof.
  unfold g_main_context_pop_thread_default.
  apply sound_bind; [apply sound_get_world|intros w].
  destruct (tds w) as [|top rest]; [apply sound_ret|].
  destruct (decide _); [|apply sound_ret].
  apply sound_bind; [|intros _]; now apply sound_modify.
Qed.

Variable E : Env.
Hypothesis HE : env_sound E.

Lemma sound_invoke_handler fn h s ev ud : sound (invoke_handler E fn h s ev ud).
Proof.
  apply sound_bind; [apply sound_load_event|intros e].
  apply sound_bind; [apply sound_emit|intros _]. apply HE.
Qed.

Lemma sound_invoke c cb : sound (invoke E c cb).
Proof. apply sound_bind; [apply sound_emit|intros _]. apply HE. Qed.

Lemma sound_hsm_change_state_internal h T : sound (hsm_change_state_internal E h T).
Proof.
  apply sound_bind; [apply sound_load_hsm|intros m].
  destruct (g_strcmp0 (current_state m) (Some T) =? 0); [apply sound_ret|].
  apply sound_bind.
  { destruct (current_state m) as [cs|]; [|apply sound_ret].
    destruct (states m !! cs) as [old|]; [|apply sound_ret].
    destruct (st_handler old) as [fn|]; [|apply sound_ret].
    apply sound_bind; [apply sound_hsm_event_new|intros ev].
    apply sound_bind; [apply sound_invoke_handler|intros _]. apply sound_hsm_event_free. }
  intros _. apply sound_bind; [now apply sound_update_hsm_same|intros _].
  apply sound_bind; [apply sound_emit|intros _].
  apply sound_bind; [apply sound_load_hsm|intros m1].
  destruct (states m1 !! T) as [newst|]; [|apply sound_ret].
  destruct (st_handler newst) as [fn|]; [|apply sound_ret].
  apply sound_bind; [apply sound_hsm_event_new|intros ev].
  apply sound_bind; [apply sound_invoke_handler|intros _]. apply sound_hsm_event_free.
Qed.

Lemma sound_hsm_change_state h ns : sound (hsm_change_state E h ns).
Proof.
  destruct h as [h|], ns as [ns|]; try apply sound_ret. cbn [hsm_change_state].
  apply sound_bind; [apply sound_load_hsm|intros m].
  apply sound_bind; [apply sound_get_world|intros w].
  destruct (decide _); [apply sound_hsm_change_state_internal | apply sound_invoke].
Qed.

Lemma sound_hsm_post_event h ev : sound (hsm_post_event E h ev).
Proof.
  destruct h as [h|], ev as [ev|]; try apply sound_ret. cbn [hsm_post_event].
  apply sound_bind; [apply sound_load_hsm|intros m]. apply sound_invoke.
Qed.

Lemma sound_hsm_process_post p : sound (hsm_process_post E p).
Proof.
  unfold hsm_process_post.
  apply sound_bind; [apply sound_load_hsm|intros m].
  apply sound_bind.
  { destruct (current_state m) as [cs|]; [|apply sound_ret].
    destruct (states m !! cs) as [st|]; [|apply sound_ret].
    destruct (st_handler st) as [fn|]; [|apply sound_ret]. apply sound_invoke_handler. }
  intros handled. apply sound_bind; [apply sound_load_hsm|intros m1].
  apply sound_bind; [|intros _; apply sound_ret].
  destruct handled; [apply sound_hsm_event_free|].
  destruct (parent m1) as [par|]; [|apply sound_hsm_event_free].
  apply sound_bind; [apply sound_load_event|intros e].
  apply sound_bind; [apply sound_hsm_event_new|intros copy].
  apply sound_bind; [apply sound_load_hsm|intros pm].
  apply sound_bind; [apply sound_invoke|intros _]. apply sound_hsm_event_free.
Qed.

Lemma sound_run_callback cb : sound (run_callback E cb).
Proof.
  destruct cb as [p|r]; [apply sound_hsm_process_post|].
  apply sound_bind; [apply sound_hsm_change_state_internal|intros _]. apply sound_ret.
Qed.

Lemma sound_hsm_timer_source_cb t : sound (hsm_timer_source_cb E t).
Proof.
  apply sound_bind; [apply sound_load_hsm|intros m].
  apply sound_bind; [apply sound_hsm_event_new|intros ev].
  apply sound_bind; [apply sound_hsm_post_event|intros _].
  apply sound_bind; [|intros _; apply sound_ret].
  apply sound_update_hsm. intros m0. cbn [name context states timers with_timers].
  repeat split; auto. apply delete_subseteq.
Qed.

Lemma sound_g_timeout_dispatch s : sound (g_timeout_dispatch E s).
Proof.
  intros w a w' tr H.
  destruct (sources w !! s) as [src|] eqn:Hs.
  2:{ unfold g_timeout_dispatch, get_world, bind in H. rewrite Hs in H. discriminate. }
  destruct a.
  destruct (proj1 (timeout_dispatch_iff E s src w w' tr Hs) H) as (w1 & Hf & Hw'). subst w'.
  assert (Hcb : hsm_timer_source_cb E (src_data src) w = Some (G_SOURCE_REMOVE, w1, tr))
    by (now apply timer_source_cb_iff).
  destruct (sound_hsm_timer_source_cb _ _ _ _ _ Hcb) as [He Hw].
  split.
  - apply (evolves_trans w w1); [exact He|].
    split; [|split; [|split]]; try reflexivity.
    + intros h m Hm. exists m. auto.
    + intros s' _. cbn [sources set_sources].
      destruct (decide (s' = s)) as [->|Hne]; [right; apply lookup_delete_eq|].
      left. now apply lookup_delete_ne.
  - intros Hwf. pose proof (Hw Hwf) as (Ha & Hb & Hc).
    destruct Hwf as (Ha0 & Hb0 & Hc0). split; [|split].
    + intros h m id s' Hm Hid. cbn [hsms sources set_sources] in *.
      destruct (Ha _ _ _ _ Hm Hid) as [ms Hs'].
      exists ms. rewrite lookup_delete_ne; [exact Hs'|].
      intros <-. destruct He as (_ & _ & _ & Hk).
      destruct (Hk s ltac:(apply Hb0; eauto)) as [Hx|Hx];
        [|pose proof (eq_trans (eq_sym Hx) Hs'); discriminate].
      pose proof (eq_trans (eq_sym Hs) (eq_trans (eq_sym Hx) Hs')) as Hsrc.
      injection Hsrc as ->.
      destruct Hf as [w0 m0 w2 ti m2 Hm0 Hg Hm2]. cbn [src_data t_h t_timer_id] in *.
      rewrite hsms_store_hsm in Hm. injection Hm as <-.
      cbn [timers with_timers] in Hid. rewrite lookup_delete_eq in Hid. discriminate.
    + intros s'. cbn [sources next_src set_sources].
      intros [x Hx]. apply lookup_delete_Some in Hx as [_ Hx]. apply Hb. now exists x.
    + exact Hc.
Qed.

Lemma sound_run_prog (p : Prog) : sound (run_prog E p).
Proof.
  induction p as [b|h' ns k IH|h' ty nm data source seq k IH|h' ms k IH|h' id k IH|h' k IH
                  |h' k IH|h' s fn ud k IH|h' p' k IH|h' k IH|a k IH|a v k IH];
    cbn [run_prog].
  - apply sound_ret.
  - apply sound_bind; [apply sound_hsm_change_state | intros _; exact IH].
  - apply sound_bind; [apply sound_hsm_event_new|]. intros ev.
    apply sound_bind; [apply sound_hsm_post_event | intros _; exact IH].
  - apply sound_bind; [apply sound_hsm_schedule_timer | intros id; apply IH].
  - apply sound_bind; [apply sound_hsm_cancel_timer | intros b; apply IH].
  - apply sound_bind; [apply sound_hsm_get_state_copy | intros s; apply IH].
  - apply sound_bind; [apply sound_hsm_get_parent | intros p; apply IH].
  - apply sound_bind; [apply sound_hsm_register_state | intros _; exact IH].
  - apply sound_bind; [apply sound_hsm_set_parent | intros _; exact IH].
  - apply sound_bind; [apply sound_hsm_stop | intros _; exact IH].
  - apply sound_bind; [apply sound_get_world | intros w; apply IH].
  - apply sound_bind; [now apply sound_modify | intros _; exact IH].
Qed.

Lemma sound_run_activity (a : Activity) : sound (run_activity E a).
Proof.
  destruct a as [p|s|c]; cbn [run_activity].
  - apply sound_bind; [apply sound_run_prog | intros _; apply sound_ret].
  - apply sound_g_timeout_dispatch.
  - apply sound_bind; [apply sound_get_world|]. intros w.
    destruct (take_pending c (pending w)) as [[cb rest]|]; [|apply sound_undefined].
    apply sound_bind; [now apply sound_modify|]. intros _.
    apply sound_bind; [apply sound_run_callback | intros _; apply sound_ret].
Qed.

Lemma sound_run_activities (l : list Activity) : sound (run_activities E l).
Proof.
  induction l as [|a l IH]; cbn [run_activities]; [apply sound_ret|].
  apply sound_bind; [apply sound_run_activity | intros _; exact IH].
Qed.

End Soundness.

Lemma sound_glib_main_context_invoke (direct : Callback -> M bool) c cb :
  (forall cb', sound (direct cb')) -> sound (glib_main_context_invoke direct c cb).
Proof.
  intros Hd. unfold glib_main_context_invoke.
  apply sound_bind; [apply sound_get_world|]. intros w.
  destruct (bool_decide _).
  - apply sound_bind; [apply Hd | intros _; apply sound_ret].
  - destruct (_ && _).
    + apply sound_bind; [now apply sound_modify|]. intros _.
      apply sound_bind; [apply Hd | intros _; now apply sound_modify].
    + now apply sound_modify.
Qed.

Lemma sound_glib_dispatch_idle (direct : Callback -> M bool) c :
  (forall cb', sound (direct cb')) -> sound (glib_dispatch_idle direct c).
Proof.
  intros Hd. unfold glib_dispatch_idle.
  apply sound_bind; [apply sound_get_world|]. intros w.
  destruct (take_pending _ _) as [[cb rest]|]; [|apply sound_ret].
  apply sound_bind; [now apply sound_modify|]. intros _.
  apply sound_bind; [apply Hd | intros _; apply sound_ret].
Qed.

Lemma sound_glib_loop_iterate (direct : Callback -> M bool) (fire : SrcPtr -> M unit) n h :
  (forall cb', sound (direct cb')) -> (forall s, sound (fire s)) ->
  sound (glib_loop_iterate direct fire n h).
Proof.
  intros Hd Hf. induction n as [|n IH]; cbn [glib_loop_iterate]; [apply sound_undefined|].
  apply sound_bind; [apply sound_load_hsm|]. intros m.
  destruct (loop_running m); [|apply sound_ret].
  apply sound_bind; [apply sound_get_world|]. intros w.
  destruct (due w) as [|[s|] later].
  - apply sound_bind; [now apply sound_glib_dispatch_idle | intros _; exact IH].
  - apply sound_bind; [now apply sound_modify|]. intros _.
    apply sound_bind; [|intros _; exact IH].
    destruct (sources w !! s) as [src|]; [|apply sound_ret].
    destruct (decide _); [apply Hf | apply sound_ret].
  - apply sound_bind; [now apply sound_modify|]. intros _.
    apply sound_bind; [now apply sound_glib_dispatch_idle | intros _; exact IH].
Qed.

Lemma sound_glib_main_loop_run (direct : Callback -> M bool) (fire : SrcPtr -> M unit) n h :
  (forall cb', sound (direct cb')) -> (forall s, sound (fire s)) ->
  sound (glib_main_loop_run direct fire n h).
Proof.
  intros Hd Hf. unfold glib_main_loop_run.
  apply sound_bind; [apply sound_load_hsm|]. intros m.
  apply sound_bind; [now apply sound_modify|]. intros _.
  apply sound_bind; [now apply sound_update_hsm_same|]. intros _.
  apply sound_bind; [|intros _; now apply sound_modify].
  now apply sound_glib_loop_iterate.
Qed.

Lemma sound_hsm_run (E : Env) (h : option HsmPtr) :
  (forall h', sound (g_main_loop_run E h')) -> sound (hsm_run E h).
Proof.
  intros Hl. destruct h as [h|]; [|apply sound_ret]. cbn [hsm_run].
  apply sound_bind; [apply sound_load_hsm|intros m].
  apply sound_bind; [apply sound_push_thread_default|intros _].
  apply sound_bind; [now apply sound_update_hsm_same|intros _].
  apply sound_bind; [apply Hl|intros _].
  apply sound_bind; [now apply sound_update_hsm_same|intros _].
  apply sound_bind; [apply sound_load_hsm|intros m1]. apply sound_pop_thread_default.
Qed.

Lemma with_glib_loop_sound (E : Env) (n : nat) (h : option HsmPtr) :
  env_sound E -> sound (hsm_run (with_glib_loop E n) h).
Proof.
  intros HE. apply sound_hsm_run. intros h'. cbn [with_glib_loop g_main_loop_run].
  apply sound_glib_main_loop_run; intros; [now apply sound_run_callback|].
  now apply sound_g_timeout_dispatch.
Qed.

Lemma runtime_sound (code : Code) (fuel : nat) : env_sound (runtime code fuel).
Proof.
  induction fuel as [|n IH]; cbn [runtime].
  - split; cbn [call_handler g_main_context_invoke].
    + intros; apply sound_undefined.
    + intros. apply sound_glib_main_context_invoke. intros; apply sound_undefined.
  - split; cbn [call_handler g_main_context_invoke].
    + intros fn h' s ev ud.
      apply sound_bind; [apply sound_load_event|]. intros e. now apply sound_run_prog.
    + intros c cb. apply sound_glib_main_context_invoke. intros cb'.
      now apply sound_run_callback.
Qed.

(** X13. Nothing but [hsm_destroy] releases a machine, and nothing renames
    one, moves it to another context or removes a state from its registry:
    each of the following steps leaves every machine allocated, with the
    name and the context it had and at least the state names it had, and
    so does any succession of them.  [hsm_start] does; [hsm_new] does, and
    returns an address that is not in use, in a store whose allocation
    mark lies above the machines in use.  Provided the handlers, and what
    [g_main_context_invoke] runs, are sound (they keep the machines in
    this way, move the allocation marks forward only, leave a source
    allocated before as it was or destroy it, and keep a consistent store
    consistent), so does any sequence of calls by the application (of
    [hsm_change_state], [hsm_post_event], [hsm_schedule_timer],
    [hsm_cancel_timer], [hsm_register_state], [hsm_set_parent], [hsm_stop]
    and the queries), timer firings and dispatches of posted callbacks, and
    so does [hsm_run] on GLib's loop, in which posted callbacks are
    dispatched and timers fire. *)
Theorem machines_persist (E : Env) :
  (forall w1 w2 w3, machines_kept w1 w2 -> machines_kept w2 w3 -> machines_kept w1 w3) /\
  (forall h b w w' tr, hsm_start h b w = Some (tt, w', tr) -> machines_kept w w') /\
  (forall nm own w h w' tr,
     (forall h0, is_Some (hsms w !! h0) -> (h0 < next_hsm w)%positive) ->
     hsm_new nm own w = Some (h, w', tr) ->
     hsms w !! h = None /\ machines_kept w w') /\
  ((forall fn h s ev ud, sound (call_handler E fn h s ev ud)) ->
   (forall c cb, sound (g_main_context_invoke E c cb)) ->
   (forall l w w' tr, run_activities E l w = Some (tt, w', tr) -> machines_kept w w') /\
   (forall n h w w' tr,
      hsm_run (with_glib_loop E n) h w = Some (tt, w', tr) -> machines_kept w w')).
Proof.
  split; [|split; [|split]].
  - intros w1 w2 w3 H12 H23 h m Hm.
    destruct (H12 h m Hm) as (m2 & Hm2 & Hn2 & Hc2 & Hd2).
    destruct (H23 h m2 Hm2) as (m3 & Hm3 & Hn3 & Hc3 & Hd3).
    exists m3. split; [exact Hm3|]. split; [congruence|]. split; [congruence|].
    etransitivity; eassumption.
  - intros h b w w' tr H. exact (proj1 (proj1 (sound_hsm_start h b _ _ _ _ H))).
  - intros nm own w h w' tr Hfresh H. unfold hsm_new in H. injection H as <- <- <-.
    assert (Hnh : next_hsm (if own then bump_ctx w else w) = next_hsm w) by now destruct own.
    assert (Hhs : hsms (if own then bump_ctx w else w) = hsms w) by now destruct own.
    assert (Hnone : hsms w !! next_hsm w = None).
    { destruct (hsms w !! next_hsm w) eqn:Hx; [|reflexivity].
      assert (next_hsm w < next_hsm w)%positive by (apply Hfresh; eauto). lia. }
    rewrite Hnh. split; [exact Hnone|].
    intros h0 m Hm. exists m. cbn [hsms bump_hsm set_hsms]. rewrite Hhs.
    rewrite lookup_insert_ne; [auto|]. intros <-.
    pose proof (eq_trans (eq_sym Hnone) Hm). discriminate.
  - intros Hh Hi. split.
    + intros l w w' tr H.
      exact (proj1 (proj1 (sound_run_activities E (conj Hh Hi) l _ _ _ _ H))).
    + intros n h w w' tr H.
      exact (proj1 (proj1 (with_glib_loop_sound E n h (conj Hh Hi) _ _ _ _ H))).
Qed.

Lemma empty_world_wf : store_wf empty_world.
Proof.
  split; [|split].
  - intros h m id s Hm. cbn [hsms empty_world] in Hm. now rewrite lookup_empty in Hm.
  - intros s [x Hx]. cbn [sources empty_world] in Hx. now rewrite lookup_empty in Hx.
  - intros h [x Hx]. cbn [hsms empty_world] in Hx. now rewrite lookup_empty in Hx.
Qed.

Lemma hsm_new_wf (nm : option string) (own : bool) (w : World) (h : HsmPtr) (w' : World)
    (tr : Trace) :
  store_wf w ->
  hsm_new nm own w = Some (h, w', tr) ->
  store_wf w' /\ hsms w !! h = None /\
  (forall h0, h0 ≠ h -> hsms w' !! h0 = hsms w !! h0) /\ sources w' = sources w.
Proof.
  intros (Ha & Hb & Hc) H. unfold hsm_new in H. injection H as <- <- <-.
  assert (Hnh : next_hsm (if own then bump_ctx w else w) = next_hsm w) by now destruct own.
  assert (Hhs : hsms (if own then bump_ctx w else w) = hsms w) by now destruct own.
  assert (Hss : sources (if own then bump_ctx w else w) = sources w) by now destruct own.
  assert (Hns : next_src (if own then bump_ctx w else w) = next_src w) by now destruct own.
  assert (Hfresh : hsms w !! next_hsm w = None).
  { destruct (hsms w !! next_hsm w) eqn:Hx; [|reflexivity].
    assert (next_hsm w < next_hsm w)%positive by (apply Hc; eauto). lia. }
  rewrite Hnh. split; [|split; [exact Hfresh|split]].
  - split; [|split].
    + intros h m id s Hm Hid. cbn [hsms sources bump_hsm set_hsms] in *.
      rewrite Hhs in Hm. rewrite Hss.
      destruct (decide (h = next_hsm w)) as [->|Hne].
      * rewrite lookup_insert_eq in Hm. injection Hm as <-.
        cbn [timers] in Hid. now rewrite lookup_empty in Hid.
      * rewrite lookup_insert_ne in Hm by congruence. now apply (Ha h m id s).
    + intros s. cbn [sources next_src bump_hsm set_hsms]. rewrite Hss, Hns. apply Hb.
    + intros h [m Hm]. cbn [hsms next_hsm bump_hsm set_hsms] in *. rewrite Hhs in Hm.
      rewrite Hnh. destruct (decide (h = next_hsm w)) as [->|Hne]; [lia|].
      rewrite lookup_insert_ne in Hm by congruence.
      assert (h < next_hsm w)%positive by (apply Hc; eauto). lia.
  - intros h0 Hne. cbn [hsms bump_hsm set_hsms]. rewrite Hhs.
    now rewrite lookup_insert_ne by congruence.
  - cbn [sources bump_hsm set_hsms]. exact Hss.
Qed.


(** X14. The timer tables and GLib's sources stay consistent: every entry
    of a machine's timer table names a timeout source that is attached, to
    that machine's context, and whose callback data are that machine and
    the id of the entry (and the machines and sources in use lie below the
    allocation marks).  This is so in the empty store, and stays so after
    [hsm_new] (which returns a machine not allocated before and leaves the
    others as they are) and after [hsm_start].  Provided the handlers, and
    what [g_main_context_invoke] runs, are sound (they keep the machines
    with their names, contexts and state names, move the allocation marks
    forward only, leave a source allocated before as it was or destroy it,
    and keep a consistent store consistent), it stays so over any sequence
    of calls by the application (of [hsm_change_state], [hsm_post_event],
    [hsm_schedule_timer], [hsm_cancel_timer], [hsm_register_state],
    [hsm_set_parent], [hsm_stop] and the queries), timer firings and
    dispatches of posted callbacks, and over [hsm_run] on GLib's loop, in
    which posted callbacks are dispatched and timers fire. *)
Theorem timer_tables_stay_consistent (E : Env) :
  store_wf empty_world /\
  (forall nm own w h w' tr,
     store_wf w -> hsm_new nm own w = Some (h, w', tr) ->
     store_wf w' /\ hsms w !! h = None /\
     (forall h0, h0 ≠ h -> hsms w' !! h0 = hsms w !! h0)) /\
  (forall h b w w' tr,
     store_wf w -> hsm_start h b w = Some (tt, w', tr) -> store_wf w') /\
  ((forall fn h s ev ud, sound (call_handler E fn h s ev ud)) ->
   (forall c cb, sound (g_main_context_invoke E c cb)) ->
   (forall l w w' tr,
      store_wf w ->
      run_activities E l w = Some (tt, w', tr) ->
      store_wf w' /\
      forall h m id s, hsms w' !! h = Some m -> timers m !! id = Some s ->
        exists ms, sources w' !! s = Some (mkSource (context m) ms (mkTimerCtx h id))) /\
   (forall n h0 w w' tr,
      store_wf w ->
      hsm_run (with_glib_loop E n) h0 w = Some (tt, w', tr) ->
      store_wf w' /\
      forall h m id s, hsms w' !! h = Some m -> timers m !! id = Some s ->
        exists ms, sources w' !! s = Some (mkSource (context m) ms (mkTimerCtx h id)))).
Proof.
  split; [exact empty_world_wf|]. split; [|split].
  - intros nm own w h w' tr Hwf H.
    destruct (hsm_new_wf nm own w h w' tr Hwf H) as (? & ? & ? & _). auto.
  - intros h b w w' tr Hwf H. exact (proj2 (sound_hsm_start h b _ _ _ _ H) Hwf).
  - intros Hh Hi. split.
    + intros l w w' tr Hwf H.
      pose proof (proj2 (sound_run_activities E (conj Hh Hi) l _ _ _ _ H) Hwf) as Hwf'.
      split; [exact Hwf' | exact (proj1 Hwf')].
    + intros n h0 w w' tr Hwf H.
      pose proof (proj2 (with_glib_loop_sound E n h0 (conj Hh Hi) _ _ _ _ H) Hwf) as Hwf'.
      split; [exact Hwf' | exact (proj1 Hwf')].
Qed.

(** X15. In a consistent store, cancelling a timer touches that timer
    only: every other entry, of this machine or of another one, keeps its
    source, which is another source than the one destroyed and stays
    attached, and the store is consistent again. *)
Theorem cancel_spares_other_timers (w : World) (h : HsmPtr) (m : Hsm) (id : Z) (s : SrcPtr) :
  store_wf w ->
  hsms w !! h = Some m ->
  timers m !! id = Some s ->
  exists w',
    hsm_cancel_timer (Some h) id w = Some (true, w', []) /\
    store_wf w' /\
    forall h' m' id' s',
      hsms w !! h' = Some m' -> timers m' !! id' = Some s' -> (h', id') ≠ (h, id) ->
      s' ≠ s /\ is_Some (sources w' !! s') /\ sources w' !! s' = sources w !! s' /\
      exists m'', hsms w' !! h' = Some m'' /\ timers m'' !! id' = Some s'.
Proof.
  intros Hwf Hm Hid.
  pose proof (hsm_cancel_timer_run w h m id Hm) as Hrun.
  assert (Hrun' : hsm_cancel_timer (Some h) id w
                  = Some (true, store_hsm h (with_timers (delete id (timers m)) m)
                                  (set_sources (delete s) w), [])).
  { rewrite Hrun. replace (timers m !! id) with (Some s). reflexivity. }
  eexists. split; [exact Hrun'|].
  split; [exact (proj2 (sound_hsm_cancel_timer _ _ _ _ _ _ Hrun') Hwf)|].
  destruct Hwf as (Ha & Hb & Hc). destruct (Ha _ _ _ _ Hm Hid) as [ms Hs].
  intros h' m' id' s' Hm' Hid' Hne.
  destruct (Ha _ _ _ _ Hm' Hid') as [ms' Hs'].
  assert (Hss : s' ≠ s).
  { intros ->. pose proof (eq_trans (eq_sym Hs) Hs') as Heq.
    injection Heq as _ _ <- <-. now apply Hne. }
  assert (Hsrc : sources (store_hsm h (with_timers (delete id (timers m)) m)
                            (set_sources (delete s) w)) !! s' = sources w !! s').
  { cbn [sources store_hsm set_hsms set_sources]. now apply lookup_delete_ne. }
  split; [exact Hss|]. split; [|split; [exact Hsrc|]].
  - apply (eq_ind_r is_Some (mk_is_Some _ _ Hs') Hsrc).
  - destruct (decide (h = h')) as [<-|Hnh].
    + eexists. split; [apply hsms_store_hsm|]. cbn [timers with_timers].
      pose proof (eq_trans (eq_sym Hm) Hm') as Heq. injection Heq as <-.
      apply lookup_delete_Some. split; [congruence | exact Hid'].
    + exists m'. split; [|exact Hid']. now rewrite hsms_store_hsm_ne.
Qed.

(** X16. In a consistent store, the source recorded under an id in a
    machine's timer table is that timer's: when GLib dispatches it, the
    TIMEOUT event that is posted carries this id and the machine's name and
    goes to this machine on its context, after which the entry of the id
    and the source are gone. *)
Theorem recorded_timer_fires_for_its_machine (E : Env) (w : World) (h : HsmPtr) (m : Hsm)
    (id : Z) (s : SrcPtr) :
  store_wf w ->
  hsms w !! h = Some m ->
  timers m !! id = Some s ->
  forall w' tr,
    g_timeout_dispatch E s w = Some (tt, w', tr) <->
    exists w3 ti m3,
      g_main_context_invoke E (context m) (CbProcessPost (mkPost h (next_ev w)))
        (alloc_event (timeout_event m id) w) = Some (tt, w3, ti) /\
      hsms w3 !! h = Some m3 /\
      tr = OInvoke (context m) (CbProcessPost (mkPost h (next_ev w))) :: ti /\
      w' = set_sources (delete s)
             (store_hsm h (with_timers (delete id (timers m3)) m3) w3).
Proof.
  intros (Ha & _ & _) Hm Hid w' tr. destruct (Ha _ _ _ _ Hm Hid) as [ms Hs].
  rewrite (timeout_dispatch_iff E s _ w w' tr Hs). cbn [src_data]. split.
  - intros (w1 & Hf & ->). destruct Hf as [w0 m0 w3 ti m3 Hm0 Hg Hm3].
    cbn [t_h t_timer_id] in *.
    pose proof (eq_trans (eq_sym Hm) Hm0) as Heq. injection Heq as <-.
    now exists w3, ti, m3.
  - intros (w3 & ti & m3 & Hg & Hm3 & -> & ->). eexists. split; [|reflexivity].
    now apply (timer_fires_post E (mkTimerCtx h id) w m w3 ti m3).
Qed.


(** ** Requests made on and off the machine's context *)

Lemma glib_invoke_owned (direct : Callback -> M bool) (c : Ctx) (cb : Callback) (w : World) :
  c ∈ owned w ->
  glib_main_context_invoke direct c cb w
  = match direct cb w with
    | Some (_, w', t) => Some (tt, w', t)
    | None => None
    end.
Proof.
  intros Hown. unfold glib_main_context_invoke, get_world. unfold bind at 1.
  rewrite bool_decide_eq_true_2 by exact Hown. unfold bind, ret.
  destruct (direct cb w) as [[[b w'] t]|]; [|reflexivity].
  cbn [app]. now rewrite app_nil_r.
Qed.

Lemma glib_invoke_acquired (direct : Callback -> M bool) (c : Ctx) (cb : Callback)
    (w : World) :
  c ∉ owned w ->
  default g_main_context_default (g_main_context_get_thread_default w) = c ->
  c ∉ busy w ->
  glib_main_context_invoke direct c cb w
  = match direct cb (set_owned (cons c) w) with
    | Some (_, w', t) => Some (tt, set_owned (remove_first c) w', t)
    | None => None
    end.
Proof.
  intros Hown Htd Hbusy. unfold glib_main_context_invoke, get_world. unfold bind at 1.
  rewrite bool_decide_eq_false_2 by exact Hown.
  rewrite (bool_decide_eq_true_2 _ Htd), (bool_decide_eq_false_2 _ Hbusy).
  cbn [andb negb]. unfold modify at 1. unfold bind at 1. unfold bind at 1.
  destruct (direct cb (set_owned (cons c) w)) as [[[b w'] t]|]; [|reflexivity].
  unfold g_main_context_release, modify. cbn [app]. now rewrite app_nil_r.
Qed.

Lemma glib_invoke_queued (direct : Callback -> M bool) (c : Ctx) (cb : Callback) (w : World) :
  c ∉ owned w ->
  default g_main_context_default (g_main_context_get_thread_default w) ≠ c \/ c ∈ busy w ->
  glib_main_context_invoke direct c cb w
  = Some (tt, set_pending (fun q => q ++ [(c, cb)]) w, []).
Proof.
  intros Hown Hor. unfold glib_main_context_invoke, get_world. unfold bind at 1.
  rewrite bool_decide_eq_false_2 by exact Hown.
  destruct Hor as [Htd|Hbusy].
  - rewrite (bool_decide_eq_false_2 _ Htd). reflexivity.
  - rewrite (bool_decide_eq_true_2 _ Hbusy). cbn [negb]. rewrite andb_false_r. reflexivity.
Qed.

Lemma transition_commit_point (E : Env) (w : World) (h : HsmPtr) (m : Hsm) (T : string)
    (w' : World) (tr : Trace) :
  hsms w !! h = Some m ->
  current_state m ≠ Some T ->
  hsm_change_state_internal E h T w = Some (tt, w', tr) ->
  exists tx w1 wc mc te,
    exit_step E h m w w1 tx /\
    hsms wc !! h = Some mc /\ current_state mc = Some T /\
    (forall h', h' ≠ h -> hsms wc !! h' = hsms w1 !! h') /\
    synth_step E HSM_EVT_ENTRY h T mc wc w' te /\
    tr = tx ++ OCommit h T :: te.
Proof.
  intros Hm Hne H. apply (transition_iff E w h m T w' tr Hm Hne) in H.
  destruct H as [w0 m0 w1 tx m1 w3 te Hm0 Hx Hm1 He].
  rewrite Hm in Hm0. injection Hm0 as <-.
  exists tx, w1, (store_hsm h (with_current_state (Some T) m1) w1),
         (with_current_state (Some T) m1), te.
  split; [exact Hx|]. split; [apply hsms_store_hsm|]. split; [reflexivity|].
  split; [intros h' Hh'; apply hsms_store_hsm_ne; congruence|]. split; [exact He | reflexivity].
Qed.

(** X17. [hsm_change_state] and [hsm_post_change_state] are the same
    function.  Called by a thread whose default context is the machine's,
    they carry the transition out before they return: a request for
    another state than the current one has written [current_state] by
    then, and the ENTRY step has started from a store in which the machine
    reads that state.  Otherwise they hand the request to
    [g_main_context_invoke], and GLib decides: it runs the transition at
    once when the caller owns the context; it also does when the context is
    the global default one, the caller has no default context of its own
    and no other thread has the context, which it then acquires for the
    call; in every other case it queues the request on the context, and
    the call returns with the store as it was but for the queue, no handler
    called.  The transition then takes place when the context dispatches
    the request. *)
Theorem change_state_runs_or_posts (code : Code) (fuel : nat) (w : World) (h : HsmPtr)
    (m : Hsm) (T : string) :
  hsms w !! h = Some m ->
  hsm_post_change_state (runtime code (S fuel)) (Some h) (Some T) w
  = hsm_change_state (runtime code (S fuel)) (Some h) (Some T) w /\
  (g_main_context_get_thread_default w = Some (context m) ->
   hsm_change_state (runtime code (S fuel)) (Some h) (Some T) w
   = hsm_change_state_internal (runtime code (S fuel)) h T w /\
   (current_state m ≠ Some T ->
    forall w' tr,
      hsm_change_state (runtime code (S fuel)) (Some h) (Some T) w = Some (tt, w', tr) ->
      exists tx w1 wc mc te,
        exit_step (runtime code (S fuel)) h m w w1 tx /\
        hsms wc !! h = Some mc /\ current_state mc = Some T /\
        (forall h', h' ≠ h -> hsms wc !! h' = hsms w1 !! h') /\
        synth_step (runtime code (S fuel)) HSM_EVT_ENTRY h T mc wc w' te /\
        tr = tx ++ OCommit h T :: te)) /\
  (g_main_context_get_thread_default w ≠ Some (context m) ->
   context m ∈ owned w ->
   hsm_change_state (runtime code (S fuel)) (Some h) (Some T) w
   = match hsm_change_state_internal (runtime code fuel) h T w with
     | Some (_, w', t) =>
         Some (tt, w', OInvoke (context m) (CbChangeState (mkChangeReq h T)) :: t)
     | None => None
     end) /\
  (g_main_context_get_thread_default w = None ->
   context m = g_main_context_default ->
   context m ∉ owned w ->
   context m ∉ busy w ->
   hsm_change_state (runtime code (S fuel)) (Some h) (Some T) w
   = match hsm_change_state_internal (runtime code fuel) h T
             (set_owned (cons (context m)) w) with
     | Some (_, w', t) =>
         Some (tt, set_owned (remove_first (context m)) w',
               OInvoke (context m) (CbChangeState (mkChangeReq h T)) :: t)
     | None => None
     end /\
   owned (set_owned (cons (context m)) w) = context m :: owned w /\
   forall w', owned (set_owned (remove_first (context m)) w')
              = remove_first (context m) (owned w')) /\
  (g_main_context_get_thread_default w ≠ Some (context m) ->
   context m ∉ owned w ->
   default g_main_context_default (g_main_context_get_thread_default w) ≠ context m
   \/ context m ∈ busy w ->
   hsm_change_state (runtime code (S fuel)) (Some h) (Some T) w
   = Some (tt, set_pending (fun q => q ++ [(context m, CbChangeState (mkChangeReq h T))]) w,
           [OInvoke (context m) (CbChangeState (mkChangeReq h T))]) /\
   hsms (set_pending (fun q => q ++ [(context m, CbChangeState (mkChangeReq h T))]) w) !! h
   = Some m /\
   pending (set_pending (fun q => q ++ [(context m, CbChangeState (mkChangeReq h T))]) w)
   = pending w ++ [(context m, CbChangeState (mkChangeReq h T))]) /\
  (forall E w1 r,
     run_callback E (CbChangeState (mkChangeReq h T)) w1 = Some r <->
     exists w2 t, hsm_change_state_internal E h T w1 = Some (tt, w2, t) /\
                  r = (G_SOURCE_REMOVE, w2, t)).
Proof.
  intros Hm. split; [reflexivity|].
  assert (Hcs : forall E, hsm_change_state E (Some h) (Some T) w
                = if decide (g_main_context_get_thread_default w = Some (context m))
                  then hsm_change_state_internal E h T w
                  else invoke E (context m) (CbChangeState (mkChangeReq h T)) w).
  { intros E. cbn [hsm_change_state].
    rewrite (bind_run _ _ _ _ _ _ (load_hsm_run _ _ _ Hm)).
    unfold get_world at 1. unfold bind at 1.
    destruct (decide (g_main_context_get_thread_default w = Some (context m))).
    - destruct (hsm_change_state_internal E h T w) as [[[x w'] t]|]; reflexivity.
    - destruct (invoke E (context m) (CbChangeState (mkChangeReq h T)) w) as [[[x w'] t]|];
        reflexivity. }
  assert (Hcb : forall w0,
             run_callback (runtime code fuel) (CbChangeState (mkChangeReq h T)) w0
             = match hsm_change_state_internal (runtime code fuel) h T w0 with
               | Some (_, w', t) => Some (G_SOURCE_REMOVE, w', t)
               | None => None
               end).
  { intros w0. cbn [run_callback]. unfold hsm_change_state_invoke_cb, bind, ret.
    cbn [cr_h cr_ns].
    destruct (hsm_change_state_internal (runtime code fuel) h T w0) as [[[x w'] t]|];
      [|reflexivity].
    now rewrite app_nil_r. }
  split; [|split; [|split; [|split]]].
  - intros Htd.
    assert (Heq : hsm_change_state (runtime code (S fuel)) (Some h) (Some T) w
                  = hsm_change_state_internal (runtime code (S fuel)) h T w).
    { rewrite Hcs. now rewrite decide_True. }
    split; [exact Heq|]. intros Hne w' tr H. rewrite Heq in H.
    exact (transition_commit_point _ _ _ _ _ _ _ Hm Hne H).
  - intros Htd Hown. rewrite Hcs, decide_False by exact Htd.
    rewrite invoke_run. cbn [runtime g_main_context_invoke].
    rewrite (glib_invoke_owned _ _ _ _ Hown), Hcb.
    destruct (hsm_change_state_internal (runtime code fuel) h T w) as [[[x w'] t]|];
      reflexivity.
  - intros Htd Hdef Hown Hbusy. split; [|split; [reflexivity|intros w'; reflexivity]].
    rewrite Hcs, decide_False by (rewrite Htd; discriminate).
    rewrite invoke_run. cbn [runtime g_main_context_invoke].
    rewrite (glib_invoke_acquired _ _ _ _ Hown); [|now rewrite Htd|exact Hbusy].
    rewrite Hcb.
    destruct (hsm_change_state_internal (runtime code fuel) h T
                (set_owned (cons (context m)) w)) as [[[x w'] t]|]; reflexivity.
  - intros Htd Hown Hor. split; [|split; [exact Hm|reflexivity]].
    rewrite Hcs, decide_False by exact Htd.
    rewrite invoke_run. cbn [runtime g_main_context_invoke].
    now rewrite (glib_invoke_queued _ _ _ _ Hown Hor).
  - intros E w1 r. cbn [run_callback]. unfold hsm_change_state_invoke_cb, bind, ret.
    cbn [cr_h cr_ns]. split.
    + destruct (hsm_change_state_internal E h T w1) as [[[[] w2] t]|]; [|discriminate].
      intros [= <-]. exists w2, t. now rewrite app_nil_r.
    + intros (w2 & t & -> & ->). now rewrite app_nil_r.
Qed.

(** X18. [hsm_post_event] never dispatches by itself: it hands the event
    to [g_main_context_invoke] on the machine's context, and GLib decides.
    It dispatches at once when the caller owns the context, and also when
    the context is the caller's default one (the global default context
    for a caller that has none of its own) and no other thread has it, the
    context being acquired for the call: then the event has been handled
    and released by the time [hsm_post_event] returns.  In every other case
    the dispatch is queued on the context and the call returns with the
    store as it was but for the queue: the event still allocated, no
    handler called. *)
Theorem post_event_runs_or_queues (code : Code) (fuel : nat) (w : World) (h : HsmPtr)
    (m : Hsm) (ev : EvPtr) :
  hsms w !! h = Some m ->
  (context m ∈ owned w ->
   hsm_post_event (runtime code (S fuel)) (Some h) (Some ev) w
   = match hsm_process_post (runtime code fuel) (mkPost h ev) w with
     | Some (_, w', t) =>
         Some (tt, w', OInvoke (context m) (CbProcessPost (mkPost h ev)) :: t)
     | None => None
     end /\
   forall w' tr,
     hsm_post_event (runtime code (S fuel)) (Some h) (Some ev) w = Some (tt, w', tr) ->
     events w' !! ev = None) /\
  (context m ∉ owned w ->
   default g_main_context_default (g_main_context_get_thread_default w) = context m ->
   context m ∉ busy w ->
   hsm_post_event (runtime code (S fuel)) (Some h) (Some ev) w
   = match hsm_process_post (runtime code fuel) (mkPost h ev)
             (set_owned (cons (context m)) w) with
     | Some (_, w', t) =>
         Some (tt, set_owned (remove_first (context m)) w',
               OInvoke (context m) (CbProcessPost (mkPost h ev)) :: t)
     | None => None
     end /\
   owned (set_owned (cons (context m)) w) = context m :: owned w /\
   (forall w', owned (set_owned (remove_first (context m)) w')
               = remove_first (context m) (owned w')) /\
   forall w' tr,
     hsm_post_event (runtime code (S fuel)) (Some h) (Some ev) w = Some (tt, w', tr) ->
     events w' !! ev = None) /\
  (context m ∉ owned w ->
   default g_main_context_default (g_main_context_get_thread_default w) ≠ context m
   \/ context m ∈ busy w ->
   hsm_post_event (runtime code (S fuel)) (Some h) (Some ev) w
   = Some (tt, set_pending (fun q => q ++ [(context m, CbProcessPost (mkPost h ev))]) w,
           [OInvoke (context m) (CbProcessPost (mkPost h ev))]) /\
   events (set_pending (fun q => q ++ [(context m, CbProcessPost (mkPost h ev))]) w) !! ev
   = events w !! ev /\
   pending (set_pending (fun q => q ++ [(context m, CbProcessPost (mkPost h ev))]) w)
   = pending w ++ [(context m, CbProcessPost (mkPost h ev))]).
Proof.
  intros Hm.
  assert (Hpe : forall E, hsm_post_event E (Some h) (Some ev) w
                = invoke E (context m) (CbProcessPost (mkPost h ev)) w).
  { intros E. cbn [hsm_post_event].
    rewrite (bind_run _ _ _ _ _ _ (load_hsm_run _ _ _ Hm)).
    destruct (invoke E (context m) (CbProcessPost (mkPost h ev)) w) as [[[x w'] t]|];
      reflexivity. }
  assert (Hfree : forall w0 b w2 t,
             hsm_process_post (runtime code fuel) (mkPost h ev) w0 = Some (b, w2, t) ->
             events w2 !! ev = None).
  { intros w0 b w2 t Hp. apply delivery_iff in Hp as [_ Hd].
    destruct Hd; cbn [events free_event set_events]; apply lookup_delete_eq. }
  split; [|split].
  - intros Hown.
    assert (Hrun : hsm_post_event (runtime code (S fuel)) (Some h) (Some ev) w
                   = match hsm_process_post (runtime code fuel) (mkPost h ev) w with
                     | Some (_, w', t) =>
                         Some (tt, w', OInvoke (context m) (CbProcessPost (mkPost h ev)) :: t)
                     | None => None
                     end).
    { rewrite Hpe, invoke_run. cbn [runtime g_main_context_invoke].
      rewrite (glib_invoke_owned _ _ _ _ Hown). cbn [run_callback].
      destruct (hsm_process_post (runtime code fuel) (mkPost h ev) w) as [[[x w'] t]|];
        reflexivity. }
    split; [exact Hrun|]. intros w' tr H. rewrite Hrun in H.
    destruct (hsm_process_post (runtime code fuel) (mkPost h ev) w) as [[[b w2] t]|] eqn:Hp;
      [|discriminate].
    injection H as <- <-. exact (Hfree _ _ _ _ Hp).
  - intros Hown Htd Hbusy.
    assert (Hrun : hsm_post_event (runtime code (S fuel)) (Some h) (Some ev) w
                   = match hsm_process_post (runtime code fuel) (mkPost h ev)
                             (set_owned (cons (context m)) w) with
                     | Some (_, w', t) =>
                         Some (tt, set_owned (remove_first (context m)) w',
                               OInvoke (context m) (CbProcessPost (mkPost h ev)) :: t)
                     | None => None
                     end).
    { rewrite Hpe, invoke_run. cbn [runtime g_main_context_invoke].
      rewrite (glib_invoke_acquired _ _ _ _ Hown Htd Hbusy). cbn [run_callback].
      destruct (hsm_process_post (runtime code fuel) (mkPost h ev)
                  (set_owned (cons (context m)) w)) as [[[x w'] t]|]; reflexivity. }
    split; [exact Hrun|]. split; [reflexivity|]. split; [intros w'; reflexivity|].
    intros w' tr H. rewrite Hrun in H.
    destruct (hsm_process_post (runtime code fuel) (mkPost h ev)
                (set_owned (cons (context m)) w)) as [[[b w2] t]|] eqn:Hp; [|discriminate].
    injection H as <- <-. cbn [events set_owned]. exact (Hfree _ _ _ _ Hp).
  - intros Hown Hor. split; [|split; reflexivity].
    rewrite Hpe, invoke_run. cbn [runtime g_main_context_invoke].
    now rewrite (glib_invoke_queued _ _ _ _ Hown Hor).
Qed.

(** ** Timer ids while the counter is in range *)

(** X19. On a machine whose counter is not negative and has not reached
    [G_MAXINT], [hsm_schedule_timer (h, d)] returns the counter plus one, a
    positive integer.  The machine read back afterwards has this id for
    counter and, in its timer table, one new entry, which records under
    the id the source just attached; the other entries, the rest of the
    machine and the other machines are as they were.  The source is a new
    one, of interval [d], attached to the machine's context, with the
    machine and the id for callback data; the other sources are as they
    were.  When GLib dispatches that source, its callback posts to the
    machine's own context one new event of kind TIMEOUT, name
    "TIMER_EXPIRED", source the machine's name, sequence number the id and
    no data, then removes the entry of the id; the source is destroyed
    after this one dispatch. *)
Theorem schedule_timer_in_range (E : Env) (w : World) (h : HsmPtr) (m : Hsm) (d : Z) :
  hsms w !! h = Some m ->
  0 <= next_timer_id m < G_MAXINT ->
  exists w1 m1,
    hsm_schedule_timer (Some h) d w
    = Some (next_timer_id m + 1, w1, [OTimer h (next_timer_id m + 1)]) /\
    0 < next_timer_id m + 1 /\
    hsms w1 !! h = Some m1 /\
    next_timer_id m1 = next_timer_id m + 1 /\
    timers m1 !! (next_timer_id m + 1) = Some (next_src w) /\
    (forall id', id' ≠ next_timer_id m + 1 -> timers m1 !! id' = timers m !! id') /\
    with_next_timer_id (next_timer_id m) (with_timers (timers m) m1) = m /\
    (forall h', h' ≠ h -> hsms w1 !! h' = hsms w !! h') /\
    sources w1 !! next_src w
    = Some (mkSource (context m) d (mkTimerCtx h (next_timer_id m + 1))) /\
    (forall s, s ≠ next_src w -> sources w1 !! s = sources w !! s) /\
    (forall w' tr,
       g_timeout_dispatch E (next_src w) w1 = Some (tt, w', tr) <->
       exists w3 ti m3,
         g_main_context_invoke E (context m) (CbProcessPost (mkPost h (next_ev w1)))
           (alloc_event (timeout_event m1 (next_timer_id m + 1)) w1) = Some (tt, w3, ti) /\
         hsms w3 !! h = Some m3 /\
         tr = OInvoke (context m) (CbProcessPost (mkPost h (next_ev w1))) :: ti /\
         w' = set_sources (delete (next_src w))
                (store_hsm h (with_timers (delete (next_timer_id m + 1) (timers m3)) m3) w3)).
Proof.
  intros Hm Hrange.
  assert (Hid : gint_wrap (next_timer_id m + 1) = next_timer_id m + 1).
  { apply gint_wrap_small. unfold is_gint, G_MININT, G_MAXINT in *. lia. }
  pose proof (hsm_schedule_timer_run w h m d Hm) as Hs. rewrite Hid in Hs.
  set (id := next_timer_id m + 1) in *.
  set (m1 := with_timers (<[id := next_src w]> (timers m)) (with_next_timer_id id m)) in *.
  match type of Hs with _ = Some (_, ?x, _) => set (w1 := x) in * end.
  assert (Hm1 : hsms w1 !! h = Some m1) by apply hsms_store_hsm.
  assert (Hsrc : sources w1 !! next_src w = Some (mkSource (context m) d (mkTimerCtx h id))).
  { subst w1. cbn [sources store_hsm set_hsms bump_src set_sources]. apply lookup_insert_eq. }
  exists w1, m1. split; [exact Hs|]. split; [lia|]. split; [exact Hm1|].
  split; [reflexivity|]. split.
  { subst m1. cbn [timers with_timers]. apply lookup_insert_eq. }
  split.
  { intros id' Hne. subst m1. cbn [timers with_timers]. apply lookup_insert_ne. congruence. }
  split; [now destruct m|]. split.
  { intros h' Hne. subst w1. rewrite hsms_store_hsm_ne by congruence.
    cbn [hsms bump_src set_sources]. now rewrite hsms_store_hsm_ne by congruence. }
  split; [exact Hsrc|]. split.
  { intros s Hne. subst w1. cbn [sources store_hsm set_hsms bump_src set_sources].
    apply lookup_insert_ne. congruence. }
  intros w' tr. rewrite (timeout_dispatch_iff E _ _ w1 w' tr Hsrc). cbn [src_data]. split.
  - intros (w2 & Hfire & ->). destruct Hfire as [w0 m2 w3 ti m3 Hm2 Hg Hm3].
    cbn [t_h t_timer_id] in *.
    pose proof (eq_trans (eq_sym Hm1) Hm2) as Heq. injection Heq as <-.
    now exists w3, ti, m3.
  - intros (w3 & ti & m3 & Hg & Hm3 & -> & ->). eexists. split; [|reflexivity].
    now apply (timer_fires_post E (mkTimerCtx h id) w1 m1 w3 ti m3).
Qed.

(** X20. While its counter stays in the range of a [gint], the timer ids
    one machine hands out are its counter plus 1, 2, 3, ...: strictly
    increasing, without repetition and above every id handed out before,
    and the counter ends at the last of them, so that neither cancelling
    nor firing a timer moves it.  This holds for successive calls of
    [hsm_schedule_timer], which all return; and, provided the handlers and
    what [g_main_context_invoke] runs count the machine's timers in this
    way themselves, over any sequence of calls by the application (of
    [hsm_change_state], [hsm_post_event], [hsm_schedule_timer],
    [hsm_cancel_timer], [hsm_register_state], [hsm_set_parent], [hsm_stop]
    and the queries), timer firings and dispatches of posted callbacks, and
    over [hsm_run] on GLib's loop, in which posted callbacks are dispatched
    and timers fire. *)
Theorem timer_ids_increase_in_range (E : Env) (w : World) (h : HsmPtr) (m : Hsm) :
  hsms w !! h = Some m ->
  G_MININT <= next_timer_id m ->
  (forall ms n,
     next_timer_id m + Z.of_nat n <= G_MAXINT ->
     exists ids w' t m',
       schedule_many h ms n w = Some (ids, w', t) /\
       length ids = n /\
       StronglySorted Z.lt ids /\
       NoDup ids /\
       Forall (fun id => next_timer_id m < id) ids /\
       hsms w' !! h = Some m' /\
       next_timer_id m' = next_timer_id m + Z.of_nat n) /\
  ((forall fn h' s ev ud, counts h (call_handler E fn h' s ev ud)) ->
   (forall c cb, counts h (g_main_context_invoke E c cb)) ->
   (forall l w' tr,
      run_activities E l w = Some (tt, w', tr) ->
      next_timer_id m + Z.of_nat (length (timer_ids h tr)) <= G_MAXINT ->
      StronglySorted Z.lt (timer_ids h tr) /\
      NoDup (timer_ids h tr) /\
      Forall (fun id => next_timer_id m < id) (timer_ids h tr) /\
      exists m', hsms w' !! h = Some m' /\
                 next_timer_id m' = next_timer_id m + Z.of_nat (length (timer_ids h tr))) /\
   (forall n h0 w' tr,
      hsm_run (with_glib_loop E n) h0 w = Some (tt, w', tr) ->
      next_timer_id m + Z.of_nat (length (timer_ids h tr)) <= G_MAXINT ->
      StronglySorted Z.lt (timer_ids h tr) /\
      NoDup (timer_ids h tr) /\
      Forall (fun id => next_timer_id m < id) (timer_ids h tr) /\
      exists m', hsms w' !! h = Some m' /\
                 next_timer_id m' = next_timer_id m + Z.of_nat (length (timer_ids h tr)))).
Proof.
  intros Hm Hlo.
  assert (Hfin : forall w' tr m',
             hsms w' !! h = Some m' ->
             counted_from (next_timer_id m) (timer_ids h tr) (next_timer_id m') ->
             next_timer_id m + Z.of_nat (length (timer_ids h tr)) <= G_MAXINT ->
             StronglySorted Z.lt (timer_ids h tr) /\
             NoDup (timer_ids h tr) /\
             Forall (fun id => next_timer_id m < id) (timer_ids h tr) /\
             exists m', hsms w' !! h = Some m' /\
                        next_timer_id m'
                        = next_timer_id m + Z.of_nat (length (timer_ids h tr))).
  { intros w' tr m' Hm' Hc Hhi.
    destruct (counted_from_nowrap _ _ _ Hc Hlo Hhi) as (Hnext & Hs & Hf).
    split; [exact Hs|]. split; [now apply StronglySorted_lt_NoDup|]. split.
    - eapply Forall_impl; [exact Hf|]. cbn beta. lia.
    - now exists m'. }
  split.
  - intros ms n Hhi.
    destruct (schedule_many_counts h ms n w m Hm) as (ids & w' & t & m' & Hrun & Hm' & Hlen & Hc).
    rewrite <- Hlen in Hhi.
    destruct (counted_from_nowrap _ _ _ Hc Hlo Hhi) as (Hnext & Hs & Hf).
    exists ids, w', t, m'. split; [exact Hrun|]. split; [exact Hlen|]. split; [exact Hs|].
    split; [now apply StronglySorted_lt_NoDup|]. split.
    + eapply Forall_impl; [exact Hf|]. cbn beta. lia.
    + split; [exact Hm'|]. now rewrite <- Hlen.
  - intros Hh Hi. split.
    + intros l w' tr Hrun Hhi.
      destruct (counts_run_activities h E (conj Hh Hi) l _ _ _ _ _ Hm Hrun) as (m' & Hm' & Hc).
      exact (Hfin _ _ _ Hm' Hc Hhi).
    + intros n h0 w' tr Hrun Hhi.
      assert (Hl : forall h1, counts h (g_main_loop_run (with_glib_loop E n) h1)).
      { intros h1. cbn [with_glib_loop g_main_loop_run].
        apply counts_glib_main_loop_run; intros.
        - now apply counts_run_callback.
        - now apply counts_g_timeout_dispatch. }
      destruct (counts_hsm_run h _ h0 Hl _ _ _ _ _ Hm Hrun) as (m' & Hm' & Hc).
      exact (Hfin _ _ _ Hm' Hc Hhi).
Qed.
(** ** The further properties on the concrete machines *)

Lemma dev_world_wf : store_wf dev_world.
Proof.
  split; [|split].
  - intros h m id s Hm Hid. cbn [hsms dev_world] in Hm.
    apply lookup_singleton_Some in Hm as [_ <-]. cbn [timers dev_hsm] in Hid.
    now rewrite lookup_empty in Hid.
  - intros s [x Hx]. cbn [sources dev_world] in Hx. now rewrite lookup_empty in Hx.
  - intros h [x Hx]. cbn [hsms dev_world] in Hx.
    apply lookup_singleton_Some in Hx as [<- _]. reflexivity.
Qed.

Lemma timer_world_wf : store_wf timer_world.
Proof.
  assert (H : hsm_schedule_timer (Some 1%positive) 100 dev_world
              = Some (2, timer_world, [OTimer 1%positive 2])) by (vm_compute; reflexivity).
  exact (proj2 (sound_hsm_schedule_timer _ _ _ _ _ _ H) dev_world_wf).
Qed.

Lemma two_timer_world_wf : store_wf two_timer_world.
Proof.
  assert (H : hsm_schedule_timer (Some 1%positive) 50 timer_world
              = Some (3, two_timer_world, [OTimer 1%positive 3])) by (vm_compute; reflexivity).
  exact (proj2 (sound_hsm_schedule_timer _ _ _ _ _ _ H) timer_world_wf).
Qed.

Lemma ticking_world_wf : store_wf ticking_world.
Proof.
  exact (proj2 (same_store timer_world ticking_world eq_refl eq_refl eq_refl eq_refl)
           timer_world_wf).
Qed.

(** Registering "S" of "dev" again, with handler 7 and user data 9,
    replaces its entry. *)
Lemma register_then_resolve_witness :
  hsms dev_world !! 1%positive = Some dev_hsm /\
  exists w1 m1,
    hsm_register_state (Some 1%positive) (Some "S"%string) (Some 7%positive) 9 dev_world
    = Some (tt, w1, []) /\
    hsms w1 !! 1%positive = Some m1 /\
    resolve m1 "S" = Some (7%positive, 9).
Proof.
  split; [reflexivity|].
  destruct (register_then_resolve (queue_env true) dev_world 1%positive dev_hsm "S"
              7%positive 9 eq_refl) as (w1 & m1 & Hrun & Hm1 & Hres & _).
  exists w1, m1. split; [exact Hrun|]. split; [exact Hm1 | exact Hres].
Defined.

(** "dev" schedules its first timer and cancels it. *)
Lemma schedule_then_cancel_witness :
  hsms dev_world !! 1%positive = Some dev_hsm /\
  0 <= next_timer_id dev_hsm < G_MAXINT /\
  timers dev_hsm !! (next_timer_id dev_hsm + 1) = None /\
  exists w1 w2 m2,
    hsm_schedule_timer (Some 1%positive) 100 dev_world = Some (2, w1, [OTimer 1%positive 2]) /\
    hsm_cancel_timer (Some 1%positive) 2 w1 = Some (true, w2, []) /\
    hsms w2 !! 1%positive = Some m2 /\
    timers m2 = timers dev_hsm /\
    next_timer_id m2 = 2.
Proof.
  assert (Hr : 0 <= next_timer_id dev_hsm < G_MAXINT) by (vm_compute; split; [discriminate | reflexivity]).
  split; [reflexivity|]. split; [exact Hr|]. split; [reflexivity|].
  destruct (schedule_then_cancel dev_world 1%positive dev_hsm 100 eq_refl Hr eq_refl)
    as (w1 & w2 & m2 & Hs & Hc & Hm2 & _ & _ & Ht & Hn & _).
  exists w1, w2, m2. auto.
Defined.

(** The timer of [timer_world] once cancelled, and once fired, is
    refused. *)
Lemma spent_timer_id_is_refused_witness :
  hsm_cancel_timer (Some 1%positive) 2
    (outcome (hsm_cancel_timer (Some 1%positive) 2 timer_world)).1
  = Some (false, (outcome (hsm_cancel_timer (Some 1%positive) 2 timer_world)).1, []) /\
  hsm_cancel_timer (Some 1%positive) 2
    (outcome (g_timeout_dispatch (queue_env true) 1%positive timer_world)).1
  = Some (false, (outcome (g_timeout_dispatch (queue_env true) 1%positive timer_world)).1, []).
Proof.
  destruct (spent_timer_id_is_refused (queue_env true)) as [Hfire Hcancel].
  split.
  - apply (Hcancel 1%positive 2 timer_world _ []). vm_compute. reflexivity.
  - apply (Hfire 1%positive (mkSource 2%positive 100 (mkTimerCtx 1%positive 2)) timer_world _
             (outcome (g_timeout_dispatch (queue_env true) 1%positive timer_world)).2).
    + vm_compute. reflexivity.
    + vm_compute. reflexivity.
Defined.

(** "dev" has no thread: the first [hsm_start] spawns one, the second
    does nothing. *)
Lemma hsm_start_spawns_at_most_once_witness :
  hsms dev_world !! 1%positive = Some dev_hsm /\
  thread dev_hsm = None /\
  exists t w1,
    hsm_start (Some 1%positive) true dev_world = Some (tt, w1, [OSpawn 1%positive t]) /\
    hsm_start (Some 1%positive) true w1 = Some (tt, w1, []).
Proof.
  split; [reflexivity|]. split; [reflexivity|].
  destruct (hsm_start_spawns_at_most_once dev_world 1%positive dev_hsm eq_refl)
    as (_ & _ & Hnew).
  destruct (Hnew eq_refl) as (t & w1 & H1 & _ & _ & H2). exists t, w1. auto.
Defined.

(** The run of the loop in the basic life cycle: the thread has no
    default context before, the machine's context on top of its stack
    while the loop runs, and none again afterwards. *)
Lemma hsm_run_brackets_the_loop_witness :
  hsm_run (runtime lifecycle_code 4) (Some 1%positive) ready_world
  = Some (tt, (outcome (hsm_run (runtime lifecycle_code 4) (Some 1%positive) ready_world)).1,
          (outcome (hsm_run (runtime lifecycle_code 4) (Some 1%positive) ready_world)).2) /\
  exists m w0 m0 m',
    hsms ready_world !! 1%positive = Some m /\
    hsms w0 !! 1%positive = Some m0 /\ running m0 = true /\
    tds w0 = [Some 2%positive] /\ owned w0 = [2%positive] /\
    hsms (outcome (hsm_run (runtime lifecycle_code 4) (Some 1%positive) ready_world)).1
      !! 1%positive = Some m' /\
    running m' = false /\
    tds (outcome (hsm_run (runtime lifecycle_code 4) (Some 1%positive) ready_world)).1 = [] /\
    owned (outcome (hsm_run (runtime lifecycle_code 4) (Some 1%positive) ready_world)).1 = [].
Proof.
  assert (H : hsm_run (runtime lifecycle_code 4) (Some 1%positive) ready_world
              = Some (tt,
                      (outcome (hsm_run (runtime lifecycle_code 4) (Some 1%positive)
                                  ready_world)).1,
                      (outcome (hsm_run (runtime lifecycle_code 4) (Some 1%positive)
                                  ready_world)).2))
    by (vm_compute; reflexivity).
  split; [exact H|].
  destruct (hsm_run_brackets_the_loop _ _ _ _ _ H)
    as (m & w0 & m0 & w2 & m2 & m' & Hm & Hm0 & Hr0 & _ & Hpush & _ & _ & _ & Hm' & Hr' & _).
  assert (Hc : context m = 2%positive).
  { pose proof Hm as Hm_. vm_compute in Hm_. injection Hm_ as <-. reflexivity. }
  rewrite Hc in Hpush.
  destruct (Hpush ltac:(vm_compute; apply not_elem_of_nil)) as [Htds Hown].
  exists m, w0, m0, m'.
  split; [exact Hm|]. split; [exact Hm0|]. split; [exact Hr0|].
  split; [exact Htds|]. split; [exact Hown|]. split; [exact Hm'|]. split; [exact Hr'|].
  split; vm_compute; reflexivity.
Defined.

(** The machine [hsm_new] has just created is moved to the state of the
    empty name. *)
Lemma empty_name_is_a_state_witness :
  hsms fresh_world !! 1%positive = Some fresh_hsm /\
  current_state fresh_hsm = None /\
  resolve fresh_hsm "" = None /\
  (exists w' m',
     hsm_change_state_internal (queue_env true) 1%positive "" fresh_world
     = Some (tt, w', [OCommit 1%positive ""]) /\
     hsms w' !! 1%positive = Some m' /\
     current_state m' = Some ""%string /\
     hsm_change_state_internal (queue_env true) 1%positive "" w' = Some (tt, w', [])) /\
  hsm_get_state_copy (Some 1%positive) fresh_world
  = Some (""%string, fresh_world, [OLock 1%positive; OReadState 1%positive; OUnlock 1%positive]).
Proof.
  split; [reflexivity|]. split; [reflexivity|]. split; [reflexivity|].
  destruct (empty_name_is_a_state (queue_env true) fresh_world 1%positive fresh_hsm eq_refl)
    as (Hnone & Hcopy & _).
  split.
  - destruct (proj2 (Hnone eq_refl) eq_refl) as (w' & m' & Hrun & Hm' & Hcur & _ & _ & Hnoop).
    exists w', m'. auto.
  - exact (Hcopy (or_introl eq_refl)).
Defined.

(** "root", on the global default context, is destroyed while its timer
    is scheduled; "dev", on a context of its own that the calling thread
    has on its stack, is destroyed while its timer is scheduled.  Both
    timers stay attached and fire into the released machine. *)
Lemma destroy_leaves_timers_witness :
  hsms root_timer_world !! 2%positive = Some root_timer_hsm /\
  context root_timer_hsm = g_main_context_default /\
  sources root_timer_world !! 1%positive
  = Some (mkSource 1%positive 500 (mkTimerCtx 2%positive 2)) /\
  (exists w',
     hsm_destroy (queue_env true) (Some 2%positive) root_timer_world = Some (tt, w', []) /\
     hsms w' !! 2%positive = None /\
     sources w' = sources root_timer_world /\
     g_timeout_dispatch (queue_env true) 1%positive w' = None) /\
  hsms timer_world !! 1%positive = Some timer_hsm /\
  Some (context timer_hsm) ∈ tds timer_world /\
  sources timer_world !! 1%positive
  = Some (mkSource 2%positive 100 (mkTimerCtx 1%positive 2)) /\
  (exists w',
     hsm_destroy (queue_env true) (Some 1%positive) timer_world = Some (tt, w', []) /\
     hsms w' !! 1%positive = None /\
     sources w' = sources timer_world /\
     g_timeout_dispatch (queue_env true) 1%positive w' = None).
Proof.
  assert (Hm : hsms root_timer_world !! 2%positive = Some root_timer_hsm)
    by (vm_compute; reflexivity).
  assert (Hs : sources root_timer_world !! 1%positive
               = Some (mkSource 1%positive 500 (mkTimerCtx 2%positive 2)))
    by (vm_compute; reflexivity).
  assert (Hm' : hsms timer_world !! 1%positive = Some timer_hsm)
    by (vm_compute; reflexivity).
  assert (Hs' : sources timer_world !! 1%positive
                = Some (mkSource 2%positive 100 (mkTimerCtx 1%positive 2)))
    by (vm_compute; reflexivity).
  assert (Htd : Some (context timer_hsm) ∈ tds timer_world) by apply list_elem_of_here.
  split; [exact Hm|]. split; [reflexivity|]. split; [exact Hs|]. split; [|split; [exact Hm'|]].
  - destruct (destroy_leaves_timers_attached (queue_env true) (queue_env true)
                root_timer_world 2%positive root_timer_hsm Hm eq_refl)
      as (w' & Hd & Hgone & _ & Hkeep & _).
    destruct (Hkeep (or_introl eq_refl)) as [Hsrc Hfire].
    exists w'. split; [exact Hd|]. split; [exact Hgone|]. split; [exact Hsrc|].
    exact (proj2 (Hfire 1%positive _ Hs eq_refl)).
  - split; [exact Htd|]. split; [exact Hs'|].
    destruct (destroy_leaves_timers_attached (queue_env true) (queue_env true)
                timer_world 1%positive timer_hsm Hm' eq_refl)
      as (w' & Hd & Hgone & _ & Hkeep & _).
    destruct (Hkeep (or_intror (or_introl Htd))) as [Hsrc Hfire].
    exists w'. split; [exact Hd|]. split; [exact Hgone|]. split; [exact Hsrc|].
    exact (proj2 (Hfire 1%positive _ Hs' eq_refl)).
Defined.

(** "root" is destroyed; its child "dev", in state "S" whose handler
    answers FALSE, is then given the event "done". *)
Lemma destroy_leaves_children_dangling_witness :
  hsms family_world !! 2%positive = Some root_hsm /\
  hsms family_world !! 1%positive = Some (with_parent (Some 2%positive) dev_hsm) /\
  exists w',
    hsm_destroy (queue_env false) (Some 2%positive) family_world = Some (tt, w', []) /\
    hsms w' !! 1%positive = Some (with_parent (Some 2%positive) dev_hsm) /\
    hsm_get_parent (Some 1%positive) w' = Some (Some 2%positive, w', []) /\
    hsms w' !! 2%positive = None /\
    call_handler (queue_env false) 1%positive 1%positive "S" 1%positive 100 w'
    = Some (false, w', []) /\
    hsm_process_post (queue_env false) (mkPost 1%positive 1%positive) w' = None.
Proof.
  assert (Hp : hsms family_world !! 2%positive = Some root_hsm) by (vm_compute; reflexivity).
  assert (Hc : hsms family_world !! 1%positive = Some (with_parent (Some 2%positive) dev_hsm))
    by (vm_compute; reflexivity).
  split; [exact Hp|]. split; [exact Hc|].
  destruct (destroy_leaves_children_dangling (queue_env false) (queue_env false) family_world
              2%positive 1%positive root_hsm (with_parent (Some 2%positive) dev_hsm) 1%positive
              Hp eq_refl Hc ltac:(discriminate) eq_refl)
    as (w' & Hd & Hc' & Hgp & Hp' & _ & _ & Hfalse & _).
  exists w'. split; [exact Hd|]. split; [exact Hc'|]. split; [exact Hgp|].
  split; [exact Hp'|]. split; [reflexivity|].
  apply (Hfalse "S"%string 1%positive 100 w' []);
    [reflexivity | exact dev_resolve_S | reflexivity | exact Hc' | exact Hp'].
Defined.

(** The child of [family_world], with handlers that refuse every event,
    is made its own parent. *)
Lemma self_parent_never_settles_witness :
  hsms family_world !! 1%positive = Some (with_parent (Some 2%positive) dev_hsm) /\
  exists w1,
    hsm_set_parent (Some 1%positive) (Some 1%positive) family_world = Some (tt, w1, []) /\
    hsm_get_parent (Some 1%positive) w1 = Some (Some 1%positive, w1, []) /\
    forall fuel,
      hsm_process_post (runtime refusing_code fuel) (mkPost 1%positive 1%positive) w1 = None.
Proof.
  assert (Hm : hsms family_world !! 1%positive = Some (with_parent (Some 2%positive) dev_hsm))
    by (vm_compute; reflexivity).
  split; [exact Hm|].
  refine (proj1 (self_parent_never_settles refusing_code family_world 1%positive
                   (with_parent (Some 2%positive) dev_hsm) 1%positive Hm _ _ _)).
  - apply list_elem_of_here.
  - exists done_event. vm_compute. reflexivity.
  - intros fn s e ud. reflexivity.
Defined.

(** With handlers that only return and posts that are queued, the
    transition S -> T of "dev" leaves the timer of [timer_world] in the
    table. *)
Lemma only_timer_functions_touch_timers_witness :
  exists m',
    hsms (outcome (hsm_change_state_internal (queue_env true) 1%positive "T" timer_world)).1
      !! 1%positive = Some m' /\
    timers m' = timers timer_hsm.
Proof.
  assert (Hk : forall h T, keeps_timers (hsm_change_state_internal (queue_env true) h T)).
  { apply (only_timer_functions_touch_timers (queue_env true)).
    - intros fn h s ev ud w a w' t H. cbn in H. injection H as <- <- <-.
      split; [reflexivity|]. intros h0 m Hm. now exists m.
    - intros c cb w a w' t H. cbn in H. injection H as <- <- <-.
      split; [reflexivity|]. intros h0 m Hm. now exists m. }
  refine (proj2 (Hk 1%positive "T"%string timer_world tt _
                   (outcome (hsm_change_state_internal (queue_env true) 1%positive "T"
                               timer_world)).2 _) 1%positive timer_hsm _).
  - vm_compute. reflexivity.
  - vm_compute. reflexivity.
Defined.

(** "dev" is still there, named "dev" and on context 2, at the end of
    [dev_lifetime], and at the end of a run of the loop in which its timer
    fires and its handler stops the loop. *)
Lemma machines_persist_witness :
  run_activities (runtime quiet_code 3) dev_lifetime dev_world
  = Some (tt, dev_lifetime_end.1, dev_lifetime_end.2) /\
  machines_kept dev_world dev_lifetime_end.1 /\
  hsm_run (with_glib_loop (runtime stop_on_timeout_code 3) 3) (Some 1%positive) ticking_world
  = Some (tt,
          (outcome (hsm_run (with_glib_loop (runtime stop_on_timeout_code 3) 3)
                      (Some 1%positive) ticking_world)).1,
          (outcome (hsm_run (with_glib_loop (runtime stop_on_timeout_code 3) 3)
                      (Some 1%positive) ticking_world)).2) /\
  dispatches (outcome (hsm_run (with_glib_loop (runtime stop_on_timeout_code 3) 3)
                         (Some 1%positive) ticking_world)).2
  = [(1%positive, "S"%string, HSM_EVT_TIMEOUT)] /\
  machines_kept ticking_world
    (outcome (hsm_run (with_glib_loop (runtime stop_on_timeout_code 3) 3)
                (Some 1%positive) ticking_world)).1.
Proof.
  assert (H : run_activities (runtime quiet_code 3) dev_lifetime dev_world
              = Some (tt, dev_lifetime_end.1, dev_lifetime_end.2))
    by (vm_compute; reflexivity).
  assert (H' : hsm_run (with_glib_loop (runtime stop_on_timeout_code 3) 3) (Some 1%positive)
                 ticking_world
               = Some (tt,
                       (outcome (hsm_run (with_glib_loop (runtime stop_on_timeout_code 3) 3)
                                   (Some 1%positive) ticking_world)).1,
                       (outcome (hsm_run (with_glib_loop (runtime stop_on_timeout_code 3) 3)
                                   (Some 1%positive) ticking_world)).2))
    by (vm_compute; reflexivity).
  split; [exact H|]. split; [|split; [exact H'|split; [vm_compute; reflexivity|]]].
  - destruct (machines_persist (runtime quiet_code 3)) as (_ & _ & _ & Hlife).
    destruct (runtime_sound quiet_code 3) as [Hh Hi].
    exact (proj1 (Hlife Hh Hi) dev_lifetime dev_world _ _ H).
  - destruct (machines_persist (runtime stop_on_timeout_code 3)) as (_ & _ & _ & Hlife).
    destruct (runtime_sound stop_on_timeout_code 3) as [Hh Hi].
    exact (proj2 (Hlife Hh Hi) 3%nat (Some 1%positive) ticking_world _ _ H').
Defined.

(** The store at the end of [dev_lifetime] is consistent, and so is the
    store at the end of a run of the loop in which the timer of "dev"
    fires. *)
Lemma timer_tables_stay_consistent_witness :
  store_wf dev_world /\
  run_activities (runtime quiet_code 3) dev_lifetime dev_world
  = Some (tt, dev_lifetime_end.1, dev_lifetime_end.2) /\
  store_wf dev_lifetime_end.1 /\
  store_wf ticking_world /\
  hsm_run (with_glib_loop (runtime stop_on_timeout_code 3) 3) (Some 1%positive) ticking_world
  = Some (tt,
          (outcome (hsm_run (with_glib_loop (runtime stop_on_timeout_code 3) 3)
                      (Some 1%positive) ticking_world)).1,
          (outcome (hsm_run (with_glib_loop (runtime stop_on_timeout_code 3) 3)
                      (Some 1%positive) ticking_world)).2) /\
  store_wf (outcome (hsm_run (with_glib_loop (runtime stop_on_timeout_code 3) 3)
                       (Some 1%positive) ticking_world)).1.
Proof.
  assert (H : run_activities (runtime quiet_code 3) dev_lifetime dev_world
              = Some (tt, dev_lifetime_end.1, dev_lifetime_end.2))
    by (vm_compute; reflexivity).
  assert (H' : hsm_run (with_glib_loop (runtime stop_on_timeout_code 3) 3) (Some 1%positive)
                 ticking_world
               = Some (tt,
                       (outcome (hsm_run (with_glib_loop (runtime stop_on_timeout_code 3) 3)
                                   (Some 1%positive) ticking_world)).1,
                       (outcome (hsm_run (with_glib_loop (runtime stop_on_timeout_code 3) 3)
                                   (Some 1%positive) ticking_world)).2))
    by (vm_compute; reflexivity).
  split; [exact dev_world_wf|]. split; [exact H|]. split; [|split; [exact ticking_world_wf|]].
  - destruct (timer_tables_stay_consistent (runtime quiet_code 3)) as (_ & _ & _ & Hlife).
    destruct (runtime_sound quiet_code 3) as [Hh Hi].
    exact (proj1 (proj1 (Hlife Hh Hi) dev_lifetime dev_world _ _ dev_world_wf H)).
  - split; [exact H'|].
    destruct (timer_tables_stay_consistent (runtime stop_on_timeout_code 3))
      as (_ & _ & _ & Hlife).
    destruct (runtime_sound stop_on_timeout_code 3) as [Hh Hi].
    exact (proj1 (proj2 (Hlife Hh Hi) 3%nat (Some 1%positive) ticking_world _ _
                    ticking_world_wf H')).
Defined.

(** Of the two timers of [two_timer_world], the first is cancelled; the
    second keeps its source. *)
Lemma cancel_spares_other_timers_witness :
  store_wf two_timer_world /\
  hsms two_timer_world !! 1%positive = Some two_timer_hsm /\
  timers two_timer_hsm !! 2 = Some 1%positive /\
  timers two_timer_hsm !! 3 = Some 2%positive /\
  exists w',
    hsm_cancel_timer (Some 1%positive) 2 two_timer_world = Some (true, w', []) /\
    is_Some (sources w' !! 2%positive).
Proof.
  assert (Hm : hsms two_timer_world !! 1%positive = Some two_timer_hsm)
    by (vm_compute; reflexivity).
  assert (H2 : timers two_timer_hsm !! 2 = Some 1%positive) by (vm_compute; reflexivity).
  assert (H3 : timers two_timer_hsm !! 3 = Some 2%positive) by (vm_compute; reflexivity).
  split; [exact two_timer_world_wf|]. split; [exact Hm|]. split; [exact H2|].
  split; [exact H3|].
  destruct (cancel_spares_other_timers two_timer_world 1%positive two_timer_hsm 2 1%positive
              two_timer_world_wf Hm H2) as (w' & Hc & _ & Hother).
  exists w'. split; [exact Hc|].
  refine (proj1 (proj2 (Hother 1%positive two_timer_hsm 3 2%positive Hm H3 _))).
  discriminate.
Defined.

(** The timer of [timer_world] fires, posts being queued. *)
Lemma recorded_timer_fires_witness :
  store_wf timer_world /\
  hsms timer_world !! 1%positive = Some timer_hsm /\
  timers timer_hsm !! 2 = Some 1%positive /\
  exists w3 ti m3,
    g_main_context_invoke (queue_env true) 2%positive
      (CbProcessPost (mkPost 1%positive 1%positive))
      (alloc_event (timeout_event timer_hsm 2) timer_world) = Some (tt, w3, ti) /\
    hsms w3 !! 1%positive = Some m3 /\
    (outcome (g_timeout_dispatch (queue_env true) 1%positive timer_world)).1
    = set_sources (delete 1%positive)
        (store_hsm 1%positive (with_timers (delete 2 (timers m3)) m3) w3).
Proof.
  assert (Hm : hsms timer_world !! 1%positive = Some timer_hsm) by (vm_compute; reflexivity).
  assert (H2 : timers timer_hsm !! 2 = Some 1%positive) by (vm_compute; reflexivity).
  split; [exact timer_world_wf|]. split; [exact Hm|]. split; [exact H2|].
  assert (H : g_timeout_dispatch (queue_env true) 1%positive timer_world
              = Some (tt, (outcome (g_timeout_dispatch (queue_env true) 1%positive
                                      timer_world)).1,
                      (outcome (g_timeout_dispatch (queue_env true) 1%positive
                                  timer_world)).2))
    by (vm_compute; reflexivity).
  destruct (proj1 (recorded_timer_fires_for_its_machine (queue_env true) timer_world 1%positive
                     timer_hsm 2 1%positive timer_world_wf Hm H2 _ _) H)
    as (w3 & ti & m3 & Hg & Hm3 & _ & Hw).
  exists w3, ti, m3. auto.
Defined.

(** "dev" asked to change state by the thread that runs its context:
    the transition is carried out.  "main", on the global default context,
    asked by the main thread, which has no default context of its own: the
    transition is carried out too, through [g_main_context_invoke], and
    the machine reads "A" when the call returns.  The new machine of
    [fresh_world], on a context of its own, asked by a thread that does
    not run that context: the request is queued. *)
Lemma change_state_runs_or_posts_witness :
  hsms dev_world !! 1%positive = Some dev_hsm /\
  g_main_context_get_thread_default dev_world = Some (context dev_hsm) /\
  hsm_change_state (runtime quiet_code 1) (Some 1%positive) (Some "T"%string) dev_world
  = hsm_change_state_internal (runtime quiet_code 1) 1%positive "T" dev_world /\
  hsms main_world !! 1%positive = Some main_hsm /\
  hsm_change_state (runtime quiet_code 1) (Some 1%positive) (Some "A"%string) main_world
  = Some (tt, store_hsm 1%positive (with_current_state (Some "A"%string) main_hsm) main_world,
          [OInvoke 1%positive (CbChangeState (mkChangeReq 1%positive "A"));
           OCommit 1%positive "A"]) /\
  hsms fresh_world !! 1%positive = Some fresh_hsm /\
  hsm_change_state (runtime quiet_code 1) (Some 1%positive) (Some "A"%string) fresh_world
  = Some (tt,
          set_pending
            (fun q => q ++ [(2%positive, CbChangeState (mkChangeReq 1%positive "A"))])
            fresh_world,
          [OInvoke 2%positive (CbChangeState (mkChangeReq 1%positive "A"))]).
Proof.
  assert (Hmain : hsms main_world !! 1%positive = Some main_hsm) by (vm_compute; reflexivity).
  split; [reflexivity|]. split; [reflexivity|]. split; [|split; [exact Hmain|split]].
  - exact (proj1 (proj1 (proj2 (change_state_runs_or_posts quiet_code 0 dev_world 1%positive
                                  dev_hsm "T" eq_refl)) eq_refl)).
  - destruct (change_state_runs_or_posts quiet_code 0 main_world 1%positive main_hsm "A" Hmain)
      as (_ & _ & _ & Hacq & _).
    etransitivity;
      [exact (proj1 (Hacq eq_refl eq_refl ltac:(apply not_elem_of_nil)
                       ltac:(apply not_elem_of_nil)))|].
    vm_compute. reflexivity.
  - split; [exact fresh_world_hsm|].
    destruct (change_state_runs_or_posts quiet_code 0 fresh_world 1%positive fresh_hsm "A"
                fresh_world_hsm) as (_ & _ & _ & _ & Hq & _).
    refine (proj1 (Hq _ _ _)).
    + discriminate.
    + apply not_elem_of_nil.
    + left. discriminate.
Defined.

(** The event "done" posted to the child of [family_world] by the thread
    that owns its context is dispatched before the call returns; posted to
    "root", whose context the thread neither owns nor has for default, it
    is queued; posted to "main" by the main thread, for which the global
    default context is the default one, it is dispatched and released
    before the call returns. *)
Lemma post_event_runs_or_queues_witness :
  hsms family_world !! 1%positive = Some (with_parent (Some 2%positive) dev_hsm) /\
  hsm_post_event (runtime quiet_code 2) (Some 1%positive) (Some 1%positive) family_world
  = Some (tt, free_event 1%positive family_world,
          [OInvoke 2%positive (CbProcessPost (mkPost 1%positive 1%positive));
           ODispatch 1%positive "S" 1%positive done_event 100]) /\
  events (free_event 1%positive family_world) !! 1%positive = None /\
  hsms family_world !! 2%positive = Some root_hsm /\
  hsm_post_event (runtime quiet_code 2) (Some 2%positive) (Some 1%positive) family_world
  = Some (tt,
          set_pending (fun q => q ++ [(1%positive, CbProcessPost (mkPost 2%positive 1%positive))])
            family_world,
          [OInvoke 1%positive (CbProcessPost (mkPost 2%positive 1%positive))]) /\
  hsms (alloc_event done_event main_world) !! 1%positive = Some main_hsm /\
  events (alloc_event done_event main_world) !! 1%positive = Some done_event /\
  hsm_post_event (runtime quiet_code 2) (Some 1%positive) (Some 1%positive)
    (alloc_event done_event main_world)
  = Some (tt, free_event 1%positive (alloc_event done_event main_world),
          [OInvoke 1%positive (CbProcessPost (mkPost 1%positive 1%positive))]) /\
  events (free_event 1%positive (alloc_event done_event main_world)) !! 1%positive = None.
Proof.
  assert (Hm : hsms family_world !! 1%positive = Some (with_parent (Some 2%positive) dev_hsm))
    by (vm_compute; reflexivity).
  assert (Hr : hsms family_world !! 2%positive = Some root_hsm) by (vm_compute; reflexivity).
  assert (Hmain : hsms (alloc_event done_event main_world) !! 1%positive = Some main_hsm)
    by (vm_compute; reflexivity).
  assert (Hacq : hsm_post_event (runtime quiet_code 2) (Some 1%positive) (Some 1%positive)
                   (alloc_event done_event main_world)
                 = Some (tt, free_event 1%positive (alloc_event done_event main_world),
                         [OInvoke 1%positive (CbProcessPost (mkPost 1%positive 1%positive))]))
    by (vm_compute; reflexivity).
  assert (H : hsm_post_event (runtime quiet_code 2) (Some 1%positive) (Some 1%positive)
                family_world
              = Some (tt, free_event 1%positive family_world,
                      [OInvoke 2%positive (CbProcessPost (mkPost 1%positive 1%positive));
                       ODispatch 1%positive "S" 1%positive done_event 100]))
    by (vm_compute; reflexivity).
  split; [exact Hm|]. split; [exact H|]. split; [|split; [exact Hr|split]].
  - refine (proj2 (proj1 (post_event_runs_or_queues quiet_code 1 family_world 1%positive
                            (with_parent (Some 2%positive) dev_hsm) 1%positive Hm) _) _ _ H).
    apply list_elem_of_here.
  - refine (proj1 (proj2 (proj2 (post_event_runs_or_queues quiet_code 1 family_world 2%positive
                                   root_hsm 1%positive Hr)) _ _)).
    + vm_compute. intros Hin. apply list_elem_of_singleton in Hin. discriminate.
    + left. discriminate.
  - split; [exact Hmain|]. split; [reflexivity|]. split; [exact Hacq|].
    destruct (proj1 (proj2 (post_event_runs_or_queues quiet_code 1
                              (alloc_event done_event main_world) 1%positive main_hsm
                              1%positive Hmain))
                ltac:(apply not_elem_of_nil) eq_refl ltac:(apply not_elem_of_nil))
      as (_ & _ & _ & Hfree).
    exact (Hfree _ _ Hacq).
Defined.

(** On "dev", the first timer gets id 2 and source 1. *)
Lemma schedule_timer_in_range_witness :
  hsms dev_world !! 1%positive = Some dev_hsm /\
  0 <= next_timer_id dev_hsm < G_MAXINT /\
  exists w1 m1,
    hsm_schedule_timer (Some 1%positive) 100 dev_world = Some (2, w1, [OTimer 1%positive 2]) /\
    hsms w1 !! 1%positive = Some m1 /\
    next_timer_id m1 = 2 /\
    timers m1 !! 2 = Some 1%positive /\
    sources w1 !! 1%positive = Some (mkSource 2%positive 100 (mkTimerCtx 1%positive 2)).
Proof.
  assert (Hr : 0 <= next_timer_id dev_hsm < G_MAXINT) by (vm_compute; split; [discriminate | reflexivity]).
  split; [reflexivity|]. split; [exact Hr|].
  destruct (schedule_timer_in_range (queue_env true) dev_world 1%positive dev_hsm 100
              dev_world_hsm Hr) as (w1 & m1 & Hrun & _ & Hm1 & Hn & Ht & _ & _ & _ & Hs & _).
  exists w1, m1. auto.
Defined.

(** Three successive calls on "dev" return, and over [dev_lifetime] the
    machine hands out the ids 2, 3 and 4. *)
Lemma timer_ids_increase_in_range_witness :
  hsms dev_world !! 1%positive = Some dev_hsm /\
  G_MININT <= next_timer_id dev_hsm /\
  (exists ids w' t,
     schedule_many 1%positive 100 3 dev_world = Some (ids, w', t) /\
     length ids = 3%nat /\
     StronglySorted Z.lt ids) /\
  run_activities (runtime quiet_code 3) dev_lifetime dev_world
  = Some (tt, dev_lifetime_end.1, dev_lifetime_end.2) /\
  timer_ids 1%positive dev_lifetime_end.2 = [2; 3; 4] /\
  StronglySorted Z.lt (timer_ids 1%positive dev_lifetime_end.2) /\
  NoDup (timer_ids 1%positive dev_lifetime_end.2) /\
  Forall (fun id => next_timer_id dev_hsm < id) (timer_ids 1%positive dev_lifetime_end.2) /\
  exists m', hsms dev_lifetime_end.1 !! 1%positive = Some m' /\
             next_timer_id m'
             = next_timer_id dev_hsm + Z.of_nat (length (timer_ids 1%positive dev_lifetime_end.2)).
Proof.
  assert (Hrun : run_activities (runtime quiet_code 3) dev_lifetime dev_world
                 = Some (tt, dev_lifetime_end.1, dev_lifetime_end.2))
    by (vm_compute; reflexivity).
  assert (Hlo : G_MININT <= next_timer_id dev_hsm) by (vm_compute; discriminate).
  assert (Hhi : next_timer_id dev_hsm
                + Z.of_nat (length (timer_ids 1%positive dev_lifetime_end.2)) <= G_MAXINT)
    by (vm_compute; discriminate).
  assert (Hhi3 : next_timer_id dev_hsm + Z.of_nat 3 <= G_MAXINT)
    by (vm_compute; discriminate).
  destruct (timer_ids_increase_in_range (runtime quiet_code 3) dev_world 1%positive dev_hsm
              dev_world_hsm Hlo) as [Hmany Hlife].
  destruct (runtime_counts 1%positive quiet_code 3) as [Hh Hi].
  split; [reflexivity|]. split; [exact Hlo|]. split.
  - destruct (Hmany 100 3%nat Hhi3) as (ids & w' & t & m' & Hr & Hlen & Hs & _).
    now exists ids, w', t.
  - split; [exact Hrun|]. split; [vm_compute; reflexivity|].
    exact (proj1 (Hlife Hh Hi) dev_lifetime dev_lifetime_end.1 dev_lifetime_end.2 Hrun Hhi).
Defined.
